(** * The resumable document-analysis pipeline of the summarizer

    A shallow embedding of the server routes [api.process] and
    [api.continue]: the chunking engine, the retry/backoff controller,
    the section-content extractor and the status/progress state machine,
    followed by the properties of the specification that concern them.

    Conventions of the embedding:
    - JavaScript strings are sequences of UTF-16 code units, modelled as
      lists of [N]; numbers that the code only compares with integers
      or copies around are [Z], and [Math.round] of a ratio is computed
      in exact arithmetic;
    - an [async] function is a function from the world before it to its
      outcome (a value, or what it throws) and the world after it; the
      world holds the two tables of the database, the clock, the number
      of requests sent to the model service, and the trace of what
      an observer sees;
    - the built-ins of the host that are not modelled ([toLowerCase],
      [JSON.parse], [parseInt]) and the external services are the
      fields of the class [Env]: a property holds for every host and
      every service unless it says otherwise. *)

From Stdlib Require Import ZArith NArith Lia List Bool String Ascii.
From stdpp Require Import base tactics option list gmap pretty.

Local Open Scope Z_scope.

(** ** JavaScript strings *)

Module JsString.

Abbreviation code_unit := N (only parsing).
Abbreviation jsstring := (list N) (only parsing).

(** A literal written in Rocq's [string] syntax, as code units. *)
Definition js (s : string) : jsstring :=
  map N_of_ascii (list_ascii_of_string s).

(** The line feed U+000A, the separator of [split("\n")]. *)
Definition nl : code_unit := 10%N.

(** The quotation mark U+0022. *)
Definition dquote : code_unit := 34%N.

(** [WhiteSpace] and [LineTerminator] of ECMAScript: the code points
    removed by [String.prototype.trim]. *)
Definition is_ws (c : code_unit) : bool :=
  ((9 <=? c) && (c <=? 13) || (c =? 32) || (c =? 160) || (c =? 5760)
   || (8192 <=? c) && (c <=? 8202) || (c =? 8232) || (c =? 8233)
   || (c =? 8239) || (c =? 8287) || (c =? 12288) || (c =? 65279))%N.

Fixpoint trimStart (s : jsstring) : jsstring :=
  match s with
  | c :: s' => if is_ws c then trimStart s' else s
  | [] => []
  end.

Definition trimEnd (s : jsstring) : jsstring := rev (trimStart (rev s)).

(** [s.trim()] *)
Definition trim (s : jsstring) : jsstring := trimEnd (trimStart s).

(** Truthiness of a string: the empty string is the only falsy one. *)
Definition truthy (s : jsstring) : bool :=
  match s with [] => false | _ => true end.

(** [s.split("\n")], with the line being read as an accumulator; the
    result is never empty (one empty line on the empty string). *)
Fixpoint split_from (cur : jsstring) (s : jsstring) : list jsstring :=
  match s with
  | [] => [cur]
  | c :: s' => if (c =? nl)%N then cur :: split_from [] s'
               else split_from (cur ++ [c]) s'
  end.

Definition split_nl (s : jsstring) : list jsstring := split_from [] s.

(** [lines.join("\n")] *)
Fixpoint join_nl (ls : list jsstring) : jsstring :=
  match ls with
  | [] => []
  | [l] => l
  | l :: ls' => l ++ nl :: join_nl ls'
  end.

(** Every line followed by a line feed. *)
Definition unlines (ls : list jsstring) : jsstring :=
  concat (map (fun l => l ++ [nl]) ls).

(** [s.startsWith(p)] and [s.includes(p)] *)
Fixpoint startsWith (s p : jsstring) {struct p} : bool :=
  match p, s with
  | [], _ => true
  | _ :: _, [] => false
  | a :: p', b :: s' => (a =? b)%N && startsWith s' p'
  end.

Fixpoint includes (s p : jsstring) : bool :=
  startsWith s p ||
  match s with
  | [] => false
  | _ :: s' => includes s' p
  end.

(** The code units that are not white space, in order. *)
Definition non_ws (s : jsstring) : jsstring :=
  filter (fun c => is_ws c = false) s.

(** The longest prefix whose elements satisfy [p], and what follows it. *)
Fixpoint take_while {A} (p : A -> bool) (l : list A) : list A :=
  match l with
  | x :: l' => if p x then x :: take_while p l' else []
  | [] => []
  end.

Fixpoint drop_while {A} (p : A -> bool) (l : list A) : list A :=
  match l with
  | x :: l' => if p x then drop_while p l' else l
  | [] => []
  end.

(** Each number is at most the next one. *)
Fixpoint non_decreasing (l : list Z) : bool :=
  match l with
  | a :: (b :: _) as l' => (a <=? b) && non_decreasing l'
  | _ => true
  end.

End JsString.

Import JsString.

(** ** The chunking engine ([api.process]) *)

Module Chunking.

(** One iteration of the [for (const line of lines)] loop, on the pair
    of [chunks] and [currentChunk]. *)
Definition chunk_step (maxChars : Z) (st : list jsstring * jsstring)
    (line : jsstring) : list jsstring * jsstring :=
  let '(chunks, currentChunk) := st in
  if (Z.of_nat (length (currentChunk ++ line)) >? maxChars)
     && (Z.of_nat (length currentChunk) >? 0)
  then (chunks ++ [trim currentChunk], line ++ [nl])
  else (chunks, currentChunk ++ line ++ [nl]).

(** [chunkTextForProcessing(text, maxTokens)].  The budget is compared
    with string lengths only, so a finite non-integral budget behaves
    as its floor; the route passes the tokens-per-minute of the model,
    or 15000. *)
Definition chunkTextForProcessing (text : jsstring) (maxTokens : Z)
    : list jsstring :=
  let maxChars := maxTokens in
  if Z.of_nat (length text) <=? maxChars then [text]
  else
    let '(chunks, currentChunk) :=
      fold_left (chunk_step maxChars) (split_nl text) ([], []) in
    if truthy (trim currentChunk) then chunks ++ [trim currentChunk]
    else chunks.

End Chunking.

Import Chunking.

(** ** The section-content extractor ([api.continue]) *)

Module Extract.

(** A descriptor of the outline (the [Section] interface of the routes). *)
Record Section := {
  title : jsstring;
  start_page : Z;
  end_page : Z;
  start_text : option jsstring;
  end_text : option jsstring
}.

Definition is_digit (c : code_unit) : bool := ((48 <=? c) && (c <=? 57))%N.

(** The longest prefix of digits, and what follows it. *)
Fixpoint span_digits (s : jsstring) : jsstring * jsstring :=
  match s with
  | c :: s' =>
      if is_digit c then let '(ds, r) := span_digits s' in (c :: ds, r)
      else ([], s)
  | [] => ([], [])
  end.

(** The regular expression [/=== PAGE (\d+) ===/] tried at the start of
    [s]: the captured digits.  [\d+] is greedy, and giving back digits
    never helps, since a digit is not a space. *)
Definition marker_at (s : jsstring) : option jsstring :=
  if startsWith s (js "=== PAGE ") then
    let '(ds, r) := span_digits (drop 9 s) in
    if truthy ds && startsWith r (js " ===") then Some ds else None
  else None.

(** [line.match(/=== PAGE (\d+) ===/)]: capture group 1 of the leftmost
    match, [None] when the line has no match. *)
Fixpoint pageMatch (line : jsstring) : option jsstring :=
  match marker_at line with
  | Some ds => Some ds
  | None => match line with
            | [] => None
            | _ :: line' => pageMatch line'
            end
  end.

(** The integer that a string of decimal digits writes. *)
Definition digits_value (ds : jsstring) : Z :=
  fold_left (fun acc c => 10 * acc + (Z.of_N c - 48)) ds 0.

(** The Number nearest to the integer [n >= 0].  Up to 2^53 it is [n];
    above, it has a significand of 53 bits, the nearest one, the even
    one of two that are as near; from 2^1024 - 2^970 on it is
    [Infinity], for which 2^1024 stands (it is above every other
    Number, and equal to itself). *)
Definition to_number (n : Z) : Z :=
  if n <=? 9007199254740992 then n
  else
    let e := Z.log2 n - 52 in
    let q := n / 2 ^ e in
    let r := n mod 2 ^ e in
    let half := 2 ^ (e - 1) in
    let q := if (half <? r) || ((r =? half) && Z.odd q) then q + 1 else q in
    Z.min (q * 2 ^ e) (2 ^ 1024).

(** [parseInt] on a string of decimal digits: the Number nearest to
    the integer it writes, as V8 computes it (the standard lets a host
    ignore the digits after the 20th significant one). *)
Definition parseInt_digits (ds : jsstring) : Z := to_number (digits_value ds).

(** The page that a marker line announces. *)
Definition marker_page (line : jsstring) : option Z :=
  parseInt_digits <$> pageMatch line.

(** The lines of a text that are not page markers, each with the page
    it is on; [currentPage] is the page of the first line. *)
Fixpoint paged (lines : list jsstring) (currentPage : Z)
    : list (Z * jsstring) :=
  match lines with
  | [] => []
  | line :: rest =>
      match pageMatch line with
      | Some ds => paged rest (parseInt_digits ds)
      | None => (currentPage, line) :: paged rest currentPage
      end
  end.

Section WithLowerCase.

(** [String.prototype.toLowerCase] of the host. *)
Variable toLowerCase : jsstring -> jsstring.

(** The line contains the descriptor's [title] or its [start_text],
    case-insensitively; an absent or empty [start_text] is falsy. *)
Definition anchor_match (section : Section) (line : jsstring) : bool :=
  includes (toLowerCase line) (toLowerCase (title section))
  || match start_text section with
     | Some st => truthy st && includes (toLowerCase line) (toLowerCase st)
     | None => false
     end.

(** [nextSection && (the line contains its title or start_text)] *)
Definition next_match (nextSection : option Section) (line : jsstring)
    : bool :=
  match nextSection with
  | Some next => anchor_match next line
  | None => false
  end.

(** The first loop of [extractSectionContent], from a given line on. *)
Fixpoint anchor_pass (section : Section) (nextSection : option Section)
    (lines : list jsstring) (capturing : bool) (currentPage : Z)
    (sectionContent : jsstring) : jsstring :=
  match lines with
  | [] => sectionContent
  | line :: rest =>
      match pageMatch line with
      | Some ds =>
          anchor_pass section nextSection rest capturing (parseInt_digits ds)
            sectionContent
      | None =>
          let capturing :=
            if (currentPage >=? start_page section) && negb capturing
            then (if anchor_match section line then true else capturing)
            else capturing in
          if capturing then
            if currentPage >? end_page section then sectionContent
            else if next_match nextSection line then sectionContent
            else anchor_pass section nextSection rest capturing currentPage
                   (sectionContent ++ line ++ [nl])
          else anchor_pass section nextSection rest capturing currentPage
                 sectionContent
      end
  end.

(** The second loop: page numbers only. *)
Fixpoint page_pass (section : Section) (lines : list jsstring)
    (capturing : bool) (currentPage : Z) (sectionContent : jsstring)
    : jsstring :=
  match lines with
  | [] => sectionContent
  | line :: rest =>
      match pageMatch line with
      | Some ds =>
          page_pass section rest capturing (parseInt_digits ds) sectionContent
      | None =>
          let capturing :=
            if (currentPage >=? start_page section) && negb capturing
            then true else capturing in
          if capturing then
            if currentPage >? end_page section then sectionContent
            else page_pass section rest capturing currentPage
                   (sectionContent ++ line ++ [nl])
          else page_pass section rest capturing currentPage sectionContent
      end
  end.

(** [extractSectionContent(documentText, section, nextSection)] *)
Definition extractSectionContent (documentText : jsstring)
    (section : Section) (nextSection : option Section) : jsstring :=
  let lines := split_nl documentText in
  let sectionContent := anchor_pass section nextSection lines false 1 [] in
  let sectionContent :=
    if (length (trim sectionContent) =? 0)%nat
    then page_pass section lines false 1 []
    else sectionContent in
  trim sectionContent.

(** The two loops read as functions of the paged lines: skip the
    lines before the first one that starts the section, then keep
    lines as long as they stay in it. *)
Definition starts_section (section : Section) (pl : Z * jsstring) : bool :=
  (fst pl >=? start_page section) && anchor_match section (snd pl).

Definition stays_in_section (section : Section) (nextSection : option Section)
    (pl : Z * jsstring) : bool :=
  negb (fst pl >? end_page section) && negb (next_match nextSection (snd pl)).

Definition anchor_lines (section : Section) (nextSection : option Section)
    (capturing : bool) (pls : list (Z * jsstring)) : list jsstring :=
  snd <$> take_while (stays_in_section section nextSection)
            (if capturing then pls
             else drop_while (fun pl => negb (starts_section section pl)) pls).

Definition page_lines (section : Section) (capturing : bool)
    (pls : list (Z * jsstring)) : list jsstring :=
  snd <$> take_while (fun pl => negb (fst pl >? end_page section))
            (if capturing then pls
             else drop_while (fun pl => negb (fst pl >=? start_page section))
                    pls).

(** The lines that come before a line matching the next section. *)
Definition until_next (nextSection : option Section) (ls : list jsstring)
    : list jsstring :=
  take_while (fun l => negb (next_match nextSection l)) ls.

End WithLowerCase.

Definition in_pages (first last : Z) (pl : Z * jsstring) : bool :=
  (first <=? fst pl) && (fst pl <=? last).

(** In the words of the specification: the full text of pages [first]
    to [last] inclusive, every line of these pages with its line feed. *)
Definition pages_text (first last : Z) (documentText : jsstring) : jsstring :=
  unlines
    (snd <$> List.filter (in_pages first last)
               (paged (split_nl documentText) 1)).

(** The pages of the text come in non-decreasing order. *)
Definition pages_in_order (documentText : jsstring) : bool :=
  non_decreasing (fst <$> paged (split_nl documentText) 1).

(** A lower-casing that acts on each code unit separately. *)
Definition lower_ascii (c : code_unit) : code_unit :=
  if ((65 <=? c) && (c <=? 90))%N then (c + 32)%N else c.

End Extract.

Import Extract.

(** ** The host and the external services *)

Module Host.

(** A parsed JSON text.  Numbers are only tested for truthiness. *)
#[warnings="-register-all"]
Inductive JSON :=
  | JNull
  | JBool (b : bool)
  | JNumber (n : Z)
  | JString (s : jsstring)
  | JArray (elems : list JSON)
  | JObject (props : list (jsstring * JSON)).

(** [v[k]] on a non-null value: [None] is [undefined]. *)
Definition get_prop (k : jsstring) (v : JSON) : option JSON :=
  match v with
  | JObject props =>
      snd <$> List.find (fun kv => bool_decide (fst kv = k)) props
  | _ => None
  end.

Definition json_truthy (v : JSON) : bool :=
  match v with
  | JNull => false
  | JBool b => b
  | JNumber n => negb (n =? 0)
  | JString s => truthy s
  | JArray _ | JObject _ => true
  end.

(** What a [throw] carries: [undefined], [null], or a value with the
    properties the routes read from it (a primitive has none of them).
    [is_Error] is [error instanceof Error]. *)
Record ErrorObj := {
  is_Error : bool;
  message : jsstring;
  errorText : option jsstring;
  responseText : option jsstring
}.

Inductive Thrown :=
  | Undefined
  | Null
  | Value (e : ErrorObj).

(** [new Error(msg)] *)
Definition new_Error (msg : jsstring) : ErrorObj :=
  {| is_Error := true; message := msg; errorText := None;
     responseText := None |}.

(** The [GenerateContentResponse] interface of the AI client. *)
Record Part := { text : option jsstring }.
Record Content := { parts : option (list Part) }.
Record Candidate := {
  content : option Content;
  finishReason : option jsstring
}.
Record GenerateContentResponse := { candidates : option (list Candidate) }.

(** An entry of [data.models] in the answer of the model listing. *)
Record RawModel := {
  raw_name : jsstring;
  raw_supportedGenerationMethods : option (list jsstring);
  raw_tokensPerMinute : option Z
}.

(** What [fetch] resolves to.  [res_json] is [None] when [json()]
    rejects. *)
Record Response (B : Type) := {
  res_ok : bool;
  res_status : Z;
  res_statusText : jsstring;
  res_text : jsstring;
  res_json : option B
}.
Arguments res_ok {B}.
Arguments res_status {B}.
Arguments res_statusText {B}.
Arguments res_text {B}.
Arguments res_json {B}.

Inductive FetchResult (B : Type) :=
  | Rejected (e : Thrown)
  | Resolved (r : Response B).
Arguments Rejected {B}.
Arguments Resolved {B}.

(** The built-ins of the host that are not modelled, and the external
    services, which answer the n-th request as they like. *)
Class Env := {
  toLowerCase : jsstring -> jsstring;
  JSON_parse : jsstring -> option JSON;
  (** [JSON.parse(s) as Section[]] *)
  JSON_parse_sections : jsstring -> option (list Section);
  (** [parseInt(s)], [None] for [NaN] *)
  parseInt : jsstring -> option Z;
  syntax_error : ErrorObj;
  fetch_generateContent : nat -> FetchResult GenerateContentResponse;
  fetch_models : FetchResult (option (list RawModel))
}.

End Host.

Import Host.

(** ** The durable record store and the effects of a route *)

Module Store.

Inductive Status :=
  | processing
  | completed
  | failed
  | awaiting_outline_approval
  | awaiting_summary_approval.

Global Instance Status_eq_dec : EqDecision Status.
Proof. solve_decision. Defined.

Record ProcessingData := {
  pd_documentId : Z;
  pd_selectedModel : jsstring;
  pd_fileName : jsstring
}.

(** A row of the [documents] table.  [tableOfContents] and
    [processingData] hold JSON texts in the database; the model keeps
    the values they encode. *)
Record Document := {
  originalName : jsstring;
  fileSize : Z;
  status : Status;
  currentStep : option jsstring;
  progress : option Z;
  statusMessage : option jsstring;
  tableOfContents : option (list Section);
  tocGeneratedAt : option Z;
  outlineApprovedAt : option Z;
  processingData : option ProcessingData;
  completedAt : option Z;
  errorMessage : option jsstring;
  pdfTitle : option jsstring;
  pdfAuthor : option jsstring
}.

(** One property of the object given to [.set]. *)
Inductive Field :=
  | SetStatus (s : Status)
  | SetCurrentStep (s : jsstring)
  | SetProgress (p : Z)
  | SetStatusMessage (m : jsstring)
  | SetTableOfContents (toc : list Section)
  | SetTocGeneratedAt (t : Z)
  | SetOutlineApprovedAt (t : Z)
  | SetProcessingData (d : ProcessingData)
  | SetCompletedAt (t : Z)
  | SetErrorMessage (m : jsstring)
  | SetPdfTitle (s : jsstring)
  | SetPdfAuthor (s : jsstring).

Definition set_field (d : Document) (f : Field) : Document :=
  let '{| originalName := a; fileSize := b; status := c; currentStep := e;
          progress := g; statusMessage := h; tableOfContents := i;
          tocGeneratedAt := j; outlineApprovedAt := k; processingData := l;
          completedAt := m; errorMessage := n; pdfTitle := o;
          pdfAuthor := p |} := d in
  match f with
  | SetStatus x => Build_Document a b x e g h i j k l m n o p
  | SetCurrentStep x => Build_Document a b c (Some x) g h i j k l m n o p
  | SetProgress x => Build_Document a b c e (Some x) h i j k l m n o p
  | SetStatusMessage x => Build_Document a b c e g (Some x) i j k l m n o p
  | SetTableOfContents x => Build_Document a b c e g h (Some x) j k l m n o p
  | SetTocGeneratedAt x => Build_Document a b c e g h i (Some x) k l m n o p
  | SetOutlineApprovedAt x => Build_Document a b c e g h i j (Some x) l m n o p
  | SetProcessingData x => Build_Document a b c e g h i j k (Some x) m n o p
  | SetCompletedAt x => Build_Document a b c e g h i j k l (Some x) n o p
  | SetErrorMessage x => Build_Document a b c e g h i j k l m (Some x) o p
  | SetPdfTitle x => Build_Document a b c e g h i j k l m n (Some x) p
  | SetPdfAuthor x => Build_Document a b c e g h i j k l m n o (Some x)
  end.

(** A row of the [sections] table, without its generated key. *)
Record SectionRow := {
  documentId : Z;
  row_title : jsstring;
  summary : jsstring;
  startPage : Z;
  endPage : Z;
  sectionNumber : Z;
  pdfPath : option jsstring
}.

(** What an observer of the route sees, in order. *)
Inductive Event :=
  | Updated (id : Z) (fields : list Field)
  | Inserted (row : SectionRow)
  | Delayed (ms : Z)
  | Fetched (n : nat).

Record World := {
  documents : gmap Z Document;
  sections : list SectionRow;
  trace : list Event;
  now : Z;
  requests : nat
}.

Inductive Outcome (A : Type) :=
  | Returned (a : A)
  | Threw (t : Thrown).
Arguments Returned {A}.
Arguments Threw {A}.

(** An [async] computation: it ends by returning or throwing, and
    leaves a world behind. *)
Definition M (A : Type) : Type := World -> Outcome A * World.

Definition ret {A} (a : A) : M A := fun w => (Returned a, w).

Definition bind {A B} (m : M A) (k : A -> M B) : M B :=
  fun w => match m w with
           | (Returned a, w') => k a w'
           | (Threw t, w') => (Threw t, w')
           end.

Definition throw {A} (t : Thrown) : M A := fun w => (Threw t, w).

(** [try { body } catch (error) { handler }] *)
Definition try_catch {A} (body : M A) (handler : Thrown -> M A) : M A :=
  fun w => match body w with
           | (Returned a, w') => (Returned a, w')
           | (Threw t, w') => handler t w'
           end.

Global Instance M_ret : MRet M := @ret.
Global Instance M_bind : MBind M := fun A B k m => bind m k.

(** [new Date()] *)
Definition new_Date : M Z := fun w => (Returned (now w), w).

(** [db.update(documents).set(fields).where(eq(documents.id, id))] *)
Definition db_update (id : Z) (fields : list Field) : M unit :=
  fun w => (Returned tt,
            {| documents := alter (fun d => fold_left set_field fields d) id
                              (documents w);
               sections := sections w;
               trace := trace w ++ [Updated id fields]; now := now w;
               requests := requests w |}).

(** [db.insert(sections).values(row)] *)
Definition db_insert_section (row : SectionRow) : M unit :=
  fun w => (Returned tt,
            {| documents := documents w; sections := sections w ++ [row];
               trace := trace w ++ [Inserted row]; now := now w;
               requests := requests w |}).

(** [db.query.documents.findFirst] by id *)
Definition db_find_document (id : Z) : M (option Document) :=
  fun w => (Returned (documents w !! id), w).

(** [delay(ms)] *)
Definition delay (ms : Z) : M unit :=
  fun w => (Returned tt,
            {| documents := documents w; sections := sections w;
               trace := trace w ++ [Delayed ms]; now := now w + Z.max 0 ms;
               requests := requests w |}).

(** A [fetch] of the generation endpoint: the service answers its n-th
    request. *)
Definition fetch `{Env} : M (Response GenerateContentResponse) :=
  fun w =>
    let w' := {| documents := documents w; sections := sections w;
                 trace := trace w ++ [Fetched (requests w)]; now := now w;
                 requests := S (requests w) |} in
    match fetch_generateContent (requests w) with
    | Rejected e => (Threw e, w')
    | Resolved r => (Returned r, w')
    end.

(** [updateDocumentStatus(db, documentId, stepName, message, progress)] *)
Definition updateDocumentStatus (documentId : Z) (stepName message : jsstring)
    (progress : option Z) : M unit :=
  db_update documentId
    ([SetCurrentStep stepName; SetStatusMessage message]
     ++ match progress with Some p => [SetProgress p] | None => [] end).

(** A computation respects the relation [R] between the world before
    it and the world after it. *)
Definition frames (R : World -> World -> Prop) {A} (m : M A) : Prop :=
  forall w, R w (snd (m w)).

(** A number inside a template literal. *)
Definition show (n : Z) : jsstring := js (pretty n).

End Store.

Import Store.

(** ** The retry/backoff controller (both routes carry the same copy) *)

Module Retry.

Section WithEnv.
Context `{Env}.

(** [s.replace("s", empty)]: the first occurrence of the letter s is
    removed. *)
Fixpoint replace_first_s (s : jsstring) : jsstring :=
  match s with
  | [] => []
  | c :: s' => if (c =? 115)%N then s' else c :: replace_first_s s'
  end.

Definition RetryInfo_type : jsstring :=
  js "type.googleapis.com/google.rpc.RetryInfo".

(** [details.find(detail => detail["@type"] === RetryInfo_type)].  The
    outer [None] is a [TypeError] (a [null] element); the inner one is
    [undefined]. *)
Fixpoint find_retry_info (details : list JSON) : option (option JSON) :=
  match details with
  | [] => Some None
  | detail :: rest =>
      match detail with
      | JNull => None
      | _ =>
          match get_prop (js "@type") detail with
          | Some (JString t) =>
              if bool_decide (t = RetryInfo_type) then Some (Some detail)
              else find_retry_info rest
          | _ => find_retry_info rest
          end
      end
  end.

(** [errorData.error?.details?.find(...)], with the same convention. *)
Definition retry_info_of (errorData : JSON) : option (option JSON) :=
  match errorData with
  | JNull => None
  | _ =>
      match get_prop (js "error") errorData with
      | None | Some JNull => Some None
      | Some error =>
          match get_prop (js "details") error with
          | None | Some JNull => Some None
          | Some (JArray details) => find_retry_info details
          | Some _ => None
          end
      end
  end.

(** [parseRetryDelay(errorText)], in milliseconds; [None] is [NaN].
    Whatever throws inside the [try] block is caught and gives 0. *)
Definition parseRetryDelay (errorText : jsstring) : option Z :=
  match JSON_parse errorText with
  | None => Some 0
  | Some errorData =>
      match retry_info_of errorData with
      | None | Some None => Some 0
      | Some (Some retryInfo) =>
          match get_prop (js "retryDelay") retryInfo with
          | Some delay =>
              if json_truthy delay then
                match delay with
                | JString delayString =>
                    seconds ← parseInt (replace_first_s delayString);
                    Some (seconds * 1000)
                | _ => Some 0
                end
              else Some 0
          | None => Some 0
          end
      end
  end.

(** [error instanceof Error && error.message.includes("Too Many Requests")] *)
Definition is_rate_limit (error : ErrorObj) : bool :=
  is_Error error && includes (message error) (js "Too Many Requests").

(** [error.errorText || error.responseText || EMPTY], the first truthy
    one of the three, [EMPTY] being the empty string. *)
Definition error_text_of (error : ErrorObj) : jsstring :=
  match errorText error with
  | Some (c :: s) => c :: s
  | _ => match responseText error with
         | Some (c :: s) => c :: s
         | _ => []
         end
  end.

(** The wait before attempt number [attempt] > 0. *)
Definition delay_for (baseDelay : Z) (attempt : Z) (lastErrorText : jsstring)
    : Z :=
  let apiRetryDelay := parseRetryDelay lastErrorText in
  match apiRetryDelay with
  | Some d => if d >? 0 then d else baseDelay * 2 ^ (attempt - 1)
  | None => baseDelay * 2 ^ (attempt - 1)
  end.

(** [Math.round(x / 1000)] *)
Definition round_seconds (delayMs : Z) : Z := (delayMs + 500) / 1000.

Definition wait_message (delayMs : Z) : jsstring :=
  js "Rate limit reached. Waiting " ++ show (round_seconds delayMs)
  ++ js " seconds before retrying...".

(** The status update guarded by [db && documentId && stepName]. *)
Definition report_wait (db : bool) (documentId : option Z)
    (stepName : option jsstring) (delayMs : Z) : M unit :=
  match db, documentId, stepName with
  | true, Some id, Some step =>
      if negb (id =? 0) && truthy step
      then updateDocumentStatus id step (wait_message delayMs) None
      else mret tt
  | _, _, _ => mret tt
  end.

Definition type_error_undefined : ErrorObj :=
  new_Error (js "Cannot read properties of undefined (reading 'errorText')").

Definition type_error_null : ErrorObj :=
  new_Error (js "Cannot read properties of null (reading 'errorText')").

(** The [if (attempt > 0)] block at the head of the [try]: report the
    wait, then wait. *)
Definition wait_before (baseDelay : Z) (db : bool) (documentId : option Z)
    (stepName : option jsstring) (attempt : Z) (lastErrorText : jsstring)
    : M unit :=
  if attempt >? 0 then
    let delayMs := delay_for baseDelay attempt lastErrorText in
    report_wait db documentId stepName delayMs;;
    delay delayMs
  else mret tt.

(** The [for (let attempt = 0; attempt <= maxRetries; attempt++)] loop
    from [attempt] on; [iterations] counts the values of [attempt] that
    are left below or at [maxRetries]. *)
Fixpoint retry_loop {T} (fn : M T) (maxRetries baseDelay : Z) (db : bool)
    (documentId : option Z) (stepName : option jsstring)
    (iterations : nat) (attempt : Z) (lastError : Thrown)
    (lastErrorText : jsstring) : M T :=
  match iterations with
  | O => throw lastError
  | S iterations' =>
      try_catch
        (wait_before baseDelay db documentId stepName attempt lastErrorText;;
         fn)
        (fun error =>
           match error with
           | Undefined => throw (Value type_error_undefined)
           | Null => throw (Value type_error_null)
           | Value e =>
               if attempt =? maxRetries then throw error
               else if is_rate_limit e then
                 retry_loop fn maxRetries baseDelay db documentId stepName
                   iterations' (attempt + 1) error (error_text_of e)
               else throw error
           end)
  end.

(** [retryWithBackoff(fn, maxRetries, baseDelay, db, documentId, stepName)] *)
Definition retryWithBackoff {T} (fn : M T) (maxRetries baseDelay : Z)
    (db : bool) (documentId : option Z) (stepName : option jsstring) : M T :=
  retry_loop fn maxRetries baseDelay db documentId stepName
    (Z.to_nat (maxRetries + 1)) 0 Undefined [].

End WithEnv.

(** A function whose n-th call ends as the script says, whatever else
    happened in between. *)
Definition scripted {T} (script : nat -> Outcome T) : M T :=
  fun w =>
    (script (requests w),
     {| documents := documents w; sections := sections w;
        trace := trace w ++ [Fetched (requests w)]; now := now w;
        requests := S (requests w) |}).

Definition is_update (e : Event) : bool :=
  match e with Updated _ _ => true | _ => false end.
Definition is_delay (e : Event) : bool :=
  match e with Delayed _ => true | _ => false end.

Definition count (p : Event -> bool) (tr : list Event) : nat :=
  length (List.filter p tr).

End Retry.

Import Retry.

(** ** The routes *)

Module Route.

(** What a route answers: [Response.json(payload, { status })]. *)
Inductive Payload :=
  | ErrorReply (error : jsstring) (details : option jsstring)
  | ContinueDone (sections : Z)
  | ProcessPaused (data : ProcessingData).

Record Reply := { code : Z; payload : Payload }.

Definition json_error (error : jsstring) (status : Z) : Reply :=
  {| code := status; payload := ErrorReply error None |}.

(** [Math.round(num / den)] for a positive [den], in exact arithmetic. *)
Definition round_ratio (num den : Z) : Z := (2 * num + den) / (2 * den).

(** [processingError instanceof Error ? processingError.message : fallback] *)
Definition message_or (fallback : jsstring) (t : Thrown) : jsstring :=
  match t with
  | Value e => if is_Error e then message e else fallback
  | Undefined | Null => fallback
  end.

(** The [catch (processingError)] block shared by the two routes. *)
Definition mark_failed (documentId : Z) (processingError : Thrown) : M Reply :=
  db_update documentId
    [SetStatus failed;
     SetErrorMessage (message_or (js "Unknown processing error")
                        processingError)];;
  mret {| code := 500;
          payload := ErrorReply (js "Processing failed")
                       (Some (message_or (js "Unknown error")
                                processingError)) |}.

End Route.

Import Route.

(** ** The continuation stage ([api.continue]) *)

Module Continue.

Record Body := {
  body_documentId : Z;
  selectedModel : jsstring;
  fileData : jsstring;
  fileName : jsstring;
  documentText : jsstring;
  updatedTableOfContents : option (list Section)
}.

(** The request: the [apiKey] query parameter and what
    [request.json()] gives.  An absent property of the body is the
    falsy value of its type. *)
Record Request := {
  apiKey : option jsstring;
  json : Outcome Body
}.

Section WithEnv.
Context `{Env}.

(** [result.candidates?.[0]?.content?.parts?.[0]?.text] *)
Definition first_text (result : GenerateContentResponse) : option jsstring :=
  cs ← candidates result; c ← head cs; ct ← content c;
  ps ← parts ct; p ← head ps; text p.

(** The function retried by [createSectionSummary].  The prompt and the
    request body shape what the service sees, not what the route does
    with the answer. *)
Definition request_summary : M jsstring :=
  response ← fetch;
  if negb (res_ok response) then
    throw (Value {| is_Error := true;
                    message := js "Gemini API error: "
                               ++ res_statusText response;
                    errorText := Some (res_text response);
                    responseText := None |})
  else
    match res_json response with
    | None => throw (Value syntax_error)
    | Some result =>
        match first_text result with
        | Some (c :: s) => mret (trim (c :: s))
        | _ => throw (Value (new_Error (js "No summary returned from Gemini")))
        end
    end.

(** [createSectionSummary(sectionTitle, sectionContent, apiKey,
    selectedModel, db, documentId)] *)
Definition createSectionSummary (sectionTitle sectionContent : jsstring)
    (apiKey selectedModel : jsstring) (documentId : Z) : M jsstring :=
  retryWithBackoff request_summary 3 1000 true (Some documentId)
    (Some (js "generating_summaries")).

(** The body of [for (let i = 0; i < sections.length; i++)], from index
    [i] on: [rest] is [sections.slice(i)] and [total] is
    [sections.length]. *)
Fixpoint summarize_from (documentText apiKey selectedModel : jsstring)
    (documentId total i : Z) (rest validSections : list Section)
    : M (list Section) :=
  match rest with
  | [] => mret validSections
  | section :: rest' =>
      let nextSection := head rest' in
      updateDocumentStatus documentId (js "generating_summaries")
        (js "Processing section " ++ show (i + 1) ++ js "/" ++ show total
         ++ js ": " ++ title section)
        (Some (round_ratio (75 * total + i * 25) total));;
      (if i >? 0 then delay 2000 else mret tt);;
      let sectionContent :=
        extractSectionContent toLowerCase documentText section nextSection in
      updateDocumentStatus documentId (js "generating_summaries")
        (js "Analyzing section " ++ show (i + 1) ++ js "/" ++ show total
         ++ js ": " ++ title section ++ js " with AI...")
        (Some (round_ratio (75 * total + i * 25) total));;
      summary ← createSectionSummary (title section) sectionContent apiKey
                  selectedModel documentId;
      updateDocumentStatus documentId (js "generating_pdfs")
        (js "Generating PDF for section: " ++ title section ++ js " ("
         ++ show (i + 1) ++ js "/" ++ show total ++ js ")")
        (Some (round_ratio (75 * total + (i + 1) * 20) total));;
      db_insert_section
        {| documentId := documentId; row_title := title section;
           summary := summary; startPage := start_page section;
           endPage := end_page section; sectionNumber := i + 1;
           pdfPath := None |};;
      let validSections := validSections ++ [section] in
      updateDocumentStatus documentId (js "generating_summaries")
        (js "Completed section " ++ show (i + 1) ++ js "/" ++ show total
         ++ js ": " ++ title section ++ js " (summary generated)")
        (Some (round_ratio (75 * total + (i + 1) * 25) total));;
      summarize_from documentText apiKey selectedModel documentId total
        (i + 1) rest' validSections
  end.

(** [updatedTableOfContents || JSON.parse(document.tableOfContents || "[]")] *)
Definition sections_of (body : Body) (document : Document) : list Section :=
  match updatedTableOfContents body with
  | Some toc => toc
  | None => default [] (tableOfContents document)
  end.

(** The inner [try] block. *)
Definition resume (apiKey : jsstring) (body : Body) : M Reply :=
  let documentId := body_documentId body in
  document ← db_find_document documentId;
  match document with
  | None => mret (json_error (js "Document not found") 404)
  | Some document =>
      if negb (bool_decide (status document = awaiting_outline_approval))
      then mret (json_error (js "Document not awaiting approval") 400)
      else
        approvedAt ← new_Date;
        db_update documentId
          [SetStatus processing; SetOutlineApprovedAt approvedAt];;
        let sections := sections_of body document in
        let total := Z.of_nat (length sections) in
        updateDocumentStatus documentId (js "generating_summaries")
          (js "Generating detailed summaries for each section... Processing sections one by one with AI.")
          (Some 75);;
        validSections ← summarize_from (documentText body) apiKey
                          (selectedModel body) documentId total 0 sections [];
        let valid := Z.of_nat (length validSections) in
        updateDocumentStatus documentId (js "generating_summaries")
          (js "All section summaries generated. Successfully processed "
           ++ show valid ++ js " sections.")
          (Some 95);;
        updateDocumentStatus documentId (js "finalizing")
          (js "Finalizing document processing... Updating final status and completion timestamp.")
          (Some 98);;
        completedAt ← new_Date;
        db_update documentId
          [SetStatus completed; SetCurrentStep (js "completed");
           SetProgress 100;
           SetStatusMessage
             (js "Processing completed successfully! Generated "
              ++ show valid ++ js " section summaries.");
           SetCompletedAt completedAt];;
        mret {| code := 200; payload := ContinueDone valid |}
  end.

(** [action({ request, context })] of [api.continue] *)
Definition action (request : Request) : M Reply :=
  try_catch
    (match apiKey request with
     | None | Some [] => mret (json_error (js "API key is required") 400)
     | Some apiKey =>
         match json request with
         | Threw e => throw e
         | Returned body =>
             if (body_documentId body =? 0) || negb (truthy (selectedModel body))
                || negb (truthy (fileData body))
                || negb (truthy (documentText body))
             then mret (json_error (js "Missing required parameters") 400)
             else
               try_catch (resume apiKey body)
                 (mark_failed (body_documentId body))
         end
     end)
    (fun error =>
       mret (json_error (message_or (js "Internal server error") error) 500)).

End WithEnv.

End Continue.

(** ** The structure-analysis stage ([api.process]) *)

Module Process.

Record Body := {
  body_documentId : Z;
  selectedModel : jsstring;
  fileData : jsstring;
  fileName : jsstring;
  documentText : jsstring;
  customTableOfContents : option (list Section);
  body_pdfTitle : option jsstring;
  body_pdfAuthor : option jsstring
}.

Record Request := {
  apiKey : option jsstring;
  json : Outcome Body
}.

Inductive ModelType := gemini | gemma.

(** [getModelType(modelName)] *)
Definition getModelType (modelName : jsstring) : option ModelType :=
  if startsWith modelName (js "models/gemini-") then Some gemini
  else if startsWith modelName (js "models/gemma-") then Some gemma
  else None.

(** [modelType.toUpperCase()] *)
Definition upper_name (t : ModelType) : jsstring :=
  match t with gemini => js "GEMINI" | gemma => js "GEMMA" end.

(** The [tpm] column of [modelRateLimits]. *)
Definition modelRateLimits : list (jsstring * Z) :=
  [(js "models/gemini-2.5-pro", 250000);
   (js "models/gemini-2.5-flash", 250000);
   (js "models/gemini-2.5-flash-lite-preview-06-17", 250000);
   (js "models/gemini-2.0-flash", 1000000);
   (js "models/gemini-2.0-flash-lite", 1000000);
   (js "models/gemma-3", 15000);
   (js "models/gemma-3n", 15000);
   (js "models/gemini-embedding", 30000);
   (js "models/gemini-1.5-flash", 250000);
   (js "models/gemini-1.5-flash-8b", 250000)].

(** The properties of [AIModel] that the route reads. *)
Record AIModel := {
  name : jsstring;
  tokensPerMinute : option Z
}.

Definition is_generation_model (model : RawModel) : bool :=
  match raw_supportedGenerationMethods model with
  | Some methods =>
      bool_decide (js "generateContent" ∈ methods)
      && bool_decide (is_Some (getModelType (raw_name model)))
  | None => false
  end.

Definition to_AIModel (model : RawModel) : AIModel :=
  {| name := raw_name model;
     tokensPerMinute :=
       match raw_tokensPerMinute model with
       | Some tpm => Some tpm
       | None =>
           snd <$> List.find (fun kv => bool_decide (fst kv = raw_name model))
                     modelRateLimits
       end |}.

(** [/```json\n|```/g] replaced by nothing; [skip] code units of a match
    are still to be dropped. *)
Fixpoint strip_fences (skip : nat) (s : jsstring) : jsstring :=
  match s with
  | [] => []
  | c :: s' =>
      match skip with
      | S k => strip_fences k s'
      | O =>
          if startsWith s (js "```json" ++ [nl]) then strip_fences 7 s'
          else if startsWith s (js "```") then strip_fences 2 s'
          else c :: strip_fences 0 s'
      end
  end.

(** The prefix of [s] that ends with its last [close], if there is one. *)
Fixpoint upto_last (close : code_unit) (s : jsstring) : option jsstring :=
  match s with
  | [] => None
  | c :: s' =>
      match upto_last close s' with
      | Some r => Some (c :: r)
      | None => if (c =? close)%N then Some [c] else None
      end
  end.

(** [s.match(/\[[\s\S]*\]/)]: from the first opening bracket to the last
    closing one after it. *)
Fixpoint match_json_array (s : jsstring) : option jsstring :=
  match s with
  | [] => None
  | c :: s' =>
      if (c =? 91)%N then (fun r => c :: r) <$> upto_last 93%N s'
      else match_json_array s'
  end.

Section WithEnv.
Context `{Env}.

(** [generateContent(modelName, apiKey, request)] of the AI client *)
Definition generateContent (modelName apiKey : jsstring)
    : M GenerateContentResponse :=
  match getModelType modelName with
  | None => throw (Value (new_Error (js "Unsupported model: " ++ modelName)))
  | Some modelType =>
      response ← fetch;
      if negb (res_ok response) then
        let fail msg :=
          throw (Value {| is_Error := true; message := msg;
                          errorText := Some (res_text response);
                          responseText := None |}) in
        if res_status response =? 404 then
          fail (js "Model " ++ modelName
                ++ js " not found. Please check if the model name is correct and you have access to it.")
        else if (res_status response =? 401) || (res_status response =? 403)
        then
          fail (js "Authentication error. Please check your API key and permissions for model "
                ++ modelName ++ js ".")
        else
          fail (upper_name modelType ++ js " API error: "
                ++ res_statusText response)
      else
        match res_json response with
        | None => throw (Value syntax_error)
        | Some result => mret result
        end
  end.

(** [fetchAvailableModels(apiKey)] *)
Definition fetchAvailableModels (apiKey : jsstring) : M (list AIModel) :=
  match fetch_models with
  | Rejected e => throw e
  | Resolved response =>
      if negb (res_ok response) then
        throw (Value (new_Error (js "Failed to fetch models: "
                                 ++ show (res_status response) ++ js " "
                                 ++ res_statusText response)))
      else
        match res_json response with
        | None => throw (Value syntax_error)
        | Some data =>
            mret (match data with
                  | Some models =>
                      to_AIModel <$> List.filter is_generation_model models
                  | None => []
                  end)
        end
  end.

Definition chunk_label (chunkNumber totalChunks : Z) : jsstring :=
  js "[Chunk " ++ show chunkNumber ++ js "/" ++ show totalChunks ++ js "] ".

(** The function retried by [analyzeDocumentStructure]. *)
Definition request_structure (apiKey selectedModel : jsstring)
    (documentId chunkNumber totalChunks : Z) : M (list Section) :=
  updateDocumentStatus documentId (js "analyzing_structure")
    (chunk_label chunkNumber totalChunks
     ++ js "Calling Gemini for structure analysis...") None;;
  result ← generateContent selectedModel apiKey;
  let analysisText := default [] (Continue.first_text result) in
  let finishReason := cs ← candidates result; c ← head cs; finishReason c in
  analysisText ←
    (if bool_decide (finishReason = Some (js "MAX_TOKENS")) then
       updateDocumentStatus documentId (js "analyzing_structure")
         (chunk_label chunkNumber totalChunks
          ++ js "Response truncated, continuing...") None;;
       continuationResult ← generateContent selectedModel apiKey;
       let continuedText :=
         default [] (Continue.first_text continuationResult) in
       mret (analysisText ++ continuedText)
     else mret analysisText);
  if negb (truthy analysisText) then
    throw (Value (new_Error (js "No analysis returned from Gemini")))
  else
    let cleanedText := trim (strip_fences 0 analysisText) in
    match match_json_array cleanedText with
    | None => throw (Value (new_Error (js "No valid JSON found in response")))
    | Some jsonMatch =>
        match JSON_parse_sections jsonMatch with
        | None => throw (Value syntax_error)
        | Some sections =>
            updateDocumentStatus documentId (js "analyzing_structure")
              (chunk_label chunkNumber totalChunks
               ++ js "Successfully parsed "
               ++ show (Z.of_nat (length sections)) ++ js " sections.") None;;
            mret sections
        end
    end.

(** [analyzeDocumentStructure(documentText, apiKey, selectedModel, db,
    documentId, chunkNumber, totalChunks)] *)
Definition analyzeDocumentStructure (documentText apiKey selectedModel
    : jsstring) (documentId chunkNumber totalChunks : Z) : M (list Section) :=
  retryWithBackoff
    (request_structure apiKey selectedModel documentId chunkNumber totalChunks)
    3 1000 true (Some documentId) (Some (js "analyzing_structure")).

(** The loop over [textChunks], from index [i] on. *)
Fixpoint analyze_from (apiKey selectedModel : jsstring)
    (documentId total i : Z) (rest : list jsstring)
    (allSections : list Section) : M (list Section) :=
  match rest with
  | [] => mret allSections
  | chunk :: rest' =>
      updateDocumentStatus documentId (js "analyzing_structure")
        (js "Analyzing chunk " ++ show (i + 1) ++ js "/" ++ show total
         ++ js "...") None;;
      chunkSections ← analyzeDocumentStructure chunk apiKey selectedModel
                        documentId (i + 1) total;
      analyze_from apiKey selectedModel documentId total (i + 1) rest'
        (allSections ++ chunkSections)
  end.

(** [updatePDFMetadata(db, documentId, pdfTitle, pdfAuthor)] *)
Definition updatePDFMetadata (documentId : Z)
    (pdfTitle pdfAuthor : option jsstring) : M unit :=
  let updateData :=
    match pdfTitle with Some (c :: s) => [SetPdfTitle (c :: s)] | _ => [] end
    ++ match pdfAuthor with
       | Some (c :: s) => [SetPdfAuthor (c :: s)]
       | _ => []
       end in
  match updateData with
  | [] => mret tt
  | _ => db_update documentId updateData
  end.

(** The inner [try] block. *)
Definition analyse (apiKey : jsstring) (body : Body) : M Reply :=
  let documentId := body_documentId body in
  let selectedModel := selectedModel body in
  let documentText := documentText body in
  updateDocumentStatus documentId (js "initializing")
    (js "Starting AI analysis... Text extraction completed on client side.")
    (Some 25);;
  (if truthy (default [] (body_pdfTitle body))
      || truthy (default [] (body_pdfAuthor body))
   then updatePDFMetadata documentId (body_pdfTitle body) (body_pdfAuthor body)
   else mret tt);;
  if negb (truthy documentText) then
    throw (Value (new_Error
      (js "Document text not provided from client-side extraction")))
  else
    updateDocumentStatus documentId (js "extracting_text")
      (js "Text extraction completed on client side. Extracted "
       ++ show (round_ratio (Z.of_nat (length documentText)) 1000)
       ++ js "k characters from PDF.")
      (Some 30);;
    updateDocumentStatus documentId (js "chunking_document")
      (js "Fetching model token limits and analyzing document size...")
      (Some 35);;
    modelInfo ←
      try_catch
        (availableModels ← fetchAvailableModels apiKey;
         mret (List.find (fun m => bool_decide (name m = selectedModel))
                 availableModels))
        (fun _ => mret None);
    let chunkTokenLimit := default 15000 (modelInfo ≫= tokensPerMinute) in
    let textChunks := chunkTextForProcessing documentText chunkTokenLimit in
    let total := Z.of_nat (length textChunks) in
    updateDocumentStatus documentId (js "chunking_document")
      (js "Document split into " ++ show total ++ js " chunks") None;;
    sections ←
      match customTableOfContents body with
      | Some sections =>
          updateDocumentStatus documentId (js "analyzing_structure")
            (js "Using custom table of contents with "
             ++ show (Z.of_nat (length sections)) ++ js " sections.") None;;
          mret sections
      | None =>
          updateDocumentStatus documentId (js "analyzing_structure")
            (js "Analyzing document structure with AI... Sending chunks to Gemini for table of contents generation.")
            (Some 45);;
          analyze_from apiKey selectedModel documentId total 0 textChunks []
      end;
    let found := show (Z.of_nat (length sections)) in
    updateDocumentStatus documentId (js "analyzing_structure")
      (js "Structure analysis complete. Total sections found: " ++ found)
      None;;
    updateDocumentStatus documentId (js "analyzing_structure")
      (js "Document structure analysis completed. Identified " ++ found
       ++ js " sections in the document.")
      (Some 60);;
    updateDocumentStatus documentId (js "generating_toc")
      (js "Generating table of contents... Saving section structure to database for immediate download.")
      (Some 65);;
    generatedAt ← new_Date;
    db_update documentId
      [SetTableOfContents sections; SetTocGeneratedAt generatedAt;
       SetProgress 65;
       SetStatusMessage
         (js "Table of contents generated! Available for download.")];;
    let processingDataForContinuation :=
      {| pd_documentId := documentId; pd_selectedModel := selectedModel;
         pd_fileName := fileName body |} in
    db_update documentId
      [SetStatus awaiting_outline_approval;
       SetCurrentStep (js "awaiting_outline_approval");
       SetProgress 65;
       SetStatusMessage
         (js "Outline generated! Please review and click " ++ [dquote]
          ++ js "Continue" ++ [dquote]
          ++ js " to proceed with summarization.");
       SetProcessingData processingDataForContinuation];;
    mret {| code := 200;
            payload := ProcessPaused processingDataForContinuation |}.

(** [action({ request, context })] of [api.process] *)
Definition action (request : Request) : M Reply :=
  try_catch
    (match apiKey request with
     | None | Some [] => mret (json_error (js "API key is required") 400)
     | Some apiKey =>
         match json request with
         | Threw e => throw e
         | Returned body =>
             if (body_documentId body =? 0) || negb (truthy (selectedModel body))
                || negb (truthy (fileData body))
             then mret (json_error (js "Missing required parameters") 400)
             else
               try_catch (analyse apiKey body)
                 (mark_failed (body_documentId body))
         end
     end)
    (fun _ => mret (json_error (js "Internal server error") 500)).

End WithEnv.

End Process.

(** ** Observations on a run, and a concrete run *)

Module Run.

(** The invariant of a section row, and of a descriptor. *)
Definition row_in_order (row : SectionRow) : Prop :=
  startPage row <= endPage row.

Definition pages_in_range_order (section : Section) : Prop :=
  start_page section <= end_page section.

(** The computation only appended rows to the [sections] table, and
    all of them satisfy [P]. *)
Definition appends_rows (P : SectionRow -> Prop) (w w' : World) : Prop :=
  exists rows, sections w' = sections w ++ rows /\ Forall P rows.

(** The values written to the [progress] column of document [id], in
    the order of the writes. *)
Fixpoint progress_of_fields (fields : list Field) : list Z :=
  match fields with
  | [] => []
  | SetProgress p :: fields' => p :: progress_of_fields fields'
  | _ :: fields' => progress_of_fields fields'
  end.

Definition progress_writes (id : Z) (tr : list Event) : list Z :=
  flat_map (fun e => match e with
                     | Updated id' fields =>
                         if bool_decide (id' = id)
                         then progress_of_fields fields else []
                     | _ => []
                     end) tr.

(** The computation wrote no progress value for document [id]. *)
Definition same_progress (id : Z) (w w' : World) : Prop :=
  progress_writes id (trace w') = progress_writes id (trace w).

(** The progress values that the summarization loop writes for the
    section of index [i] of [total], and for [n] sections from index
    [i] on. *)
Definition section_progress (total i : Z) : list Z :=
  [round_ratio (75 * total + i * 25) total;
   round_ratio (75 * total + i * 25) total;
   round_ratio (75 * total + (i + 1) * 20) total;
   round_ratio (75 * total + (i + 1) * 25) total].

Fixpoint loop_progress (total i : Z) (n : nat) : list Z :=
  match n with
  | O => []
  | S n' => section_progress total i ++ loop_progress total (i + 1) n'
  end.

(** A service that answers every generation request with [answer]. *)
Definition answering (answer : jsstring)
    : FetchResult GenerateContentResponse :=
  Resolved {| res_ok := true; res_status := 200; res_statusText := js "OK";
              res_text := [];
              res_json := Some {| candidates := Some
                [{| content := Some {| parts := Some
                      [{| text := Some answer |}] |};
                    finishReason := Some (js "STOP") |}] |} |}.

(** A host that lower-cases ASCII letters and reads every outline as
    [outline], and a service that answers its n-th request with
    [answer n] and has no model listing. *)
Definition simple_env (outline : list Section) (answer : nat -> jsstring)
    : Env :=
  {| toLowerCase := map lower_ascii;
     JSON_parse := fun _ => None;
     JSON_parse_sections := fun _ => Some outline;
     parseInt := fun _ => None;
     syntax_error := new_Error (js "Unexpected end of JSON input");
     fetch_generateContent := fun n => answering (answer n);
     fetch_models := Rejected (Value (new_Error (js "fetch failed"))) |}.

(** The row that the upload creates. *)
Definition uploaded (fileName : jsstring) : Document :=
  {| originalName := fileName; fileSize := 1024; status := processing;
     currentStep := Some (js "uploaded"); progress := Some 0;
     statusMessage := Some (js "File uploaded, preparing for processing...");
     tableOfContents := None; tocGeneratedAt := None;
     outlineApprovedAt := None; processingData := None; completedAt := None;
     errorMessage := None; pdfTitle := None; pdfAuthor := None |}.

(** The row as the process stage leaves it at the approval gate, and
    as a completed run leaves it. *)
Definition awaiting (fileName : jsstring) (toc : list Section) : Document :=
  fold_left set_field
    [SetStatus awaiting_outline_approval;
     SetCurrentStep (js "awaiting_outline_approval"); SetProgress 65;
     SetTableOfContents toc]
    (uploaded fileName).

Definition finished (fileName : jsstring) (toc : list Section) : Document :=
  fold_left set_field
    [SetStatus completed; SetCurrentStep (js "completed"); SetProgress 100]
    (awaiting fileName toc).

(** A descriptor whose pages run backwards. *)
Definition backwards : Section :=
  {| title := js "Chapter X"; start_page := 5; end_page := 2;
     start_text := None; end_text := None |}.

Definition world_with (id : Z) (d : Document) : World :=
  {| documents := {[ id := d ]}; sections := []; trace := []; now := 0;
     requests := 0 |}.

Definition process_request (text : jsstring) : Process.Request :=
  {| Process.apiKey := Some (js "key");
     Process.json := Returned
       {| Process.body_documentId := 1;
          Process.selectedModel := js "models/gemini-2.0-flash";
          Process.fileData := js "JVBERi0=";
          Process.fileName := js "paper.pdf";
          Process.documentText := text;
          Process.customTableOfContents := None;
          Process.body_pdfTitle := None;
          Process.body_pdfAuthor := None |} |}.

Definition continue_request (text : jsstring) (toc : option (list Section))
    : Continue.Request :=
  {| Continue.apiKey := Some (js "key");
     Continue.json := Returned
       {| Continue.body_documentId := 1;
          Continue.selectedModel := js "models/gemini-2.0-flash";
          Continue.fileData := js "JVBERi0=";
          Continue.fileName := js "paper.pdf";
          Continue.documentText := text;
          Continue.updatedTableOfContents := toc |} |}.

(** A text of five pages, and a section of pages 2 to 4 whose title is
    on page 2. *)
Definition doc5 : jsstring :=
  join_nl [js "cover"; js "=== PAGE 1 ==="; js "toc: X"; js "=== PAGE 2 ===";
           js "intro"; js "Chapter X"; js "body 2"; js "=== PAGE 3 ===";
           js "body 3"; js "=== PAGE 4 ==="; js "  body 4"; [];
           js "=== PAGE 5 ==="; js "body 5"].

Definition secX : Section :=
  {| title := js "X"; start_page := 2; end_page := 4;
     start_text := None; end_text := None |}.

(** A text of five pages whose page 2 holds a line with the letter x
    before the line that holds the title X. *)
Definition doc5_intro : jsstring :=
  join_nl [js "cover"; js "=== PAGE 1 ==="; js "contents";
           js "=== PAGE 2 ==="; js "intro text"; js "Chapter X"; js "body 2";
           js "=== PAGE 3 ==="; js "body 3"; js "=== PAGE 4 ===";
           js "  body 4"; []; js "=== PAGE 5 ==="; js "body 5"].

(** An error payload that suggests to retry after 7 seconds, and a
    host that parses every text as this payload. *)
Definition retry_info_payload : JSON :=
  JObject
    [(js "error",
      JObject
        [(js "code", JNumber 429);
         (js "details",
          JArray
            [JObject [(js "@type", JString (js "type.googleapis.com/google.rpc.Help"))];
             JObject [(js "@type", JString RetryInfo_type);
                      (js "retryDelay", JString (js "7s"))]])])].

Definition retry_info_env : Env :=
  {| toLowerCase := map lower_ascii;
     JSON_parse := fun _ => Some retry_info_payload;
     JSON_parse_sections := fun _ => None;
     parseInt := fun s => if bool_decide (s = js "7") then Some 7 else None;
     syntax_error := new_Error (js "Unexpected end of JSON input");
     fetch_generateContent := fun _ => Rejected Undefined;
     fetch_models := Rejected Undefined |}.

(** The text of an error response of the service that suggests to
    retry after [delay], the payload it parses to, and a host that
    parses the texts that suggest 7 and 3 seconds and no other text. *)
Definition quoted (s : jsstring) : jsstring := [dquote] ++ s ++ [dquote].

Definition retry_text (delay : jsstring) : jsstring :=
  js "{" ++ quoted (js "error") ++ js ":{" ++ quoted (js "details")
  ++ js ":[{" ++ quoted (js "@type") ++ js ":" ++ quoted RetryInfo_type
  ++ js "," ++ quoted (js "retryDelay") ++ js ":" ++ quoted delay
  ++ js "}]}}".

Definition retry_payload (delay : jsstring) : JSON :=
  JObject
    [(js "error",
      JObject
        [(js "details",
          JArray
            [JObject [(js "@type", JString RetryInfo_type);
                      (js "retryDelay", JString delay)]])])].

Definition retry_after_env : Env :=
  {| toLowerCase := map lower_ascii;
     JSON_parse := fun t =>
       if bool_decide (t = retry_text (js "7s"))
       then Some (retry_payload (js "7s"))
       else if bool_decide (t = retry_text (js "3s"))
            then Some (retry_payload (js "3s"))
            else None;
     JSON_parse_sections := fun _ => None;
     parseInt := fun s => if bool_decide (s = js "7") then Some 7
                          else if bool_decide (s = js "3") then Some 3
                          else None;
     syntax_error := new_Error (js "Unexpected end of JSON input");
     fetch_generateContent := fun _ => Rejected Undefined;
     fetch_models := Rejected Undefined |}.

(** The error of a refused request, with the text of the response in
    its [errorText] property. *)
Definition limited_error (text : jsstring) : ErrorObj :=
  {| is_Error := true;
     message := js "Gemini API error: Too Many Requests";
     errorText := Some text;
     responseText := None |}.

(** A function that hits the rate limit twice, told to wait 7 and then
    3 seconds, and then returns 7. *)
Definition limited_7_then_3 (n : nat) : Outcome Z :=
  match n with
  | O => Threw (Value (limited_error (retry_text (js "7s"))))
  | S O => Threw (Value (limited_error (retry_text (js "3s"))))
  | _ => Returned 7
  end.

(** Errors as the routes build them from the status text of a failed
    request. *)
Definition rate_limit_error : ErrorObj :=
  new_Error (js "Gemini API error: Too Many Requests").

Definition forbidden_error : ErrorObj :=
  new_Error (js "Gemini API error: Forbidden").

(** A function that hits the rate limit twice and then returns 7, and
    one that is always refused. *)
Definition twice_limited (n : nat) : Outcome Z :=
  match n with
  | O | S O => Threw (Value rate_limit_error)
  | _ => Returned 7
  end.

Definition always_forbidden (n : nat) : Outcome Z :=
  Threw (Value forbidden_error).

(** A service whose first answer is a fenced outline and whose later
    answers are summaries; the host reads the outline as [[secX]]. *)
Definition outline_then_summaries (n : nat) : jsstring :=
  match n with
  | O => js "```json" ++ [nl] ++ js "[{...}]" ++ [nl] ++ js "```"
  | _ => js "* a summary"
  end.

Definition one_section_env : Env := simple_env [secX] outline_then_summaries.

(** Two outlines, and a service that lists the model with a budget of
    80 characters for a chunk, answers its first request with the
    first outline and the others with the second one. *)
Definition secA : Section :=
  {| title := js "Introduction"; start_page := 1; end_page := 2;
     start_text := None; end_text := None |}.

Definition secB : Section :=
  {| title := js "Results"; start_page := 3; end_page := 5;
     start_text := None; end_text := None |}.

Definition two_outlines_env : Env :=
  {| toLowerCase := map lower_ascii;
     JSON_parse := fun _ => None;
     JSON_parse_sections := fun t =>
       if bool_decide (t = js "[{A}]") then Some [secA]
       else if bool_decide (t = js "[{B}]") then Some [secB]
       else None;
     parseInt := fun _ => None;
     syntax_error := new_Error (js "Unexpected end of JSON input");
     fetch_generateContent := fun n =>
       answering (match n with O => js "[{A}]" | _ => js "[{B}]" end);
     fetch_models :=
       Resolved {| res_ok := true; res_status := 200;
                   res_statusText := js "OK"; res_text := [];
                   res_json := Some (Some
                     [{| raw_name := js "models/gemini-2.0-flash";
                         raw_supportedGenerationMethods :=
                           Some [js "generateContent"];
                         raw_tokensPerMinute := Some 80 |}]) |} |}.

(** The process stage followed by the continuation, on one document. *)
Definition full_run `{Env} (text : jsstring) (toc : option (list Section))
    (w : World) : (Outcome Reply * Outcome Reply) * World :=
  let '(r1, w1) := Process.action (process_request text) w in
  let '(r2, w2) := Continue.action (continue_request text toc) w1 in
  ((r1, r2), w2).

End Run.

Import Run.

(** ** Notions used by the further properties *)

Module Further.

(** The buffer of the chunking loop is empty, or a text of at most
    [bound] code units followed by a line feed. *)
Definition buffer_ok (bound : Z) (cur : jsstring) : Prop :=
  cur = [] \/ exists body, cur = body ++ [nl]
                           /\ Z.of_nat (length body) <= bound.

(** The waits of a trace, in order. *)
Definition delays_of (tr : list Event) : list Z :=
  flat_map (fun e => match e with Delayed ms => [ms] | _ => [] end) tr.

(** The outcome of a call ends the retry loop at attempt [attempt]: it
    is a value, or a thrown value that is not retried. *)
Definition ends_retry {T} (maxRetries attempt : Z) (o : Outcome T) : Prop :=
  match o with
  | Returned _ => True
  | Threw (Value e) => attempt = maxRetries \/ is_rate_limit e = false
  | Threw Undefined | Threw Null => False
  end.

(** What a status message cannot change: the columns of a document
    other than [currentStep] and [statusMessage]. *)
Definition record_of (d : Document) :=
  (originalName d, fileSize d, status d, progress d, tableOfContents d,
   tocGeneratedAt d, outlineApprovedAt d, processingData d, completedAt d,
   errorMessage d, pdfTitle d, pdfAuthor d).

(** The sections table and the records of all documents are the same
    in the two worlds. *)
Definition same_records (w w' : World) : Prop :=
  sections w' = sections w
  /\ forall id, record_of <$> documents w' !! id
               = record_of <$> documents w !! id.

(** A function that returns 7 at every call, and one that always hits
    the rate limit. *)
Definition always_seven (n : nat) : Outcome Z := Returned 7.

Definition always_limited (n : nat) : Outcome Z :=
  Threw (Value rate_limit_error).

(** [l] is a piece of a line of the text that is not a page marker. *)
Definition piece_of_text (lines : list jsstring) (l : jsstring) : Prop :=
  exists l0 a b, (l0 ∈ lines) /\ pageMatch l0 = None /\ l0 = a ++ l ++ b.

(** The world that [db_update] leaves. *)
Definition after_update (id : Z) (fields : list Field) (w : World) : World :=
  snd (db_update id fields w).

(** Relations between the world before and the world after: the same
    sections table, the same number of requests sent to the service,
    the same documents present. *)
Definition same_sections (w w' : World) : Prop := sections w' = sections w.

Definition same_requests (w w' : World) : Prop := requests w' = requests w.

Definition same_documents_present (w w' : World) : Prop :=
  forall id, is_Some (documents w' !! id) <-> is_Some (documents w !! id).

(** The progress values written for document [id] between the two
    worlds are all between [lo] and [hi]. *)
Definition progress_within (lo hi id : Z) (w w' : World) : Prop :=
  exists l, progress_writes id (trace w') = progress_writes id (trace w) ++ l
            /\ Forall (fun p => lo <= p <= hi) l.

(** The rows that the summarization loop inserts for the descriptors
    [sections] from index [i] on, given their summaries. *)
Fixpoint rows_of (documentId i : Z) (sections : list Section)
    (summaries : list jsstring) : list SectionRow :=
  match sections, summaries with
  | section :: sections', summary :: summaries' =>
      {| documentId := documentId; row_title := title section;
         summary := summary; startPage := start_page section;
         endPage := end_page section; sectionNumber := i + 1;
         pdfPath := None |}
      :: rows_of documentId (i + 1) sections' summaries'
  | _, _ => []
  end.

(** The request passes the parameter checks of a route, with the key
    [key] and the body [body]. *)
Definition continue_accepts (request : Continue.Request) (key : jsstring)
    (body : Continue.Body) : Prop :=
  Continue.apiKey request = Some key /\ truthy key = true
  /\ Continue.json request = Returned body
  /\ Continue.body_documentId body <> 0
  /\ truthy (Continue.selectedModel body) = true
  /\ truthy (Continue.fileData body) = true
  /\ truthy (Continue.documentText body) = true.

Definition process_accepts (request : Process.Request) (key : jsstring)
    (body : Process.Body) : Prop :=
  Process.apiKey request = Some key /\ truthy key = true
  /\ Process.json request = Returned body
  /\ Process.body_documentId body <> 0
  /\ truthy (Process.selectedModel body) = true
  /\ truthy (Process.fileData body) = true.

(** The answer of the catch block of the inner [try] of a route. *)
Definition failure_reply (t : Thrown) : Reply :=
  {| code := 500;
     payload := ErrorReply (js "Processing failed")
                  (Some (message_or (js "Unknown error") t)) |}.

(** The status code is one of those that the routes send. *)
Definition known_code (c : Z) : Prop :=
  c = 200 \/ c = 400 \/ c = 404 \/ c = 500.

(** The progress values that the summarization loop computes are all
    accepted by [ok], whatever the length of the outline. *)
Definition loop_values_ok (ok : Z -> Prop) : Prop :=
  forall total j, 0 <= j < total ->
    ok (round_ratio (75 * total + j * 25) total)
    /\ ok (round_ratio (75 * total + (j + 1) * 20) total)
    /\ ok (round_ratio (75 * total + (j + 1) * 25) total).

(** The world [w'] is not earlier than [w]: no request to the service
    was taken back. *)
Definition later (w w' : World) : Prop := (requests w <= requests w')%nat.

(** The entry of the model listing with the name [model], when the
    listing succeeds and has one, and the budget of a chunk that the
    process stage derives from it. *)
Definition listed_model `{Env} (model : jsstring) : option Process.AIModel :=
  match fetch_models with
  | Resolved response =>
      if res_ok response then
        match res_json response with
        | Some data =>
            List.find (fun m => bool_decide (Process.name m = model))
              (match data with
               | Some models =>
                   Process.to_AIModel
                     <$> List.filter Process.is_generation_model models
               | None => []
               end)
        | None => None
        end
      else None
  | Rejected _ => None
  end.

Definition chunk_budget `{Env} (model : jsstring) : Z :=
  default 15000 (listed_model model ≫= Process.tokensPerMinute).

(** What the structure request whose first request to the service has
    the number [n] reads from the answers: the answer to request [n]
    when it is ok and has a body; its first text, followed by the first
    text of the answer to request [n + 1] when the answer to [n] was
    cut at the token limit; and the outline that the host parses from
    the bracketed part of this text. *)
Definition usable_answer `{Env} (n : nat) : option GenerateContentResponse :=
  match fetch_generateContent n with
  | Resolved response => if res_ok response then res_json response else None
  | Rejected _ => None
  end.

Definition analysis_text `{Env} (n : nat) : option jsstring :=
  result ← usable_answer n;
  let analysisText := default [] (Continue.first_text result) in
  if bool_decide ((cs ← candidates result; c ← head cs; finishReason c)
                  = Some (js "MAX_TOKENS"))
  then
    continuation ← usable_answer (S n);
    Some (analysisText ++ default [] (Continue.first_text continuation))
  else Some analysisText.

Definition outline_of_request `{Env} (n : nat) : option (list Section) :=
  analysisText ← analysis_text n;
  if truthy analysisText then
    jsonMatch ← Process.match_json_array
                  (trim (Process.strip_fences 0 analysisText));
    JSON_parse_sections jsonMatch
  else None.

(** The numbers of [ns] increase strictly. *)
Fixpoint increasing (ns : list nat) : Prop :=
  match ns with
  | n :: ((m :: _) as ns') => (n < m)%nat /\ increasing ns'
  | _ => True
  end.

(** The progress values of the process stage, in the order of its
    writes, with an outline from the model and with a custom one. *)
Definition process_steps (custom : bool) : list Z :=
  if custom then [25; 30; 35; 60; 65; 65; 65]
  else [25; 30; 35; 45; 60; 65; 65; 65].

(** Since the world [w0], the stage working on document [documentId]
    has written for document [id] the first [n] values of [chain]. *)
Definition at_step (id documentId : Z) (chain : list Z) (w0 : World)
    (n : nat) (w : World) : Prop :=
  progress_writes id (trace w)
  = progress_writes id (trace w0)
    ++ (if bool_decide (documentId = id) then take n chain else []).

(** The error that the summary request throws on an answer that is
    not ok, and the end of the summary request as a function of the
    number of the request. *)
Definition summary_error (response : Response GenerateContentResponse)
    : ErrorObj :=
  {| is_Error := true;
     message := js "Gemini API error: " ++ res_statusText response;
     errorText := Some (res_text response);
     responseText := None |}.

Definition summary_outcome `{Env} (n : nat) : Outcome jsstring :=
  match fetch_generateContent n with
  | Rejected e => Threw e
  | Resolved response =>
      if negb (res_ok response) then Threw (Value (summary_error response))
      else
        match res_json response with
        | None => Threw (Value syntax_error)
        | Some result =>
            match Continue.first_text result with
            | Some (c :: s) => Returned (trim (c :: s))
            | _ => Threw (Value (new_Error
                                   (js "No summary returned from Gemini")))
            end
        end
  end.

(** The service answers request [n] with status text Too Many
    Requests, and it answers request [n] with the text [answer]. *)
Definition rate_limited `{Env} (n : nat) : Prop :=
  exists response,
    fetch_generateContent n = Resolved response
    /\ res_ok response = false
    /\ res_statusText response = js "Too Many Requests".

Definition answers_text `{Env} (n : nat) (answer : jsstring) : Prop :=
  exists response result,
    fetch_generateContent n = Resolved response
    /\ res_ok response = true
    /\ res_json response = Some result
    /\ Continue.first_text result = Some answer.

(** From request [first] on, the service answers every request with a
    text that is not empty. *)
Definition service_answers `{Env} (first : nat) : Prop :=
  forall n, (first <= n)%nat ->
    exists answer, answers_text n answer /\ answer <> [].

(** The bodies of the requests of a concrete run, a process request
    with a custom table of contents, and the services of such runs:
    one that answers every request with a text, and one that answers
    Too Many Requests to its first [k] requests. *)
Definition continue_body (text : jsstring) (toc : option (list Section))
    : Continue.Body :=
  {| Continue.body_documentId := 1;
     Continue.selectedModel := js "models/gemini-2.0-flash";
     Continue.fileData := js "JVBERi0=";
     Continue.fileName := js "paper.pdf";
     Continue.documentText := text;
     Continue.updatedTableOfContents := toc |}.

Definition process_body (text : jsstring) (custom : option (list Section))
    : Process.Body :=
  {| Process.body_documentId := 1;
     Process.selectedModel := js "models/gemini-2.0-flash";
     Process.fileData := js "JVBERi0=";
     Process.fileName := js "paper.pdf";
     Process.documentText := text;
     Process.customTableOfContents := custom;
     Process.body_pdfTitle := None;
     Process.body_pdfAuthor := None |}.

Definition custom_request (text : jsstring) (custom : list Section)
    : Process.Request :=
  {| Process.apiKey := Some (js "key");
     Process.json := Returned (process_body text (Some custom)) |}.

Definition text_env : Env := simple_env [secX] (fun _ => js "* a summary").

Definition too_many_requests : Response GenerateContentResponse :=
  {| res_ok := false; res_status := 429;
     res_statusText := js "Too Many Requests"; res_text := [];
     res_json := None |}.

Definition limited_env (k : nat) : Env :=
  {| toLowerCase := map lower_ascii;
     JSON_parse := fun _ => None;
     JSON_parse_sections := fun _ => Some [secX];
     parseInt := fun _ => None;
     syntax_error := new_Error (js "Unexpected end of JSON input");
     fetch_generateContent := fun n =>
       if (n <? k)%nat then Resolved too_many_requests
       else answering (js "* a summary");
     fetch_models := Rejected (Value (new_Error (js "fetch failed"))) |}.


(** The columns of a document other than [pdfTitle] and
    [pdfAuthor]. *)
Definition without_metadata (d : Document) :=
  (originalName d, fileSize d, status d, currentStep d, progress d,
   statusMessage d, tableOfContents d, tocGeneratedAt d, outlineApprovedAt d,
   processingData d, completedAt d, errorMessage d).

(** [value || old], for a column that is only written when the value
    is truthy. *)
Definition written_or (value old : option jsstring) : option jsstring :=
  match value with Some (c :: s) => Some (c :: s) | _ => old end.

End Further.

Import Further.

(** * Properties *)

(** ** Strings *)

Section StringFacts.

Lemma non_ws_cons (c : code_unit) (s : jsstring) :
  non_ws (c :: s) = if is_ws c then non_ws s else c :: non_ws s.
Proof.
  unfold non_ws. destruct (is_ws c) eqn:E.
  - by rewrite filter_cons_False by congruence.
  - by rewrite filter_cons_True by done.
Qed.

Lemma non_ws_app (s t : jsstring) : non_ws (s ++ t) = non_ws s ++ non_ws t.
Proof. apply filter_app. Qed.

Lemma non_ws_rev (s : jsstring) : non_ws (rev s) = rev (non_ws s).
Proof.
  induction s as [|c s IH]; [done|].
  simpl rev at 1. rewrite non_ws_app, IH, !non_ws_cons.
  destruct (is_ws c); simpl; [by rewrite app_nil_r|done].
Qed.

Lemma non_ws_trimStart (s : jsstring) : non_ws (trimStart s) = non_ws s.
Proof.
  induction s as [|c s IH]; [done|].
  simpl trimStart. rewrite non_ws_cons. destruct (is_ws c) eqn:E; [done|].
  by rewrite non_ws_cons, E.
Qed.

Lemma non_ws_trim (s : jsstring) : non_ws (trim s) = non_ws s.
Proof.
  unfold trim, trimEnd.
  by rewrite non_ws_rev, non_ws_trimStart, non_ws_rev, rev_involutive,
    non_ws_trimStart.
Qed.

Lemma non_ws_nl : non_ws [nl] = [].
Proof. reflexivity. Qed.

(** A string has a character that is not white space exactly when its
    trimmed form is not empty. *)
Lemma trimStart_nil (s : jsstring) : trimStart s = [] <-> non_ws s = [].
Proof.
  induction s as [|c s IH]; [done|].
  simpl trimStart. rewrite non_ws_cons. by destruct (is_ws c).
Qed.

Lemma trim_nil (s : jsstring) : trim s = [] <-> non_ws s = [].
Proof.
  unfold trim, trimEnd. split.
  - intros E. apply (f_equal (@rev _)) in E. rewrite rev_involutive in E.
    simpl in E. apply trimStart_nil in E.
    rewrite non_ws_rev, non_ws_trimStart in E.
    apply (f_equal (@rev _)) in E. by rewrite rev_involutive in E.
  - intros E.
    assert (trimStart s = []) as -> by by apply trimStart_nil.
    reflexivity.
Qed.

(** [split] and [join] are inverse to each other on the text. *)
Lemma join_split_from (cur s : jsstring) :
  join_nl (split_from cur s) = cur ++ s.
Proof.
  revert cur. induction s as [|c s IH]; intros cur; simpl.
  - by rewrite app_nil_r.
  - destruct (N.eqb_spec c nl) as [->|Hc].
    + specialize (IH []). simpl in IH.
      destruct (split_from [] s) eqn:E.
      * by destruct s; simpl in E; [|destruct (_ =? _)%N].
      * simpl. simpl in IH. rewrite IH. done.
    + rewrite IH. by rewrite <- app_assoc.
Qed.

Lemma join_split (s : jsstring) : join_nl (split_nl s) = s.
Proof. apply join_split_from. Qed.

Lemma split_from_not_nil (cur s : jsstring) : split_from cur s <> [].
Proof.
  revert cur. induction s as [|c s IH]; intros cur; simpl; [done|].
  destruct (_ =? _)%N; [done|apply IH].
Qed.

End StringFacts.

Lemma unlines_join (ls : list jsstring) :
  ls <> [] -> unlines ls = join_nl ls ++ [nl].
Proof.
  induction ls as [|l ls IH]; [done|]. intros _.
  destruct ls as [|l' ls]; [by unfold unlines; simpl; rewrite app_nil_r|].
  change (unlines (l :: l' :: ls)) with ((l ++ [nl]) ++ unlines (l' :: ls)).
  rewrite IH by done. simpl. by rewrite <- !app_assoc.
Qed.

(** ** The chunking engine *)

Example chunks_of_three_lines :
  chunkTextForProcessing (join_nl [js "alpha"; js "beta"; js "gamma"]) 11
  = [join_nl [js "alpha"; js "beta"]; js "gamma"].
Proof. reflexivity. Qed.

(** A line longer than the budget is not cut. *)
Example chunk_of_a_long_line :
  chunkTextForProcessing (join_nl [js "ab"; js "a long line"; js "cd"]) 4
  = [js "ab"; js "a long line"; js "cd"].
Proof. reflexivity. Qed.

(** Blank lines that fill the buffer are flushed as an empty chunk. *)
Example chunk_of_blank_lines :
  chunkTextForProcessing (join_nl [js "  "; js "  "; js "abc"]) 3
  = [[]; []; js "abc"].
Proof. reflexivity. Qed.

Section ChunkingFacts.

Variable maxChars : Z.

Lemma chunk_step_eq (chunks : list jsstring) (cur line : jsstring) :
  chunk_step maxChars (chunks, cur) line
  = if (Z.of_nat (length (cur ++ line)) >? maxChars)
       && (Z.of_nat (length cur) >? 0)
    then (chunks ++ [trim cur], line ++ [nl])
    else (chunks, cur ++ line ++ [nl]).
Proof. reflexivity. Qed.

(** What the loop keeps: the chunks pushed so far and the buffer hold
    the characters of the lines read so far that are not white space. *)
Lemma chunk_fold_non_ws (lines : list jsstring) (chunks : list jsstring)
    (cur : jsstring) :
  let '(chunks', cur') := fold_left (chunk_step maxChars) lines (chunks, cur) in
  non_ws (concat chunks' ++ cur')
  = non_ws (concat chunks ++ cur) ++ non_ws (unlines lines).
Proof.
  revert chunks cur. induction lines as [|line lines IH]; intros chunks cur.
  - simpl. by rewrite app_nil_r.
  - cbn [fold_left]. rewrite chunk_step_eq.
    destruct (_ && _).
    + specialize (IH (chunks ++ [trim cur]) (line ++ [nl])).
      destruct (fold_left _ _ _) as [chunks' cur']. rewrite IH.
      change (unlines (line :: lines)) with ((line ++ [nl]) ++ unlines lines).
      rewrite concat_app. simpl. rewrite app_nil_r.
      rewrite !non_ws_app, non_ws_trim. by rewrite <- !app_assoc.
    + specialize (IH chunks (cur ++ line ++ [nl])).
      destruct (fold_left _ _ _) as [chunks' cur']. rewrite IH.
      change (unlines (line :: lines)) with ((line ++ [nl]) ++ unlines lines).
      rewrite !non_ws_app. by rewrite <- !app_assoc.
Qed.

End ChunkingFacts.

Lemma non_ws_unlines_split (text : jsstring) :
  non_ws (unlines (split_nl text)) = non_ws text.
Proof.
  rewrite unlines_join by apply split_from_not_nil.
  rewrite join_split, non_ws_app, non_ws_nl. apply app_nil_r.
Qed.

Lemma chunks_non_ws (text : jsstring) (maxTokens : Z) :
  non_ws (concat (chunkTextForProcessing text maxTokens)) = non_ws text.
Proof.
  unfold chunkTextForProcessing.
  destruct (_ <=? _); [simpl; by rewrite app_nil_r|].
  pose proof (chunk_fold_non_ws maxTokens (split_nl text) [] []) as H.
  destruct (fold_left _ _ _) as [chunks cur]. simpl in H.
  rewrite non_ws_unlines_split in H. rewrite <- H.
  destruct (truthy (trim cur)) eqn:E.
  - rewrite concat_app. simpl. rewrite app_nil_r.
    by rewrite !non_ws_app, non_ws_trim.
  - destruct (trim cur) eqn:E'; [|done].
    apply trim_nil in E'. by rewrite non_ws_app, E', app_nil_r.
Qed.

(** *** The chunks as groups of lines *)

Lemma unlines_cons (l : jsstring) (ls : list jsstring) :
  unlines (l :: ls) = l ++ [nl] ++ unlines ls.
Proof. unfold unlines. simpl. by rewrite <- app_assoc. Qed.

Lemma unlines_app (a b : list jsstring) :
  unlines (a ++ b) = unlines a ++ unlines b.
Proof. unfold unlines. by rewrite map_app, concat_app. Qed.

Lemma unlines_one (l : jsstring) : unlines [l] = l ++ [nl].
Proof. unfold unlines. simpl. apply app_nil_r. Qed.

Lemma unlines_concat (groups : list (list jsstring)) :
  unlines (concat groups) = concat (unlines <$> groups).
Proof.
  induction groups as [|g groups IH]; [done|].
  cbn [concat fmap list_fmap]. by rewrite unlines_app, IH.
Qed.

Lemma unlines_split (text : jsstring) : unlines (split_nl text) = text ++ [nl].
Proof.
  rewrite unlines_join by apply split_from_not_nil. by rewrite join_split.
Qed.

(** The lines of a group are all blank exactly when the group has no
    character other than white space. *)
Lemma non_ws_unlines_nil (g : list jsstring) :
  non_ws (unlines g) = [] <-> Forall (fun l => non_ws l = []) g.
Proof.
  induction g as [|l g IH].
  - split; [constructor|done].
  - rewrite unlines_cons, !non_ws_app, non_ws_nl, Forall_cons, <- IH.
    cbn [app]. split.
    + by intros [? ?]%app_eq_nil.
    + by intros [-> ->].
Qed.

(** What the loop keeps: the chunks pushed so far are the trimmed
    groups of lines read so far, in order, and the buffer holds the
    lines of the group being read. *)
Lemma chunk_fold_groups (maxChars : Z) (lines : list jsstring) :
  forall (groups : list (list jsstring)) (g : list jsstring),
    Forall (fun g => g <> []) groups ->
    exists groups' g',
      fold_left (chunk_step maxChars) lines
        ((fun g => trim (unlines g)) <$> groups, unlines g)
      = ((fun g => trim (unlines g)) <$> groups', unlines g')
      /\ concat groups' ++ g' = concat groups ++ g ++ lines
      /\ Forall (fun g => g <> []) groups'.
Proof.
  induction lines as [|line lines IH]; intros groups g Hgroups.
  - exists groups, g. by rewrite app_nil_r.
  - cbn [fold_left]. rewrite chunk_step_eq. destruct (_ && _) eqn:E.
    + apply andb_prop in E as [_ E].
      assert (g <> []) as Hg by (by intros ->).
      destruct (IH (groups ++ [g]) [line]) as (groups' & g' & E' & Hcat & Hne).
      { apply Forall_app. split; [done|by constructor]. }
      exists groups', g'. rewrite fmap_app, unlines_one in E'.
      split; [exact E'|]. split; [|done].
      rewrite Hcat, concat_app. cbn [concat app].
      by rewrite app_nil_r, <- app_assoc.
    + destruct (IH groups (g ++ [line])) as (groups' & g' & E' & Hcat & Hne);
        [done|].
      exists groups', g'. rewrite unlines_app, unlines_one in E'.
      split; [exact E'|]. split; [|done]. by rewrite Hcat, <- app_assoc.
Qed.

(** The chunks of a text that is longer than the budget: its lines are
    cut into consecutive groups, none of them empty, and a last one;
    every group gives a chunk, and the last one gives a chunk unless
    it is all white space. *)
Lemma chunks_groups (text : jsstring) (maxTokens : Z) :
  maxTokens < Z.of_nat (length text) ->
  exists groups last,
    split_nl text = concat groups ++ last
    /\ Forall (fun g => g <> []) groups
    /\ chunkTextForProcessing text maxTokens
       = ((fun g => trim (unlines g)) <$> groups)
         ++ (if truthy (trim (unlines last)) then [trim (unlines last)]
             else []).
Proof.
  intros Hlong. unfold chunkTextForProcessing. cbv zeta.
  destruct (Z.leb_spec (Z.of_nat (length text)) maxTokens); [lia|].
  destruct (chunk_fold_groups maxTokens (split_nl text) [] [])
    as (groups & last & E & Hcat & Hne); [constructor|].
  change (fold_left (chunk_step maxTokens) (split_nl text) ([], []))
    with (fold_left (chunk_step maxTokens) (split_nl text)
            ((fun g => trim (unlines g)) <$> [], unlines [])).
  rewrite E. exists groups, last. split; [by rewrite Hcat|]. split; [done|].
  destruct (truthy (trim (unlines last))); [done|by rewrite app_nil_r].
Qed.

(** C1, as the specification states it, fails: the chunks are trimmed,
    so the line feed between two chunks is lost. *)
Lemma chunking_not_lossless :
  concat (chunkTextForProcessing (join_nl [js "ab"; js "cd"]) 3)
  <> join_nl [js "ab"; js "cd"].
Proof. vm_compute. discriminate. Qed.

(** C1, amended: chunking is lossless up to the white space at the
    ends of the chunks.  A text within the budget is returned as the
    only chunk.  For a longer text, the text followed by a line feed is
    cut into consecutive pieces, each made of whole lines, and a last
    one; the chunks are the pieces, trimmed at both ends, in order, and
    the last piece, trimmed, unless it is all white space.  So the
    concatenation of the chunks has the characters of the text that
    are not white space, in the same order. *)
Theorem chunking_lossless_up_to_white_space (text : jsstring) (maxTokens : Z) :
  (Z.of_nat (length text) <= maxTokens ->
   chunkTextForProcessing text maxTokens = [text])
  /\ (maxTokens < Z.of_nat (length text) ->
      exists pieces last,
        text ++ [nl] = concat pieces ++ last
        /\ Forall (fun piece => exists lines, lines <> []
                                              /\ piece = unlines lines) pieces
        /\ chunkTextForProcessing text maxTokens
           = (trim <$> pieces)
             ++ (if truthy (trim last) then [trim last] else []))
  /\ non_ws (concat (chunkTextForProcessing text maxTokens)) = non_ws text.
Proof.
  split; [|split; [|apply chunks_non_ws]].
  - intros Hshort. unfold chunkTextForProcessing. cbv zeta.
    by destruct (Z.leb_spec (Z.of_nat (length text)) maxTokens); [|lia].
  - intros Hlong.
    destruct (chunks_groups text maxTokens Hlong)
      as (groups & last & Hlines & Hne & ->).
    exists (unlines <$> groups), (unlines last).
    split; [|split].
    + by rewrite <- unlines_split, Hlines, unlines_app, unlines_concat.
    + apply Forall_fmap. eapply Forall_impl; [exact Hne|].
      intros g Hg. by exists g.
    + by rewrite <- list_fmap_compose.
Qed.

Lemma chunking_lossless_up_to_white_space_witness :
  chunkTextForProcessing (js "ab cd") 5 = [js "ab cd"]
  /\ exists pieces last,
       join_nl [js "ab"; js "cd"] ++ [nl] = concat pieces ++ last
       /\ chunkTextForProcessing (join_nl [js "ab"; js "cd"]) 3
          = (trim <$> pieces)
            ++ (if truthy (trim last) then [trim last] else []).
Proof.
  split.
  - apply (proj1 (chunking_lossless_up_to_white_space (js "ab cd") 5)).
    vm_compute. discriminate.
  - destruct (proj1 (proj2 (chunking_lossless_up_to_white_space
                              (join_nl [js "ab"; js "cd"]) 3)))
      as (pieces & last & Hcut & _ & Hchunks).
    + vm_compute. reflexivity.
    + exists pieces, last. exact (conj Hcut Hchunks).
Defined.

(** C8, as the specification states it, fails twice: the empty text
    gives one empty chunk, and a single line of white space that is
    longer than the budget gives no chunk at all. *)
Lemma chunking_empty_results :
  ~ (chunkTextForProcessing [] 15000 <> []
     /\ Forall (fun c => c <> []) (chunkTextForProcessing [] 15000))
  /\ ~ (chunkTextForProcessing (js "   ") 2 <> []
        /\ Forall (fun c => c <> []) (chunkTextForProcessing (js "   ") 2)).
Proof.
  split.
  - intros [_ H]. vm_compute in H. by apply Forall_cons in H as [? _].
  - intros [H _]. by vm_compute in H.
Qed.

(** C8, amended.  A text within the budget is returned as the only
    chunk, which is empty only for the empty text.  A text with a
    character that is not white space gives at least one chunk,
    whatever the budget.  For a text longer than the budget, the
    chunks are the trimmed groups of consecutive lines of the text, in
    order; a chunk is empty exactly when every line of its group is
    blank (a buffer of blank lines flushed inside the loop), and the
    lines after the last group are all blank (the final flush pushes
    no empty chunk). *)
Theorem chunking_returns_chunks (text : jsstring) (maxTokens : Z) :
  (Z.of_nat (length text) <= maxTokens ->
   chunkTextForProcessing text maxTokens = [text])
  /\ (non_ws text <> [] -> chunkTextForProcessing text maxTokens <> [])
  /\ (maxTokens < Z.of_nat (length text) ->
      exists groups rest,
        split_nl text = concat groups ++ rest
        /\ Forall (fun l => non_ws l = []) rest
        /\ Forall2 (fun c g =>
                      g <> [] /\ c = trim (unlines g)
                      /\ (c = [] <-> Forall (fun l => non_ws l = []) g))
             (chunkTextForProcessing text maxTokens) groups).
Proof.
  split; [|split].
  - intros Hshort. unfold chunkTextForProcessing. cbv zeta.
    by destruct (Z.leb_spec (Z.of_nat (length text)) maxTokens); [|lia].
  - intros H E. apply H. rewrite <- (chunks_non_ws text maxTokens), E. done.
  - intros Hlong.
    destruct (chunks_groups text maxTokens Hlong)
      as (groups & last & Hlines & Hne & ->).
    assert (Forall2 (fun c g =>
                       g <> [] /\ c = trim (unlines g)
                       /\ (c = [] <-> Forall (fun l => non_ws l = []) g))
              ((fun g => trim (unlines g)) <$> groups) groups) as Hgroups.
    { apply Forall2_fmap_l, Forall_Forall2_diag.
      eapply Forall_impl; [exact Hne|]. intros g Hg.
      split; [done|]. split; [done|].
      by rewrite trim_nil, non_ws_unlines_nil. }
    destruct (trim (unlines last)) as [|c t] eqn:Elast; cbn [truthy].
    + exists groups, last. rewrite app_nil_r. split; [done|].
      split; [|done]. by apply non_ws_unlines_nil, trim_nil.
    + exists (groups ++ [last]), []. rewrite concat_app. cbn [concat].
      rewrite !app_nil_r. split; [done|]. split; [constructor|].
      apply Forall2_app; [done|]. constructor; [|constructor].
      split; [by intros ->|]. split; [done|].
      rewrite <- non_ws_unlines_nil, <- trim_nil, Elast. done.
Qed.

Lemma chunking_returns_chunks_witness :
  chunkTextForProcessing (js "ab cd") 5 = [js "ab cd"]
  /\ chunkTextForProcessing (join_nl [js "ab"; js "cd"]) 3 <> []
  /\ exists groups rest,
       split_nl (join_nl [js "  "; js "  "; js "abc"]) = concat groups ++ rest
       /\ Forall2 (fun c g =>
                     g <> [] /\ c = trim (unlines g)
                     /\ (c = [] <-> Forall (fun l => non_ws l = []) g))
            (chunkTextForProcessing (join_nl [js "  "; js "  "; js "abc"]) 3)
            groups.
Proof.
  split; [|split].
  - apply (proj1 (chunking_returns_chunks (js "ab cd") 5)).
    vm_compute. discriminate.
  - apply (proj1 (proj2 (chunking_returns_chunks
                           (join_nl [js "ab"; js "cd"]) 3))).
    vm_compute. discriminate.
  - destruct (proj2 (proj2 (chunking_returns_chunks
                              (join_nl [js "  "; js "  "; js "abc"]) 3)))
      as (groups & rest & Hlines & _ & Hchunks).
    + vm_compute. reflexivity.
    + exists groups, rest. exact (conj Hlines Hchunks).
Defined.

(** ** The section-content extractor *)

Section ExtractFacts.

Variable lower : jsstring -> jsstring.
Variable section : Section.

(** The first loop computes [anchor_lines]. *)
Lemma anchor_pass_lines (next : option Section) (lines : list jsstring)
    (capturing : bool) (page : Z) (acc : jsstring) :
  anchor_pass lower section next lines capturing page acc
  = acc ++ unlines (anchor_lines lower section next capturing
                      (paged lines page)).
Proof.
  revert capturing page acc.
  induction lines as [|line lines IH]; intros capturing page acc.
  - destruct capturing; simpl; by rewrite app_nil_r.
  - cbn [anchor_pass paged]. destruct (pageMatch line) as [ds|]; [apply IH|].
    unfold anchor_lines, starts_section, stays_in_section in *.
    destruct capturing; cbn [negb andb take_while drop_while fst snd].
    + rewrite andb_false_r.
      destruct (page >? end_page section); cbn [negb andb];
        [by rewrite app_nil_r|].
      destruct (next_match lower next line); cbn [negb];
        [by rewrite app_nil_r|].
      rewrite (IH true). cbn [fmap list_fmap]. rewrite unlines_cons.
      by rewrite <- !app_assoc.
    + rewrite andb_true_r.
      destruct (page >=? start_page section); cbn [negb andb];
        [|apply (IH false)].
      destruct (anchor_match lower section line); cbn [negb];
        [|apply (IH false)].
      cbn [take_while fst snd].
      destruct (page >? end_page section); cbn [negb andb];
        [by rewrite app_nil_r|].
      destruct (next_match lower next line); cbn [negb];
        [by rewrite app_nil_r|].
      rewrite (IH true). cbn [fmap list_fmap]. rewrite unlines_cons.
      by rewrite <- !app_assoc.
Qed.

(** The second loop computes [page_lines]. *)
Lemma page_pass_lines (lines : list jsstring) (capturing : bool) (page : Z)
    (acc : jsstring) :
  page_pass section lines capturing page acc
  = acc ++ unlines (page_lines section capturing (paged lines page)).
Proof.
  revert capturing page acc.
  induction lines as [|line lines IH]; intros capturing page acc.
  - destruct capturing; simpl; by rewrite app_nil_r.
  - cbn [page_pass paged]. destruct (pageMatch line) as [ds|]; [apply IH|].
    unfold page_lines in *.
    destruct capturing; cbn [negb andb take_while drop_while fst snd].
    + rewrite andb_false_r.
      destruct (page >? end_page section); cbn [negb];
        [by rewrite app_nil_r|].
      rewrite (IH true). cbn [fmap list_fmap]. rewrite unlines_cons.
      by rewrite <- !app_assoc.
    + rewrite andb_true_r.
      destruct (page >=? start_page section); cbn [negb];
        [|apply (IH false)].
      cbn [take_while fst snd].
      destruct (page >? end_page section); cbn [negb];
        [by rewrite app_nil_r|].
      rewrite (IH true). cbn [fmap list_fmap]. rewrite unlines_cons.
      by rewrite <- !app_assoc.
Qed.

Lemma extract_lines (next : option Section) (text : jsstring) :
  extractSectionContent lower text section next
  = let pls := paged (split_nl text) 1 in
    let content := unlines (anchor_lines lower section next false pls) in
    trim (if (length (trim content) =? 0)%nat
          then unlines (page_lines section false pls) else content).
Proof.
  unfold extractSectionContent.
  by rewrite anchor_pass_lines, page_pass_lines.
Qed.

End ExtractFacts.

(** *** Page markers never reach the output *)

Example marker_examples :
  marker_page (js "=== PAGE 12 ===") = Some 12
  /\ marker_page (js "see === PAGE 3 === above") = Some 3
  /\ marker_page (js "=== PAGE 1a ===") = None
  /\ marker_page (js "=== PAGE  ===") = None
  /\ marker_page (js "== PAGE 4 ===") = None.
Proof. repeat split. Qed.

Section MarkerFacts.

Lemma startsWith_app (s t p : jsstring) :
  startsWith s p = true -> startsWith (s ++ t) p = true.
Proof.
  revert s. induction p as [|a p IH]; intros [|b s]; simpl; try done.
  intros [-> H]%andb_prop. by rewrite (IH _ H).
Qed.

Lemma startsWith_length (s p : jsstring) :
  startsWith s p = true -> (length p <= length s)%nat.
Proof.
  revert s. induction p as [|a p IH]; intros [|b s]; simpl; try done; [lia|].
  intros [_ H]%andb_prop. apply IH in H. lia.
Qed.

Lemma span_digits_app (s t ds r : jsstring) :
  span_digits s = (ds, r) -> r <> [] -> span_digits (s ++ t) = (ds, r ++ t).
Proof.
  revert ds r. induction s as [|c s IH]; intros ds r; simpl.
  - by intros [= <- <-].
  - destruct (is_digit c).
    + destruct (span_digits s) as [ds' r'] eqn:E. intros [= <- <-] Hr.
      by rewrite (IH ds' r').
    + by intros [= <- <-].
Qed.

Lemma marker_at_app (s t : jsstring) :
  is_Some (marker_at s) -> is_Some (marker_at (s ++ t)).
Proof.
  unfold marker_at. destruct (startsWith s _) eqn:E; [|by intros [? ?]].
  rewrite (startsWith_app _ t _ E).
  apply startsWith_length in E. simpl length in E.
  rewrite drop_app_le by done.
  destruct (span_digits (drop 9 s)) as [ds r] eqn:E'.
  destruct (truthy ds && startsWith r _) eqn:E''; [|by intros [? ?]].
  intros _. apply andb_prop in E'' as [Hds Hr].
  rewrite (span_digits_app _ t ds r E') by by destruct r.
  by rewrite Hds, (startsWith_app _ t _ Hr).
Qed.

Lemma pageMatch_app_r (s t : jsstring) :
  is_Some (pageMatch s) -> is_Some (pageMatch (s ++ t)).
Proof.
  induction s as [|c s IH].
  - simpl. by intros [? ?].
  - cbn [pageMatch]. destruct (marker_at (c :: s)) eqn:E.
    + intros _. destruct (marker_at_app (c :: s) t) as [ds' E']; [by rewrite E|].
      cbn [app pageMatch]. simpl in E'. by rewrite E'.
    + intros H. apply IH in H. change ((c :: s) ++ t) with (c :: (s ++ t)).
      cbn [pageMatch]. by destruct (marker_at (c :: s ++ t)).
Qed.

Lemma pageMatch_app_l (s t : jsstring) :
  is_Some (pageMatch t) -> is_Some (pageMatch (s ++ t)).
Proof.
  intros H. induction s as [|c s IH]; [done|].
  change ((c :: s) ++ t) with (c :: (s ++ t)).
  cbn [pageMatch]. by destruct (marker_at (c :: s ++ t)).
Qed.

(** A line without a marker has no marker in any part of it. *)
Lemma pageMatch_infix (a l b : jsstring) :
  pageMatch (a ++ l ++ b) = None -> pageMatch l = None.
Proof.
  intros H. destruct (pageMatch l) eqn:E; [|done].
  destruct (pageMatch_app_l a (l ++ b)) as [? H']; [|congruence].
  apply pageMatch_app_r. by rewrite E.
Qed.

Lemma split_from_infix (cur s l : jsstring) :
  (nl ∉ cur) -> (l ∈ split_from cur s) ->
  (nl ∉ l) /\ exists a b, cur ++ s = a ++ l ++ b.
Proof.
  revert cur. induction s as [|c s IH]; intros cur Hcur; simpl.
  - intros ->%list_elem_of_singleton. split; [done|].
    exists [], []. by rewrite !app_nil_r.
  - destruct (N.eqb_spec c nl) as [->|Hc].
    + intros [->|H]%elem_of_cons.
      * split; [done|]. by exists [], (nl :: s).
      * apply IH in H as [? (a & b & E)]; [|apply not_elem_of_nil].
        split; [done|]. exists (cur ++ nl :: a), b. simpl in E.
        rewrite E. by rewrite <- app_assoc.
    + intros H. apply IH in H as [? (a & b & E)].
      * split; [done|]. exists a, b. rewrite <- E. by rewrite <- app_assoc.
      * rewrite elem_of_app, list_elem_of_singleton. intros [?|?]; congruence.
Qed.

Lemma trimStart_suffix (s : jsstring) : exists a, s = a ++ trimStart s.
Proof.
  induction s as [|c s [a IH]]; [by exists []|].
  simpl. destruct (is_ws c); [|by exists []].
  exists (c :: a). simpl. by rewrite <- IH.
Qed.

Lemma trim_infix (s : jsstring) : exists a b, s = a ++ trim s ++ b.
Proof.
  unfold trim, trimEnd.
  destruct (trimStart_suffix s) as [a Ha].
  destruct (trimStart_suffix (rev (trimStart s))) as [b Hb].
  exists a, (rev b). rewrite <- rev_app_distr, <- Hb, rev_involutive. done.
Qed.

(** A non-empty piece of [unlines ls] without a line feed lies inside
    one of the lines. *)
Lemma infix_unlines (ls : list jsstring) (a l b : jsstring) :
  (nl ∉ l) -> l <> [] -> a ++ l ++ b = unlines ls ->
  exists l0 a' b', (l0 ∈ ls) /\ l0 = a' ++ l ++ b'.
Proof.
  intros Hnl Hl. revert a. induction ls as [|l0 ls IH]; intros a E.
  - unfold unlines in E. simpl in E. by destruct a, l.
  - rewrite unlines_cons in E.
    apply app_eq_inv in E as [(k & E1 & E2)|(k & E1 & E2)].
    + destruct k as [|c k]; simpl in E2.
      * destruct l as [|c l]; [done|]. injection E2 as <- _.
        exfalso. apply Hnl. left.
      * injection E2 as _ E2. symmetry in E2.
        destruct (IH k E2) as (l1 & a' & b' & Hin & Hl1).
        exists l1, a', b'. split; [by right|done].
    + apply app_eq_inv in E2 as [(k' & E3 & E4)|(k' & E3 & E4)].
      * destruct k' as [|c k']; simpl in E4.
        -- exists l0, a, []. split; [left|].
           rewrite E1, E3. by rewrite !app_nil_r.
        -- injection E4 as <- _. exfalso. apply Hnl.
           rewrite E3, elem_of_app. right. left.
      * exists l0, a, k'. split; [left|]. by rewrite E1, E3.
Qed.

Lemma paged_no_marker (lines : list jsstring) (page : Z) :
  Forall (fun pl => pageMatch (snd pl) = None) (paged lines page).
Proof.
  revert page. induction lines as [|line lines IH]; intros page; simpl; [done|].
  destruct (pageMatch line) eqn:E; [apply IH|].
  constructor; [done|apply IH].
Qed.

Lemma Forall_take_while {A} (P : A -> Prop) (p : A -> bool) (l : list A) :
  Forall P l -> Forall P (take_while p l).
Proof.
  induction 1 as [|x l Hx Hl IH]; simpl; [done|].
  destruct (p x); by constructor.
Qed.

Lemma Forall_drop_while {A} (P : A -> Prop) (p : A -> bool) (l : list A) :
  Forall P l -> Forall P (drop_while p l).
Proof.
  induction 1 as [|x l Hx Hl IH]; simpl; [done|].
  destruct (p x); [done|by constructor].
Qed.

Lemma anchor_lines_no_marker lower section next capturing lines page :
  Forall (fun l => pageMatch l = None)
    (anchor_lines lower section next capturing (paged lines page)).
Proof.
  unfold anchor_lines. apply Forall_fmap, Forall_take_while.
  destruct capturing; [|apply Forall_drop_while]; apply paged_no_marker.
Qed.

Lemma page_lines_no_marker section capturing lines page :
  Forall (fun l => pageMatch l = None)
    (page_lines section capturing (paged lines page)).
Proof.
  unfold page_lines. apply Forall_fmap, Forall_take_while.
  destruct capturing; [|apply Forall_drop_while]; apply paged_no_marker.
Qed.

(** The lines of a trimmed [unlines ls] have no marker when [ls] has
    none. *)
Lemma trim_unlines_no_marker (ls : list jsstring) :
  Forall (fun l => pageMatch l = None) ls ->
  Forall (fun l => pageMatch l = None) (split_nl (trim (unlines ls))).
Proof.
  intros Hls. apply Forall_forall. intros l Hl.
  apply split_from_infix in Hl as [Hnl (a & b & E)]; [|apply not_elem_of_nil].
  destruct l as [|c l]; [reflexivity|].
  destruct (trim_infix (unlines ls)) as (a' & b' & E').
  rewrite app_nil_l in E. rewrite E in E'.
  destruct (infix_unlines ls (a' ++ a) (c :: l) (b ++ b'))
    as (l0 & x & y & Hin & ->); [done|done|by rewrite E', <- !app_assoc|].
  rewrite Forall_forall in Hls. apply Hls in Hin.
  by apply pageMatch_infix in Hin.
Qed.

End MarkerFacts.

(** C10: whatever the text, the descriptor and the next descriptor, no
    line of the extracted content matches the page-marker pattern: both
    passes consume the marker lines and copy none. *)
Theorem extract_has_no_page_marker (lower : jsstring -> jsstring)
    (documentText : jsstring) (section : Section)
    (nextSection : option Section) :
  Forall (fun line => pageMatch line = None)
    (split_nl (extractSectionContent lower documentText section nextSection)).
Proof.
  rewrite extract_lines. cbv zeta.
  destruct (_ =? _)%nat; apply trim_unlines_no_marker.
  - apply page_lines_no_marker.
  - apply anchor_lines_no_marker.
Qed.

(** *** The fallback pass *)

Section FallbackFacts.

Variables first last : Z.

Lemma non_decreasing_cons (a : Z) (l : list Z) :
  non_decreasing (a :: l) = true ->
  Forall (fun b => a <= b) l /\ non_decreasing l = true.
Proof.
  revert a. induction l as [|b l IH]; intros a; [done|].
  intros [Hab H]%andb_prop. apply Z.leb_le in Hab.
  split; [|done]. constructor; [done|].
  destruct (IH b H) as [Hb _].
  eapply Forall_impl; [exact Hb|]. intros c Hc. simpl in Hc. lia.
Qed.

Lemma non_decreasing_pages (pl : Z * jsstring) (pls : list (Z * jsstring)) :
  non_decreasing (fst <$> pl :: pls) = true ->
  Forall (fun q => fst pl <= fst q) pls
  /\ non_decreasing (fst <$> pls) = true.
Proof.
  rewrite fmap_cons. intros [H1 H2]%non_decreasing_cons.
  split; [|done]. rewrite Forall_fmap in H1. exact H1.
Qed.

Lemma filter_beyond (pls : list (Z * jsstring)) :
  Forall (fun pl => last < fst pl) pls -> List.filter (in_pages first last) pls = [].
Proof.
  induction 1 as [|pl pls H _ IH]; [done|].
  simpl. unfold in_pages at 1.
  destruct (Z.leb_spec (fst pl) last); [lia|]. by rewrite andb_false_r.
Qed.

Lemma take_while_in_range (pls : list (Z * jsstring)) :
  non_decreasing (fst <$> pls) = true ->
  Forall (fun pl => first <= fst pl) pls ->
  take_while (fun pl => negb (fst pl >? last)) pls = List.filter (in_pages first last) pls.
Proof.
  induction pls as [|pl pls IH]; [done|].
  intros [Hle Hs]%non_decreasing_pages [Hpl Hall]%Forall_cons.
  cbn [take_while List.filter]. unfold in_pages at 1.
  destruct (Z.leb_spec first (fst pl)); [|lia]. cbn [andb].
  rewrite Z.gtb_ltb. destruct (Z.ltb_spec last (fst pl)).
  - destruct (Z.leb_spec (fst pl) last); [lia|]. cbn [negb].
    symmetry. apply filter_beyond.
    eapply Forall_impl; [exact Hle|]. intros c Hc. simpl in Hc. lia.
  - destruct (Z.leb_spec (fst pl) last); [|lia]. cbn [negb].
    by rewrite IH.
Qed.

(** On pages in order, capturing from [first] until past [last] keeps
    the lines of the pages [first] to [last]. *)
Lemma page_lines_in_range (pls : list (Z * jsstring)) :
  non_decreasing (fst <$> pls) = true ->
  take_while (fun pl => negb (fst pl >? last))
    (drop_while (fun pl => negb (fst pl >=? first)) pls)
  = List.filter (in_pages first last) pls.
Proof.
  induction pls as [|pl pls IH]; [done|]. intros Hs.
  pose proof Hs as [Hle Hs']%non_decreasing_pages.
  cbn [drop_while]. rewrite Z.geb_leb.
  destruct (Z.leb_spec first (fst pl)); cbn [negb].
  - apply take_while_in_range; [done|]. constructor; [done|].
    eapply Forall_impl; [exact Hle|]. intros c Hc. simpl in Hc. lia.
  - rewrite (IH Hs'). cbn [List.filter]. unfold in_pages at 2.
    destruct (Z.leb_spec first (fst pl)); [lia|done].
Qed.

End FallbackFacts.

Lemma paged_lines (lines : list jsstring) (page : Z) :
  Forall (fun pl => snd pl ∈ lines) (paged lines page).
Proof.
  revert page. induction lines as [|line lines IH]; intros page; simpl; [done|].
  destruct (pageMatch line).
  - eapply Forall_impl; [apply IH|]. intros pl H. by right.
  - constructor; [left|].
    eapply Forall_impl; [apply IH|]. intros pl H. by right.
Qed.

Lemma drop_while_all {A} (p : A -> bool) (xs ys : list A) :
  Forall (fun x => p x = true) xs ->
  drop_while p (xs ++ ys) = drop_while p ys.
Proof. induction 1 as [|x xs Hx _ IH]; [done|]. simpl. by rewrite Hx. Qed.

(** Without a line that matches the anchors, the first pass captures
    nothing. *)
Lemma anchor_lines_no_anchor lower section next (lines : list jsstring)
    (page : Z) :
  Forall (fun line => anchor_match lower section line = false) lines ->
  anchor_lines lower section next false (paged lines page) = [].
Proof.
  intros H. unfold anchor_lines.
  rewrite <- (app_nil_r (paged lines page)), drop_while_all; [done|].
  eapply Forall_impl; [apply paged_lines|]. intros pl Hpl. simpl in Hpl.
  rewrite Forall_forall in H. unfold starts_section.
  by rewrite (H _ Hpl), andb_false_r.
Qed.

(** C7, as the specification states it, fails.  On a text whose pages
    are in order the content is the text of the pages without the white
    space around it; on a text whose pages are out of order it is not
    the text of the pages at all, trimmed or not. *)
Lemma extract_fallback_not_full_text :
  let section first last :=
    {| title := js "zzz"; start_page := first; end_page := last;
       start_text := None; end_text := None |} in
  let ordered := join_nl [js "=== PAGE 1 ==="; js "  a"; []] in
  let shuffled :=
    join_nl [js "=== PAGE 3 ==="; js "c"; js "=== PAGE 1 ==="; js "a"] in
  ~ (Forall (fun line => anchor_match (map lower_ascii) (section 1 1) line
                         = false) (split_nl ordered) ->
     extractSectionContent (map lower_ascii) ordered (section 1 1) None
     = pages_text 1 1 ordered)
  /\ ~ (Forall (fun line => anchor_match (map lower_ascii) (section 2 5) line
                            = false) (split_nl shuffled) ->
        extractSectionContent (map lower_ascii) shuffled (section 2 5) None
        = trim (pages_text 2 5 shuffled)).
Proof.
  split; intros H.
  - assert (js "a" = js "  a" ++ [nl; nl]) as E; [|discriminate E].
    apply H. vm_compute. repeat constructor.
  - assert (join_nl [js "c"; js "a"] = js "c") as E; [|discriminate E].
    apply H. vm_compute. repeat constructor.
Qed.

(** C7, amended: when no line of the text matches the title or the
    start_text of the descriptor and the pages of the text come in
    non-decreasing order, the extractor returns the text of the pages
    start_page to end_page inclusive, page markers left out, with the
    white space around it trimmed.  The page of a line is the number
    that parseInt reads from the last marker before it, a double: the
    number written up to 2^53, the nearest double above it. *)
Theorem extract_fallback_pages (lower : jsstring -> jsstring)
    (documentText : jsstring) (section : Section)
    (nextSection : option Section) :
  Forall (fun line => anchor_match lower section line = false)
    (split_nl documentText) ->
  pages_in_order documentText = true ->
  extractSectionContent lower documentText section nextSection
  = trim (pages_text (start_page section) (end_page section) documentText).
Proof.
  intros Hanchor Hsorted. rewrite extract_lines. cbv zeta.
  rewrite anchor_lines_no_anchor by done.
  change (length (trim (unlines [])) =? 0)%nat with true. cbv iota.
  unfold page_lines, pages_text. by rewrite page_lines_in_range.
Qed.

Lemma extract_fallback_pages_witness :
  extractSectionContent (map lower_ascii) doc5
    {| title := js "zzz"; start_page := 2; end_page := 4;
       start_text := None; end_text := None |} None
  = trim (pages_text 2 4 doc5).
Proof.
  apply (extract_fallback_pages (map lower_ascii) doc5
           {| title := js "zzz"; start_page := 2; end_page := 4;
              start_text := None; end_text := None |} None).
  - vm_compute. repeat constructor.
  - vm_compute. reflexivity.
Defined.

(** The number of a page is the one [parseInt] reads from the marker,
    a double: up to 2^53 it is the number written, above it the
    nearest double.  So a marker that is written 2^53 + 1 continues
    page 2^53. *)
Example parseInt_reads_a_double :
  parseInt_digits (js "0042") = 42
  /\ parseInt_digits (js "9007199254740992") = 9007199254740992
  /\ parseInt_digits (js "9007199254740993") = 9007199254740992
  /\ parseInt_digits (js "9007199254740995") = 9007199254740996.
Proof. by vm_compute. Qed.

Example extract_fallback_above_2_53 :
  extractSectionContent (map lower_ascii)
    (join_nl [js "=== PAGE 9007199254740992 ==="; js "a";
              js "=== PAGE 9007199254740993 ==="; js "b"])
    {| title := js "zzz"; start_page := 9007199254740992;
       end_page := 9007199254740992;
       start_text := None; end_text := None |} None
  = join_nl [js "a"; js "b"].
Proof. by vm_compute. Qed.

Example extract_fallback_rounds_up :
  extractSectionContent (map lower_ascii)
    (join_nl [js "=== PAGE 9007199254740995 ==="; js "b"])
    {| title := js "zzz"; start_page := 9007199254740996;
       end_page := 9007199254740996;
       start_text := None; end_text := None |} None
  = js "b".
Proof. by vm_compute. Qed.

(** *** The anchor pass on a text of five pages *)

Section AnchorFacts.

Lemma paged_marker (m : jsstring) (rest : list jsstring) (page p : Z) :
  marker_page m = Some p -> paged (m :: rest) page = paged rest p.
Proof.
  unfold marker_page. cbn [paged].
  destruct (pageMatch m); [|done]. by intros [= ->].
Qed.

Lemma paged_plain (ls rest : list jsstring) (page : Z) :
  Forall (fun l => pageMatch l = None) ls ->
  paged (ls ++ rest) page = ((fun l => (page, l)) <$> ls) ++ paged rest page.
Proof.
  induction 1 as [|l ls Hl _ IH]; [done|].
  cbn [app paged]. rewrite Hl, IH. done.
Qed.

Lemma includes_elem (s : jsstring) (c : N) :
  includes s [c] = true -> c ∈ s.
Proof.
  induction s as [|b s IH]; cbn [includes startsWith].
  - done.
  - intros [H|H]%orb_prop.
    + apply andb_prop in H as [->%N.eqb_eq _]. left.
    + right. by apply IH.
Qed.

Lemma non_ws_elem (s : jsstring) (c : N) :
  (c ∈ s) -> is_ws c = false -> non_ws s <> [].
Proof.
  intros Hc Hws E.
  assert (c ∈ non_ws s) as H; [|by rewrite E in H; apply elem_of_nil in H].
  unfold non_ws. by apply list_elem_of_filter.
Qed.

Variable lower : jsstring -> jsstring.
Variable section : Section.
Variable next : option Section.

(** Lines that stay on the pages of the section are kept until one
    matches the next section; lines past its last page are not. *)
Lemma take_while_region (region beyond : list (Z * jsstring)) :
  Forall (fun pl => fst pl <= end_page section) region ->
  Forall (fun pl => end_page section < fst pl) beyond ->
  snd <$> take_while (stays_in_section lower section next) (region ++ beyond)
  = until_next lower next (snd <$> region).
Proof.
  intros Hr Hb. induction Hr as [|pl region Hpl _ IH].
  - destruct Hb as [|pl beyond Hpl _]; [done|].
    cbn [app take_while]. unfold stays_in_section.
    rewrite Z.gtb_ltb. by destruct (Z.ltb_spec (end_page section) (fst pl)); [|lia].
  - cbn [app take_while fmap list_fmap]. unfold until_next in *.
    cbn [take_while]. unfold stays_in_section at 1.
    rewrite Z.gtb_ltb.
    destruct (Z.ltb_spec (end_page section) (fst pl)); [lia|]. cbn [negb andb].
    destruct (next_match lower next (snd pl)); cbn [negb]; [done|].
    cbn [fmap list_fmap]. by rewrite IH.
Qed.

End AnchorFacts.

(** C6, as the specification states it, fails: the title is looked
    for in lower case, so a line of page 2 that holds the letter x
    starts the section with the title X.  Here the title is verbatim
    on the line Chapter X of page 2 and on no line before it, and the
    content starts a line earlier, at the line intro text. *)
Lemma extract_starts_before_title_line :
  let content := extractSectionContent (map lower_ascii) doc5_intro secX None in
  paged (split_nl doc5_intro) 1 !! 2%nat = Some (2, js "intro text")
  /\ paged (split_nl doc5_intro) 1 !! 3%nat = Some (2, js "Chapter X")
  /\ includes (js "Chapter X") (title secX) = true
  /\ Forall (fun pl => includes (snd pl) (title secX) = false)
       (take 3 (paged (split_nl doc5_intro) 1))
  /\ content
     = join_nl [js "intro text"; js "Chapter X"; js "body 2"; js "body 3";
                js "  body 4"]
  /\ ~ (forall l, (l ∈ split_nl content) ->
                  l ∈ snd <$> drop 3 (paged (split_nl doc5_intro) 1)).
Proof.
  cbv zeta. split; [by vm_compute|]. split; [by vm_compute|].
  split; [by vm_compute|]. split; [vm_compute; by repeat constructor|].
  assert (extractSectionContent (map lower_ascii) doc5_intro secX None
          = join_nl [js "intro text"; js "Chapter X"; js "body 2";
                     js "body 3"; js "  body 4"]) as -> by by vm_compute.
  split; [done|]. intros Hall.
  specialize (Hall (js "intro text")). vm_compute in Hall.
  assert (js "intro text" ∈ [js "Chapter X"; js "body 2"; js "body 3";
                              js "  body 4"; []; js "body 5"]) as Hin.
  { apply Hall. left. }
  repeat (apply elem_of_cons in Hin as [Hin|Hin]; [discriminate Hin|]).
  by apply elem_of_nil in Hin.
Qed.

(** C6, amended: the title is matched ignoring case.  On a text with
    the page markers 1 to 5, for the descriptor of pages 2 to 4 with
    the title X, when [L] is the first line of page 2 that contains
    the title in the sense of the extractor (the line in lower case
    contains the title in lower case), and [L] is not blank, the
    content is the text from [L] to the end of page 4: no line before
    [L] and no line of page 5 is in it.  With a next descriptor the
    content stops before the first line that matches it.  This holds
    for every lower-casing function of the host. *)
Theorem extract_brackets_section (lower : jsstring -> jsstring)
    (documentText : jsstring) (nextSection : option Section)
    (pre p1 a b p3 p4 p5 : list jsstring) (m1 m2 m3 m4 m5 L : jsstring) :
  let section := {| title := js "X"; start_page := 2; end_page := 4;
                    start_text := None; end_text := None |} in
  split_nl documentText
  = pre ++ m1 :: p1 ++ m2 :: (a ++ L :: b) ++ m3 :: p3 ++ m4 :: p4
    ++ m5 :: p5 ->
  marker_page m1 = Some 1 -> marker_page m2 = Some 2 ->
  marker_page m3 = Some 3 -> marker_page m4 = Some 4 ->
  marker_page m5 = Some 5 ->
  Forall (fun l => pageMatch l = None)
    (pre ++ p1 ++ a ++ L :: b ++ p3 ++ p4 ++ p5) ->
  anchor_match lower section L = true ->
  non_ws L <> [] ->
  Forall (fun l => anchor_match lower section l = false) a ->
  next_match lower nextSection L = false ->
  extractSectionContent lower documentText section nextSection
  = trim (unlines (until_next lower nextSection (L :: b ++ p3 ++ p4))).
Proof.
  intros section Hlines H1 H2 H3 H4 H5 Hplain HL HLne Ha Hnext.
  rewrite extract_lines, Hlines. cbv zeta.
  repeat (apply Forall_app in Hplain as [? Hplain]).
  apply Forall_cons in Hplain as [? Hplain].
  repeat (apply Forall_app in Hplain as [? Hplain]).
  assert (paged (pre ++ m1 :: p1 ++ m2 :: (a ++ L :: b) ++ m3 :: p3
                 ++ m4 :: p4 ++ m5 :: p5) 1
          = (((fun l => (1, l)) <$> pre) ++ ((fun l => (1, l)) <$> p1)
             ++ ((fun l => (2, l)) <$> a))
            ++ ((2, L) :: ((fun l => (2, l)) <$> b)
                ++ ((fun l => (3, l)) <$> p3) ++ ((fun l => (4, l)) <$> p4))
            ++ ((fun l => (5, l)) <$> p5)) as ->.
  { rewrite (paged_plain pre) by done. rewrite (paged_marker m1 _ _ 1) by done.
    rewrite (paged_plain p1) by done. rewrite (paged_marker m2 _ _ 2) by done.
    rewrite <- (app_assoc a). rewrite (paged_plain a) by done.
    rewrite (paged_plain (L :: b)) by by constructor.
    rewrite (paged_marker m3 _ _ 3) by done.
    rewrite (paged_plain p3) by done. rewrite (paged_marker m4 _ _ 4) by done.
    rewrite (paged_plain p4) by done. rewrite (paged_marker m5 _ _ 5) by done.
    rewrite <- (app_nil_r p5) at 1. rewrite (paged_plain p5) by done.
    cbn [paged fmap list_fmap app]. rewrite app_nil_r, <- !app_assoc. done. }
  assert (anchor_lines lower section nextSection false
            ((((fun l => (1, l)) <$> pre) ++ ((fun l => (1, l)) <$> p1)
              ++ ((fun l => (2, l)) <$> a))
             ++ ((2, L) :: ((fun l => (2, l)) <$> b)
                 ++ ((fun l => (3, l)) <$> p3) ++ ((fun l => (4, l)) <$> p4))
             ++ ((fun l => (5, l)) <$> p5))
          = until_next lower nextSection (L :: b ++ p3 ++ p4)) as ->.
  { unfold anchor_lines. rewrite drop_while_all.
    - cbn [app drop_while]. unfold starts_section at 1.
      cbn [fst snd]. rewrite HL.
      change (2 >=? start_page section) with true. cbn [negb orb andb].
      change ((2, L) :: (((fun l => (2, l)) <$> b) ++ ((fun l => (3, l)) <$> p3)
                ++ ((fun l => (4, l)) <$> p4)) ++ ((fun l => (5, l)) <$> p5))
        with (((2, L) :: ((fun l => (2, l)) <$> b)
                ++ ((fun l => (3, l)) <$> p3) ++ ((fun l => (4, l)) <$> p4))
              ++ ((fun l => (5, l)) <$> p5)).
      rewrite take_while_region.
      + cbn [fmap list_fmap]. rewrite !fmap_app, <- !list_fmap_compose.
        assert (forall (p : Z) (ls : list jsstring),
                  snd ∘ (fun l => (p, l)) <$> ls = ls) as Hid
          by (intros; apply list_fmap_id).
        by rewrite !Hid.
      + constructor; [cbn; lia|]. repeat (apply Forall_app; split);
          apply Forall_fmap, Forall_true; intros; cbn; lia.
      + apply Forall_fmap, Forall_true; intros; cbn; lia.
    - repeat (apply Forall_app; split).
      + apply Forall_fmap, Forall_true. intros l. by unfold starts_section.
      + apply Forall_fmap, Forall_true. intros l. by unfold starts_section.
      + apply Forall_fmap. eapply Forall_impl; [exact Ha|].
        intros l Hl. unfold starts_section. cbn. rewrite Hl. done. }
  assert (until_next lower nextSection (L :: b ++ p3 ++ p4)
          = L :: until_next lower nextSection (b ++ p3 ++ p4)) as ->.
  { unfold until_next. cbn [take_while]. by rewrite Hnext. }
  assert (trim (unlines (L :: until_next lower nextSection (b ++ p3 ++ p4)))
          <> []) as Hne.
  { rewrite trim_nil, unlines_cons, non_ws_app.
    by intros [E _]%app_eq_nil. }
  destruct (trim (unlines (L :: _))) eqn:E; [done|].
  cbn [length Nat.eqb]. by rewrite E.
Qed.

Lemma extract_brackets_section_witness :
  extractSectionContent (map lower_ascii) doc5_intro secX None
  = join_nl [js "intro text"; js "Chapter X"; js "body 2"; js "body 3";
             js "  body 4"].
Proof.
  etransitivity.
  - apply (extract_brackets_section (map lower_ascii) doc5_intro None
             [js "cover"] [js "contents"] [] [js "Chapter X"; js "body 2"]
             [js "body 3"] [js "  body 4"; []] [js "body 5"]
             (js "=== PAGE 1 ===") (js "=== PAGE 2 ===") (js "=== PAGE 3 ===")
             (js "=== PAGE 4 ===") (js "=== PAGE 5 ===") (js "intro text"));
      vm_compute; try reflexivity; try discriminate; repeat constructor.
  - vm_compute. reflexivity.
Defined.

(** ** The retry/backoff controller *)

Section RetryFacts.

Context `{Env} {T : Type}.

Lemma run_bind {A B} (m : M A) (k : A -> M B) (w : World) :
  (m ≫= k) w = match m w with
               | (Returned a, w') => k a w'
               | (Threw t, w') => (Threw t, w')
               end.
Proof. reflexivity. Qed.

Lemma run_ret {A} (a : A) (w : World) : (mret a : M A) w = (Returned a, w).
Proof. reflexivity. Qed.

Lemma count_snoc (p : Event -> bool) (tr : list Event) (e : Event) :
  count p (tr ++ [e]) = (count p tr + (if p e then 1 else 0))%nat.
Proof.
  unfold count. rewrite List.filter_app, length_app. simpl.
  by destruct (p e).
Qed.

(** A failure that is not a rate limit ends the loop at once, with the
    world that the failed call left. *)
Lemma retry_loop_other_error (fn : M T) (maxRetries baseDelay : Z) (db : bool)
    (documentId : option Z) (stepName : option jsstring) (n : nat)
    (lastError : Thrown) (lastErrorText : jsstring) (w w' : World)
    (e : ErrorObj) :
  fn w = (Threw (Value e), w') -> is_rate_limit e = false ->
  retry_loop fn maxRetries baseDelay db documentId stepName (S n) 0
    lastError lastErrorText w
  = (Threw (Value e), w').
Proof.
  intros Hfn He. cbn [retry_loop]. unfold try_catch, wait_before.
  change (0 >? 0) with false. cbv iota. rewrite run_bind.
  rewrite run_ret, Hfn.
  rewrite He. by destruct (0 =? maxRetries).
Qed.

(** The wait is the interval that the service suggests when the error
    text carries one, and the exponential backoff otherwise. *)
Lemma delay_for_suggested (baseDelay attempt d : Z) (text : jsstring) :
  parseRetryDelay text = Some d -> 0 < d ->
  delay_for baseDelay attempt text = d.
Proof.
  intros E Hd. unfold delay_for. rewrite E.
  by destruct (Z.gtb_spec d 0); [|lia].
Qed.

Lemma delay_for_backoff (baseDelay attempt : Z) (text : jsstring) :
  JSON_parse text = None ->
  delay_for baseDelay attempt text = baseDelay * 2 ^ (attempt - 1).
Proof. intros E. unfold delay_for, parseRetryDelay. by rewrite E. Qed.

(** A function that throws [undefined] makes the [catch] block fail
    when it reads [errorText]. *)
Lemma retry_loop_undefined (fn : M T) (maxRetries baseDelay : Z) (db : bool)
    (documentId : option Z) (stepName : option jsstring) (n : nat)
    (lastError : Thrown) (lastErrorText : jsstring) (w w' : World) :
  fn w = (Threw Undefined, w') ->
  retry_loop fn maxRetries baseDelay db documentId stepName (S n) 0
    lastError lastErrorText w
  = (Threw (Value type_error_undefined), w').
Proof.
  intros Hfn. cbn [retry_loop]. unfold try_catch, wait_before.
  change (0 >? 0) with false. cbv iota. by rewrite run_bind, run_ret, Hfn.
Qed.

(** With a negative [maxRetries] the loop body never runs: the
    function is not called and [undefined] is thrown. *)
Lemma retry_without_attempts (fn : M T) (maxRetries baseDelay : Z) (db : bool)
    (documentId : option Z) (stepName : option jsstring) (w : World) :
  maxRetries < 0 ->
  retryWithBackoff fn maxRetries baseDelay db documentId stepName w
  = (Threw Undefined, w).
Proof.
  intros Hmax. unfold retryWithBackoff.
  by replace (Z.to_nat (maxRetries + 1)) with O by lia.
Qed.

(** The same for a scripted function: one call, and nothing else, is
    in the trace. *)
Lemma retry_other_error_scripted (script : nat -> Outcome T)
    (maxRetries baseDelay : Z) (db : bool) (documentId : option Z)
    (stepName : option jsstring) (w : World) (e : ErrorObj) :
  0 <= maxRetries ->
  script (requests w) = Threw (Value e) -> is_rate_limit e = false ->
  let rw := retryWithBackoff (scripted script) maxRetries baseDelay db
              documentId stepName w in
  fst rw = Threw (Value e)
  /\ trace (snd rw) = trace w ++ [Fetched (requests w)]
  /\ documents (snd rw) = documents w
  /\ count is_update (trace (snd rw)) = count is_update (trace w)
  /\ count is_delay (trace (snd rw)) = count is_delay (trace w).
Proof.
  intros Hmax Hscript He. unfold retryWithBackoff.
  replace (Z.to_nat (maxRetries + 1)) with (S (Z.to_nat maxRetries)) by lia.
  cbv zeta. erewrite retry_loop_other_error; [|unfold scripted; by rewrite Hscript|done].
  cbn [fst snd trace documents]. rewrite !count_snoc. cbn [is_update is_delay].
  repeat split; lia.
Qed.

End RetryFacts.

Example parseRetryDelay_suggested :
  parseRetryDelay (H := retry_info_env) (js "{...}") = Some 7000.
Proof. reflexivity. Qed.

(** C4: when the call fails with an error that is not classified as a
    rate limit, retryWithBackoff throws that error, and the world it
    leaves is the world left by that first call: there is no second
    attempt, no wait and no status update. *)
Theorem retry_rethrows_other_errors `{Env} {T : Type} (fn : M T)
    (maxRetries baseDelay : Z) (db : bool) (documentId : option Z)
    (stepName : option jsstring) (w w' : World) (e : ErrorObj) :
  0 <= maxRetries ->
  fn w = (Threw (Value e), w') ->
  is_rate_limit e = false ->
  retryWithBackoff fn maxRetries baseDelay db documentId stepName w
  = (Threw (Value e), w').
Proof.
  intros Hmax Hfn He. unfold retryWithBackoff.
  replace (Z.to_nat (maxRetries + 1)) with (S (Z.to_nat maxRetries)) by lia.
  by apply retry_loop_other_error.
Qed.

Section RetryScripted.

Context `{Env} {T : Type}.
Variable script : nat -> Outcome T.
Variables maxRetries baseDelay id : Z.
Variable step : jsstring.
Hypothesis id_truthy : id <> 0.
Hypothesis step_truthy : step <> [].

(** With the status hook configured, the block before a retry writes
    one status update and waits once; before the first attempt it does
    nothing. *)
Lemma wait_before_effect (attempt : Z) (lastErrorText : jsstring) (w : World) :
  exists w1,
    wait_before baseDelay true (Some id) (Some step) attempt lastErrorText w
    = (Returned tt, w1)
    /\ requests w1 = requests w
    /\ count is_update (trace w1)
       = (count is_update (trace w) + if attempt >? 0 then 1 else 0)%nat
    /\ count is_delay (trace w1)
       = (count is_delay (trace w) + if attempt >? 0 then 1 else 0)%nat.
Proof.
  unfold wait_before. destruct (attempt >? 0).
  - unfold report_wait. destruct (Z.eqb_spec id 0) as [|_]; [done|].
    destruct step as [|c s] eqn:E; [done|]. cbn [negb truthy andb].
    rewrite run_bind. unfold updateDocumentStatus, db_update, delay.
    cbv beta iota. eexists. split; [reflexivity|]. cbn [requests trace].
    rewrite !count_snoc. cbn [is_update is_delay]. repeat split; lia.
  - eexists. split; [reflexivity|]. repeat split; lia.
Qed.

(** The loop from attempt [attempt] on, when the next [j] calls hit the
    rate limit and the one after them succeeds. *)
Lemma retry_loop_rate_limited (v : T) (j : nat) :
  forall (attempt : Z) (lastError : Thrown) (lastErrorText : jsstring)
         (w : World),
    0 <= attempt -> attempt + Z.of_nat j <= maxRetries ->
    (forall i, (i < j)%nat ->
       exists e, script (requests w + i)%nat = Threw (Value e)
                 /\ is_rate_limit e = true) ->
    script (requests w + j)%nat = Returned v ->
    exists w',
      retry_loop (scripted script) maxRetries baseDelay true (Some id)
        (Some step) (Z.to_nat (maxRetries + 1 - attempt)) attempt
        lastError lastErrorText w
      = (Returned v, w')
      /\ requests w' = (requests w + j + 1)%nat
      /\ count is_update (trace w')
         = (count is_update (trace w) + j + if attempt >? 0 then 1 else 0)%nat
      /\ count is_delay (trace w')
         = (count is_delay (trace w) + j + if attempt >? 0 then 1 else 0)%nat.
Proof.
  induction j as [|j IH]; intros attempt lastError lastErrorText w Ha Hj Hfail Hok.
  - replace (Z.to_nat (maxRetries + 1 - attempt))
      with (S (Z.to_nat (maxRetries - attempt))) by lia.
    cbn [retry_loop]. unfold try_catch. rewrite run_bind.
    destruct (wait_before_effect attempt lastErrorText w)
      as (w1 & -> & Hreq & Hup & Hdel).
    unfold scripted. rewrite Hreq.
    rewrite Nat.add_0_r in Hok. rewrite Hok.
    eexists. split; [reflexivity|].
    cbn [requests trace]. rewrite !count_snoc, Hup, Hdel.
    cbn [is_update is_delay]. repeat split; lia.
  - replace (Z.to_nat (maxRetries + 1 - attempt))
      with (S (Z.to_nat (maxRetries + 1 - (attempt + 1)))) by lia.
    cbn [retry_loop]. unfold try_catch. rewrite run_bind.
    destruct (wait_before_effect attempt lastErrorText w)
      as (w1 & -> & Hreq & Hup & Hdel).
    destruct (Hfail 0%nat) as (e & He & Hrate); [lia|].
    rewrite Nat.add_0_r in He.
    unfold scripted at 1. rewrite Hreq, He.
    destruct (Z.eqb_spec attempt maxRetries) as [|_]; [lia|].
    rewrite Hrate.
    match goal with
    | |- context [retry_loop _ _ _ _ _ _ _ _ ?le ?lt ?w2] =>
        destruct (IH (attempt + 1) le lt w2) as (w' & -> & Hreq' & Hup' & Hdel')
    end.
    + lia.
    + lia.
    + intros i Hi. destruct (Hfail (S i)) as (e' & He' & Hrate'); [lia|].
      exists e'. split; [|done]. rewrite <- He'. cbn [requests]. f_equal. lia.
    + rewrite <- Hok. cbn [requests]. f_equal. lia.
    + exists w'. split; [done|].
      cbn [requests trace] in Hreq', Hup', Hdel'.
      rewrite !count_snoc, Hup, Hdel in *. cbn [is_update is_delay] in *.
      destruct (Z.gtb_spec (attempt + 1) 0); [|lia].
      repeat split; lia.
Qed.

End RetryScripted.

(** C5: when the function hits the rate limit k times, k < maxRetries,
    and then succeeds, retryWithBackoff returns what the function
    returned, after k + 1 calls, k waits and, the status hook being
    configured, k status updates. *)
Theorem retry_succeeds_after_rate_limits `{Env} {T : Type}
    (script : nat -> Outcome T) (maxRetries baseDelay id : Z)
    (step : jsstring) (k : nat) (v : T) (w : World) :
  id <> 0 -> step <> [] ->
  Z.of_nat k < maxRetries ->
  (forall i, (i < k)%nat ->
     exists e, script (requests w + i)%nat = Threw (Value e)
               /\ is_rate_limit e = true) ->
  script (requests w + k)%nat = Returned v ->
  let rw := retryWithBackoff (scripted script) maxRetries baseDelay true
              (Some id) (Some step) w in
  fst rw = Returned v
  /\ requests (snd rw) = (requests w + k + 1)%nat
  /\ count is_update (trace (snd rw)) = (count is_update (trace w) + k)%nat
  /\ count is_delay (trace (snd rw)) = (count is_delay (trace w) + k)%nat.
Proof.
  intros Hid Hstep Hk Hfail Hok. unfold retryWithBackoff.
  destruct (retry_loop_rate_limited script maxRetries baseDelay id step
              Hid Hstep v k 0 Undefined [] w)
    as (w' & E & Hreq & Hup & Hdel); [lia|lia|done|done|].
  rewrite Z.sub_0_r in E. cbv zeta. rewrite E. cbn [fst snd].
  change (0 >? 0) with false in Hup, Hdel. cbv iota in Hup, Hdel.
  repeat split; lia.
Qed.

Lemma retry_succeeds_after_rate_limits_witness :
  let rw := retryWithBackoff (H := simple_env [] (fun _ => []))
              (scripted twice_limited) 3 1000 true (Some 1)
              (Some (js "generating_summaries"))
              (world_with 1 (uploaded (js "paper.pdf"))) in
  fst rw = Returned 7
  /\ requests (snd rw) = 3%nat
  /\ count is_update (trace (snd rw)) = 2%nat
  /\ count is_delay (trace (snd rw)) = 2%nat.
Proof.
  apply (@retry_succeeds_after_rate_limits (simple_env [] (fun _ => [])) Z
           twice_limited 3 1000 1 (js "generating_summaries") 2 7
           (world_with 1 (uploaded (js "paper.pdf")))).
  - lia.
  - discriminate.
  - lia.
  - intros [|[|i]] Hi; [| |lia]; exists rate_limit_error; split; reflexivity.
  - reflexivity.
Defined.

Lemma retry_rethrows_other_errors_witness :
  retryWithBackoff (H := simple_env [] (fun _ => []))
    (scripted always_forbidden) 3 1000 true (Some 1)
    (Some (js "generating_summaries"))
    (world_with 1 (uploaded (js "paper.pdf")))
  = scripted always_forbidden (world_with 1 (uploaded (js "paper.pdf"))).
Proof.
  apply (@retry_rethrows_other_errors (simple_env [] (fun _ => [])) Z
           (scripted always_forbidden) 3 1000 true (Some 1)
           (Some (js "generating_summaries"))
           (world_with 1 (uploaded (js "paper.pdf")))).
  - lia.
  - reflexivity.
  - reflexivity.
Defined.

(** ** The routes *)

(** C3: a request to resume a document whose status is not
    awaiting_outline_approval is answered with a client error (status
    400), and the world is left as it was: no row of documents or
    sections is written. *)
Theorem resume_rejected_unless_awaiting `{Env} (request : Continue.Request)
    (body : Continue.Body) (document : Document) (w : World) :
  Continue.json request = Returned body ->
  documents w !! Continue.body_documentId body = Some document ->
  status document <> awaiting_outline_approval ->
  exists error,
    Continue.action request w = (Returned (json_error error 400), w)
    /\ (forall key, Continue.apiKey request = Some key -> key <> [] ->
        Continue.body_documentId body <> 0 ->
        Continue.selectedModel body <> [] -> Continue.fileData body <> [] ->
        Continue.documentText body <> [] ->
        error = js "Document not awaiting approval").
Proof.
  intros Hjson Hdoc Hstatus. unfold Continue.action, try_catch.
  destruct (Continue.apiKey request) as [[|c key]|] eqn:Hkey.
  - eexists. split; [reflexivity|]. by intros key [= <-].
  - rewrite Hjson.
    destruct (Z.eqb_spec (Continue.body_documentId body) 0) as [E|_].
    { eexists. split; [reflexivity|]. by intros. }
    destruct (Continue.selectedModel body) as [|? ?] eqn:E1.
    { eexists. split; [reflexivity|]. by intros. }
    destruct (Continue.fileData body) as [|? ?] eqn:E2.
    { eexists. split; [reflexivity|]. by intros. }
    destruct (Continue.documentText body) as [|? ?] eqn:E3.
    { eexists. split; [reflexivity|]. by intros. }
    cbn [truthy negb orb]. unfold Continue.resume. rewrite run_bind.
    unfold db_find_document. rewrite Hdoc.
    rewrite bool_decide_eq_false_2 by done. cbn [negb].
    eexists. split; [reflexivity|]. by intros.
  - eexists. split; [reflexivity|]. by intros key [=].
Qed.

Lemma resume_rejected_unless_awaiting_witness :
  exists error,
    Continue.action (H := simple_env [] (fun _ => js "* a summary"))
      (continue_request doc5 None)
      (world_with 1 (finished (js "paper.pdf") [secX]))
    = (Returned (json_error error 400),
       world_with 1 (finished (js "paper.pdf") [secX])).
Proof.
  destruct (@resume_rejected_unless_awaiting
              (simple_env [] (fun _ => js "* a summary"))
              (continue_request doc5 None)
              {| Continue.body_documentId := 1;
                 Continue.selectedModel := js "models/gemini-2.0-flash";
                 Continue.fileData := js "JVBERi0=";
                 Continue.fileName := js "paper.pdf";
                 Continue.documentText := doc5;
                 Continue.updatedTableOfContents := None |}
              (finished (js "paper.pdf") [secX])
              (world_with 1 (finished (js "paper.pdf") [secX])))
    as (error & E & _).
  - reflexivity.
  - reflexivity.
  - discriminate.
  - by exists error.
Defined.

(** *** What a computation leaves unchanged *)

Section Framing.

(** [R] relates the world before a computation with the world after
    it; it is reflexive and transitive, and the status updates without
    a progress value and the waits respect it. *)
Variable R : World -> World -> Prop.
Hypothesis R_refl : forall w, R w w.
Hypothesis R_trans : forall w1 w2 w3, R w1 w2 -> R w2 w3 -> R w1 w3.

Lemma frames_ret {A} (a : A) : frames R (mret a).
Proof. intros w. apply R_refl. Qed.

Lemma frames_throw {A} (t : Thrown) : frames R (@throw A t).
Proof. intros w. apply R_refl. Qed.

Lemma frames_bind {A B} (m : M A) (k : A -> M B) :
  frames R m -> (forall a, frames R (k a)) -> frames R (m ≫= k).
Proof.
  intros Hm Hk w. rewrite run_bind. specialize (Hm w).
  destruct (m w) as [[a|t] w']; [|done].
  eapply R_trans; [exact Hm|apply Hk].
Qed.

Lemma frames_try_catch {A} (body : M A) (handler : Thrown -> M A) :
  frames R body -> (forall t, frames R (handler t)) ->
  frames R (try_catch body handler).
Proof.
  intros Hm Hk w. unfold try_catch. specialize (Hm w).
  destruct (body w) as [[a|t] w']; [done|].
  eapply R_trans; [exact Hm|apply Hk].
Qed.

Hypothesis R_status : forall id step message,
  frames R (updateDocumentStatus id step message None).
Hypothesis R_delay : forall ms, frames R (delay ms).

Context `{Env}.

Lemma frames_wait_before baseDelay db documentId stepName attempt text :
  frames R (wait_before baseDelay db documentId stepName attempt text).
Proof.
  unfold wait_before. destruct (attempt >? 0); [|apply frames_ret].
  apply frames_bind; [|intros _; apply R_delay].
  unfold report_wait.
  destruct db, documentId as [id|], stepName as [step|];
    try apply frames_ret.
  destruct (_ && _); [apply R_status|apply frames_ret].
Qed.

Lemma frames_retry_loop {T} (fn : M T) maxRetries baseDelay db documentId
    stepName (n : nat) :
  frames R fn ->
  forall attempt lastError text,
    frames R (retry_loop fn maxRetries baseDelay db documentId stepName n
              attempt lastError text).
Proof.
  intros Hfn. induction n as [|n IH]; intros attempt lastError text.
  - apply frames_throw.
  - cbn [retry_loop]. apply frames_try_catch.
    + apply frames_bind; [apply frames_wait_before|by intros _].
    + intros [| |e]; [apply frames_throw|apply frames_throw|].
      destruct (_ =? _); [apply frames_throw|].
      destruct (is_rate_limit e); [apply IH|apply frames_throw].
Qed.

Lemma frames_retryWithBackoff {T} (fn : M T) maxRetries baseDelay db
    documentId stepName :
  frames R fn ->
  frames R (retryWithBackoff fn maxRetries baseDelay db documentId stepName).
Proof. intros Hfn. by apply frames_retry_loop. Qed.

Hypothesis R_fetch : frames R fetch.

Lemma frames_request_summary : frames R Continue.request_summary.
Proof.
  unfold Continue.request_summary. apply frames_bind; [apply R_fetch|].
  intros response. destruct (negb _); [apply frames_throw|].
  destruct (res_json response) as [result|]; [|apply frames_throw].
  destruct (Continue.first_text result) as [[|c s]|];
    [apply frames_throw|apply frames_ret|apply frames_throw].
Qed.

Lemma frames_createSectionSummary sectionTitle content apiKey model id :
  frames R (Continue.createSectionSummary sectionTitle content apiKey model id).
Proof. apply frames_retryWithBackoff, frames_request_summary. Qed.

End Framing.

(** *** The rows of the continuation stage *)

Section ContinueRows.

Context `{Env}.

Local Abbreviation R := (appends_rows row_in_order).

Lemma rows_same (w w' : World) : sections w' = sections w -> R w w'.
Proof. intros E. exists []. by rewrite app_nil_r. Qed.

Lemma rows_refl (w : World) : R w w.
Proof. by apply rows_same. Qed.

Lemma rows_trans (w1 w2 w3 : World) : R w1 w2 -> R w2 w3 -> R w1 w3.
Proof.
  intros (r1 & E1 & F1) (r2 & E2 & F2). exists (r1 ++ r2).
  split; [by rewrite E2, E1, app_assoc|by apply Forall_app].
Qed.

Lemma rows_db_update id fields : frames R (db_update id fields).
Proof. intros w. by apply rows_same. Qed.

Lemma rows_status id step message progress :
  frames R (updateDocumentStatus id step message progress).
Proof. apply rows_db_update. Qed.

Lemma rows_delay ms : frames R (delay ms).
Proof. intros w. by apply rows_same. Qed.

Lemma rows_fetch : frames R fetch.
Proof.
  intros w. unfold fetch.
  destruct (fetch_generateContent _); by apply rows_same.
Qed.

Lemma rows_new_Date : frames R new_Date.
Proof. intros w. apply rows_refl. Qed.

Lemma rows_insert (row : SectionRow) :
  row_in_order row -> frames R (db_insert_section row).
Proof. intros Hrow w. exists [row]. split; [done|by constructor]. Qed.

Lemma rows_summary sectionTitle content apiKey model id :
  frames R (Continue.createSectionSummary sectionTitle content apiKey model id).
Proof.
  apply frames_createSectionSummary.
  - apply rows_refl.
  - apply rows_trans.
  - intros. apply rows_status.
  - apply rows_delay.
  - apply rows_fetch.
Qed.

Ltac frame :=
  repeat first
    [ apply rows_status | apply rows_delay | apply rows_new_Date
    | apply rows_db_update | apply rows_summary
    | apply (frames_ret R rows_refl) | apply (frames_throw R rows_refl)
    | apply (frames_bind R rows_trans); [|intros ?] ].

Lemma rows_summarize_from text apiKey model id total (rest : list Section) :
  Forall pages_in_range_order rest ->
  forall i valid,
    frames R (Continue.summarize_from text apiKey model id total i rest valid).
Proof.
  induction 1 as [|section rest Hsection _ IH]; intros i valid.
  - apply (frames_ret R rows_refl).
  - cbn [Continue.summarize_from]. cbv zeta. frame.
    + destruct (i >? 0); frame.
    + by apply rows_insert.
    + apply IH.
Qed.

Lemma rows_resume apiKey body (w : World) :
  (forall document,
     documents w !! Continue.body_documentId body = Some document ->
     Forall pages_in_range_order (Continue.sections_of body document)) ->
  R w (snd (Continue.resume apiKey body w)).
Proof.
  intros Houtline. unfold Continue.resume. cbv zeta. rewrite run_bind.
  unfold db_find_document.
  destruct (documents w !! Continue.body_documentId body) as [document|];
    [|apply rows_refl].
  specialize (Houtline document eq_refl).
  destruct (negb _); [apply rows_refl|].
  revert w. change (frames R ?m) with (forall w, R w (snd (m w))).
  frame. by apply rows_summarize_from.
Qed.

Lemma rows_mark_failed id t : frames R (mark_failed id t).
Proof. unfold mark_failed. frame. Qed.

End ContinueRows.

(** C9, as the specification states it, fails: the continuation stage
    accepts an outline whose descriptor runs from page 5 to page 2,
    completes, and has persisted a row with startPage 5 and endPage 2. *)
Lemma continue_persists_backward_range :
  let rw := Continue.action (H := simple_env [] (fun _ => js "* a summary"))
              (continue_request doc5 (Some [backwards]))
              (world_with 1 (awaiting (js "paper.pdf") [secX])) in
  fst rw = Returned {| code := 200; payload := ContinueDone 1 |}
  /\ ~ Forall row_in_order (sections (snd rw)).
Proof.
  split; [by vm_compute|].
  intros Hrows. vm_compute in Hrows.
  apply Forall_cons in Hrows as [Hrow _]. by apply Hrow.
Qed.

(** C9, amended: the continuation stage only appends rows to the
    sections table, and when every descriptor of the outline it
    summarizes has start_page <= end_page, every row it appends has
    startPage <= endPage; the stage does not check the outline. *)
Theorem continue_rows_in_order `{Env} (request : Continue.Request)
    (w : World) :
  (forall body document,
     Continue.json request = Returned body ->
     documents w !! Continue.body_documentId body = Some document ->
     Forall pages_in_range_order (Continue.sections_of body document)) ->
  exists rows,
    sections (snd (Continue.action request w)) = sections w ++ rows
    /\ Forall row_in_order rows.
Proof.
  intros Houtline. change (appends_rows row_in_order w
                             (snd (Continue.action request w))).
  unfold Continue.action, try_catch at 1.
  destruct (Continue.apiKey request) as [[|c key]|]; try apply rows_refl.
  destruct (Continue.json request) as [body|t] eqn:Hjson; [|apply rows_refl].
  destruct (_ || _); [apply rows_refl|].
  unfold try_catch.
  pose proof (rows_resume (c :: key) body w (fun d => Houtline body d eq_refl))
    as Hresume.
  destruct (Continue.resume (c :: key) body w) as [[reply|t] w'];
    [exact Hresume|].
  simpl in Hresume.
  pose proof (rows_mark_failed (Continue.body_documentId body) t w') as Hfail.
  destruct (mark_failed _ t w') as [[reply|t'] w'']; simpl in Hfail |- *;
    by eapply rows_trans.
Qed.

Lemma continue_rows_in_order_witness :
  exists rows,
    sections (snd (Continue.action
                     (H := simple_env [] (fun _ => js "* a summary"))
                     (continue_request doc5 (Some [secX]))
                     (world_with 1 (awaiting (js "paper.pdf") [secX]))))
    = [] ++ rows
    /\ Forall row_in_order rows.
Proof.
  apply (@continue_rows_in_order (simple_env [] (fun _ => js "* a summary"))
           (continue_request doc5 (Some [secX]))
           (world_with 1 (awaiting (js "paper.pdf") [secX]))).
  intros body document [= <-] _. cbn. constructor; [|done].
  unfold pages_in_range_order. cbn. lia.
Defined.

(** *** The progress of a run *)

(** C2 fails on the code.  A run on a one-chunk text with an outline
    of one section succeeds in both stages, and the values written to
    the progress column are 25, 30, 35, 45, 60, 65, 65, 65, 75, 75, 75,
    95, 100, 95, 98, 100: the last section is reported at 100 before
    the stage reports 95 and 98. *)
Theorem progress_goes_backwards :
  let rw := full_run (H := one_section_env) doc5 None
              (world_with 1 (uploaded (js "paper.pdf"))) in
  fst rw
  = (Returned {| code := 200;
                 payload := ProcessPaused
                   {| pd_documentId := 1;
                      pd_selectedModel := js "models/gemini-2.0-flash";
                      pd_fileName := js "paper.pdf" |} |},
     Returned {| code := 200; payload := ContinueDone 1 |})
  /\ status <$> documents (snd rw) !! 1 = Some completed
  /\ progress_writes 1 (trace (snd rw))
     = [25; 30; 35; 45; 60; 65; 65; 65; 75; 75; 75; 95; 100; 95; 98; 100]
  /\ non_decreasing (progress_writes 1 (trace (snd rw))) = false.
Proof. vm_compute. repeat split. Qed.

Section ProgressFacts.

Context `{Env}.
Variable id : Z.

Local Abbreviation P := (same_progress id).

Lemma progress_writes_snoc (tr : list Event) (e : Event) :
  progress_writes id (tr ++ [e])
  = progress_writes id tr ++ progress_writes id [e].
Proof. unfold progress_writes. by rewrite flat_map_app. Qed.

Lemma progress_writes_status (step message : jsstring) (p : option Z) :
  progress_writes id
    [Updated id ([SetCurrentStep step; SetStatusMessage message]
                 ++ match p with Some p => [SetProgress p] | None => [] end)]
  = match p with Some p => [p] | None => [] end.
Proof.
  unfold progress_writes. cbn [flat_map].
  rewrite bool_decide_eq_true_2 by done. by destruct p.
Qed.

Lemma progress_writes_update (fields : list Field) :
  progress_writes id [Updated id fields] = progress_of_fields fields.
Proof.
  unfold progress_writes. cbn [flat_map].
  rewrite bool_decide_eq_true_2 by done. apply app_nil_r.
Qed.

Lemma progress_same (w w' : World) : trace w' = trace w -> P w w'.
Proof. unfold same_progress. by intros ->. Qed.

Lemma progress_trans (w1 w2 w3 : World) : P w1 w2 -> P w2 w3 -> P w1 w3.
Proof. unfold same_progress. congruence. Qed.

Lemma progress_status_none id' step message :
  frames P (updateDocumentStatus id' step message None).
Proof.
  intros w. unfold same_progress. cbn [updateDocumentStatus db_update snd trace].
  rewrite progress_writes_snoc. unfold progress_writes at 2. cbn [flat_map].
  destruct (bool_decide _); cbn; by rewrite !app_nil_r.
Qed.

Lemma progress_delay ms : frames P (delay ms).
Proof.
  intros w. unfold same_progress. cbn [delay snd trace].
  rewrite progress_writes_snoc. apply app_nil_r.
Qed.

Lemma progress_fetch : frames P fetch.
Proof.
  intros w. unfold same_progress, fetch.
  destruct (fetch_generateContent _); cbn [snd trace];
    rewrite progress_writes_snoc; apply app_nil_r.
Qed.

Lemma progress_summary sectionTitle content apiKey model id' :
  frames P (Continue.createSectionSummary sectionTitle content apiKey model id').
Proof.
  apply frames_createSectionSummary.
  - intros w. by apply progress_same.
  - apply progress_trans.
  - apply progress_status_none.
  - apply progress_delay.
  - apply progress_fetch.
Qed.

(** A loop that returns has written the progress values of each of its
    sections, in order. *)
Lemma summarize_from_progress text apiKey model total (rest : list Section) :
  forall i valid w vs w',
    Continue.summarize_from text apiKey model id total i rest valid w
    = (Returned vs, w') ->
    progress_writes id (trace w')
    = progress_writes id (trace w) ++ loop_progress total i (length rest).
Proof.
  induction rest as [|section rest IH]; intros i valid w vs w' Hrun.
  - injection Hrun as _ <-. by rewrite app_nil_r.
  - cbn [Continue.summarize_from] in Hrun. cbv zeta in Hrun.
    rewrite run_bind in Hrun.
    unfold updateDocumentStatus at 1, db_update at 1 in Hrun.
    cbv beta iota in Hrun. rewrite run_bind in Hrun.
    match type of Hrun with
    | context [(if i >? 0 then delay 2000 else mret ()) ?w1] =>
        pose proof (progress_delay 2000 w1) as Hd;
        assert (exists w2, (if i >? 0 then delay 2000 else mret ()) w1
                           = (Returned (), w2) /\ P w1 w2) as (w2 & E & Hw2)
          by (destruct (i >? 0);
              [by eexists|eexists; split; [done|by apply progress_same]]);
        rewrite E in Hrun; clear E Hd
    end.
    cbv beta iota in Hrun. rewrite run_bind in Hrun.
    unfold updateDocumentStatus at 1, db_update at 1 in Hrun.
    cbv beta iota in Hrun. rewrite run_bind in Hrun.
    match type of Hrun with
    | context [Continue.createSectionSummary ?a ?b ?c ?d ?e ?w3] =>
        pose proof (progress_summary a b c d e w3) as Hs;
        destruct (Continue.createSectionSummary a b c d e w3)
          as [[summary|t] w4]; [|discriminate Hrun]
    end.
    rewrite run_bind in Hrun.
    unfold updateDocumentStatus at 1, db_update at 1 in Hrun.
    cbv beta iota in Hrun. rewrite run_bind in Hrun.
    unfold db_insert_section at 1 in Hrun.
    cbv beta iota in Hrun. rewrite run_bind in Hrun.
    unfold updateDocumentStatus at 1, db_update at 1 in Hrun.
    cbv beta iota in Hrun.
    apply IH in Hrun. rewrite Hrun. cbn [trace length loop_progress].
    unfold same_progress in Hs, Hw2. cbn [snd trace] in Hs, Hw2.
    rewrite !progress_writes_snoc, Hs, !progress_writes_snoc, Hw2,
      !progress_writes_snoc.
    rewrite !(progress_writes_status _ _ (Some _)).
    change (progress_writes id [Inserted _]) with (@nil Z).
    unfold section_progress. rewrite app_nil_r, <- !app_assoc. done.
Qed.

End ProgressFacts.

Lemma round_ratio_whole (total : Z) :
  0 < total -> round_ratio (75 * total + total * 25) total = 100.
Proof.
  intros Ht. unfold round_ratio. symmetry.
  apply (Z.div_unique _ _ 100 total); lia.
Qed.

Lemma loop_progress_last (total : Z) (k : nat) :
  forall i, exists l,
    loop_progress total i (S k)
    = l ++ [round_ratio (75 * total + (i + Z.of_nat k + 1) * 25) total].
Proof.
  induction k as [|k IH]; intros i.
  - eexists [_; _; _]. cbn [loop_progress section_progress app].
    rewrite Z.add_0_r. reflexivity.
  - destruct (IH (i + 1)) as [l E].
    exists (section_progress total i ++ l).
    change (loop_progress total i (S (S k)))
      with (section_progress total i ++ loop_progress total (i + 1) (S k)).
    rewrite E, <- app_assoc.
    by replace (i + Z.of_nat (S k) + 1) with (i + 1 + Z.of_nat k + 1) by lia.
Qed.

Lemma non_decreasing_drop (l1 l2 : list Z) (a b : Z) :
  b < a -> non_decreasing (l1 ++ a :: b :: l2) = false.
Proof.
  intros Hab. induction l1 as [|c l1 IH].
  - cbn. destruct (Z.leb_spec a b); [lia|done].
  - destruct l1 as [|d l1]; cbn in IH |- *; rewrite IH; apply andb_false_r.
Qed.

Section ContinueProgress.

Context `{Env}.

(** A continuation that answers 200 has written 75, the values of the
    loop over the outline, and 95, 98 and 100. *)
Lemma resume_progress apiKey body (w w' : World) (reply : Reply) :
  Continue.resume apiKey body w = (Returned reply, w') ->
  code reply = 200 ->
  exists document,
    documents w !! Continue.body_documentId body = Some document
    /\ let total := length (Continue.sections_of body document) in
       progress_writes (Continue.body_documentId body) (trace w')
       = progress_writes (Continue.body_documentId body) (trace w)
         ++ [75] ++ loop_progress (Z.of_nat total) 0 total ++ [95; 98; 100].
Proof.
  intros Hrun Hcode. unfold Continue.resume in Hrun. cbv zeta in Hrun.
  rewrite run_bind in Hrun. unfold db_find_document in Hrun.
  destruct (documents w !! Continue.body_documentId body) as [document|];
    [|by injection Hrun as <- _].
  exists document. split; [done|].
  destruct (negb _); [by injection Hrun as <- _|].
  rewrite run_bind in Hrun. unfold new_Date at 1 in Hrun.
  cbv beta iota in Hrun. rewrite run_bind in Hrun.
  unfold db_update at 1 in Hrun. cbv beta iota in Hrun.
  rewrite run_bind in Hrun.
  unfold updateDocumentStatus at 1, db_update at 1 in Hrun.
  cbv beta iota in Hrun. rewrite run_bind in Hrun.
  match type of Hrun with
  | context [Continue.summarize_from ?a ?b ?c ?d ?e ?f ?g ?h ?w1] =>
      pose proof (summarize_from_progress d a b c e g f h w1) as Hloop;
      destruct (Continue.summarize_from a b c d e f g h w1)
        as [[valid|t] w2]; [|discriminate Hrun]
  end.
  specialize (Hloop valid w2 eq_refl).
  rewrite run_bind in Hrun.
  unfold updateDocumentStatus at 1, db_update at 1 in Hrun.
  cbv beta iota in Hrun. rewrite run_bind in Hrun.
  unfold updateDocumentStatus at 1, db_update at 1 in Hrun.
  cbv beta iota in Hrun. rewrite run_bind in Hrun.
  unfold new_Date at 1 in Hrun. cbv beta iota in Hrun.
  rewrite run_bind in Hrun. unfold db_update at 1 in Hrun.
  cbv beta iota in Hrun. injection Hrun as _ <-.
  cbv zeta. cbn [trace]. cbn [trace] in Hloop.
  rewrite !progress_writes_snoc, Hloop, !progress_writes_snoc.
  rewrite !progress_writes_update. cbn [progress_of_fields app].
  rewrite !app_nil_r, <- !app_assoc. done.
Qed.

End ContinueProgress.

(** Whatever the service and the outline, a continuation that succeeds
    on at least one section writes 100 for its last section and 95
    right after it: the progress of no such run is non-decreasing. *)
Theorem continue_progress_regresses `{Env} (request : Continue.Request)
    (body : Continue.Body) (document : Document) (w w' : World)
    (reply : Reply) :
  Continue.json request = Returned body ->
  documents w !! Continue.body_documentId body = Some document ->
  Continue.sections_of body document <> [] ->
  Continue.action request w = (Returned reply, w') ->
  code reply = 200 ->
  non_decreasing (progress_writes (Continue.body_documentId body) (trace w'))
  = false.
Proof.
  intros Hjson Hdoc Hsections Hrun Hcode.
  unfold Continue.action, try_catch at 1 in Hrun.
  destruct (Continue.apiKey request) as [[|c key]|];
    try (injection Hrun as <- _; discriminate Hcode).
  rewrite Hjson in Hrun.
  destruct (_ || _); [injection Hrun as <- _; discriminate Hcode|].
  unfold try_catch in Hrun.
  destruct (Continue.resume (c :: key) body w) as [[reply'|t] w1] eqn:Hresume.
  - injection Hrun as -> ->.
    destruct (resume_progress _ _ _ _ _ Hresume Hcode) as (d & Hd & E).
    rewrite Hdoc in Hd. injection Hd as <-. cbv zeta in E. rewrite E.
    destruct (Continue.sections_of body document) as [|s rest]; [done|].
    cbn [length].
    destruct (loop_progress_last (Z.of_nat (S (length rest))) (length rest) 0)
      as [l ->].
    replace ((0 + Z.of_nat (length rest) + 1) * 25)
      with (Z.of_nat (S (length rest)) * 25) by lia.
    rewrite round_ratio_whole by lia.
    rewrite <- !app_assoc. cbn [app].
    match goal with
    | |- non_decreasing (?pw ++ 75 :: l ++ _) = false =>
        replace (pw ++ 75 :: l ++ [100; 95; 98; 100])
          with ((pw ++ 75 :: l) ++ 100 :: 95 :: [98; 100])
          by (by rewrite <- app_assoc)
    end.
    by apply non_decreasing_drop.
  - unfold mark_failed in Hrun. rewrite run_bind in Hrun.
    unfold db_update in Hrun. cbv beta iota in Hrun.
    injection Hrun as <- _. discriminate Hcode.
Qed.

Lemma continue_progress_regresses_witness :
  non_decreasing
    (progress_writes 1
       (trace (snd (Continue.action (H := one_section_env)
                      (continue_request doc5 (Some [secX]))
                      (world_with 1 (awaiting (js "paper.pdf") [secX]))))))
  = false.
Proof.
  apply (@continue_progress_regresses one_section_env
           (continue_request doc5 (Some [secX]))
           {| Continue.body_documentId := 1;
              Continue.selectedModel := js "models/gemini-2.0-flash";
              Continue.fileData := js "JVBERi0=";
              Continue.fileName := js "paper.pdf";
              Continue.documentText := doc5;
              Continue.updatedTableOfContents := Some [secX] |}
           (awaiting (js "paper.pdf") [secX])
           (world_with 1 (awaiting (js "paper.pdf") [secX]))
           _ {| code := 200; payload := ContinueDone 1 |}).
  - reflexivity.
  - reflexivity.
  - discriminate.
  - vm_compute. reflexivity.
  - reflexivity.
Defined.

(** * Further properties of the code *)

(** ** Trimming *)

Section TrimFacts.

Lemma trimStart_app (a b : jsstring) :
  trimStart (a ++ b)
  = match trimStart a with [] => trimStart b | t => t ++ b end.
Proof.
  induction a as [|c a IH]; [done|].
  cbn [app trimStart]. by destruct (is_ws c).
Qed.

Lemma trimEnd_cons (c : N) (s : jsstring) :
  trimEnd (c :: s)
  = match trimEnd s with
    | [] => if is_ws c then [] else [c]
    | t => c :: t
    end.
Proof.
  unfold trimEnd. cbn [rev]. rewrite trimStart_app.
  destruct (trimStart (rev s)) as [|d t] eqn:E.
  - cbn. by destruct (is_ws c).
  - rewrite rev_app_distr. cbn [rev app].
    destruct (rev t ++ [d]) eqn:E'; [by destruct (rev t)|done].
Qed.

Lemma trimEnd_nil (s : jsstring) : trimEnd s = [] <-> non_ws s = [].
Proof.
  unfold trimEnd. split.
  - intros E. apply (f_equal (@rev _)) in E. rewrite rev_involutive in E.
    simpl in E. apply trimStart_nil in E. rewrite non_ws_rev in E.
    apply (f_equal (@rev _)) in E. by rewrite rev_involutive in E.
  - intros E. assert (trimStart (rev s) = []) as ->; [|done].
    apply trimStart_nil. by rewrite non_ws_rev, E.
Qed.

(** Trimming at the start and at the end commute. *)
Lemma trimStart_trimEnd (s : jsstring) :
  trimStart (trimEnd s) = trimEnd (trimStart s).
Proof.
  induction s as [|c s IH]; [done|].
  rewrite trimEnd_cons. cbn [trimStart].
  destruct (is_ws c) eqn:Hc.
  - destruct (trimEnd s) as [|d t] eqn:E.
    + symmetry. apply trimEnd_nil. rewrite non_ws_trimStart.
      by apply trimEnd_nil.
    + cbn [trimStart]. by rewrite Hc.
  - rewrite trimEnd_cons.
    destruct (trimEnd s); cbn [trimStart]; by rewrite Hc.
Qed.

Lemma trimStart_idemp (s : jsstring) : trimStart (trimStart s) = trimStart s.
Proof.
  induction s as [|c s IH]; [done|].
  cbn [trimStart]. destruct (is_ws c) eqn:Hc; [done|].
  cbn [trimStart]. by rewrite Hc.
Qed.

Lemma trimEnd_idemp (s : jsstring) : trimEnd (trimEnd s) = trimEnd s.
Proof. unfold trimEnd. by rewrite rev_involutive, trimStart_idemp. Qed.

(** Trimming twice is trimming once. *)
Lemma trim_idemp (s : jsstring) : trim (trim s) = trim s.
Proof.
  unfold trim.
  by rewrite trimStart_trimEnd, trimStart_idemp, trimEnd_idemp.
Qed.

Lemma trimStart_length (s : jsstring) :
  (length (trimStart s) <= length s)%nat.
Proof.
  induction s as [|c s IH]; [done|].
  cbn [trimStart]. destruct (is_ws c); cbn [length]; lia.
Qed.

Lemma trimEnd_length (s : jsstring) : (length (trimEnd s) <= length s)%nat.
Proof.
  unfold trimEnd. rewrite length_rev.
  etransitivity; [apply trimStart_length|]. by rewrite length_rev.
Qed.

(** The line feed that ends a buffer is trimmed away. *)
Lemma trim_line_feed_length (s : jsstring) :
  (length (trim (s ++ [nl])) <= length s)%nat.
Proof.
  unfold trim. rewrite <- trimStart_trimEnd.
  etransitivity; [apply trimStart_length|].
  unfold trimEnd. rewrite rev_app_distr. cbn [rev app trimStart].
  change (is_ws nl) with true. cbv iota.
  rewrite length_rev. etransitivity; [apply trimStart_length|].
  by rewrite length_rev.
Qed.

End TrimFacts.

(** ** The chunking engine, further *)

Section ChunkBudget.

Variables maxChars bound : Z.
Hypothesis budget_below_bound : maxChars <= bound.

Lemma chunk_fold_bound (lines : list jsstring) (chunks : list jsstring)
    (cur : jsstring) :
  Forall (fun l => Z.of_nat (length l) <= bound) lines ->
  Forall (fun c => Z.of_nat (length c) <= bound) chunks ->
  buffer_ok bound cur ->
  let '(chunks', cur') := fold_left (chunk_step maxChars) lines (chunks, cur) in
  Forall (fun c => Z.of_nat (length c) <= bound) chunks' /\ buffer_ok bound cur'.
Proof.
  revert chunks cur. induction lines as [|line lines IH];
    intros chunks cur Hl Hc Hcur; [done|].
  apply Forall_cons in Hl as [Hline Hl].
  cbn [fold_left]. rewrite chunk_step_eq.
  destruct (_ && _) eqn:E.
  - apply andb_prop in E as [_ E]. apply IH; [done| |].
    + apply Forall_app. split; [done|]. apply Forall_singleton.
      destruct Hcur as [->|(body & -> & Hbody)]; [done|].
      pose proof (trim_line_feed_length body). lia.
    + right. by exists line.
  - apply IH; [done|done|]. right. exists (cur ++ line).
    split; [by rewrite <- app_assoc|].
    apply andb_false_iff in E as [E|E].
    + destruct (Z.gtb_spec (Z.of_nat (length (cur ++ line))) maxChars); [done|].
      lia.
    + destruct cur as [|c cur]; [done|]. by cbn in E.
Qed.

End ChunkBudget.

(** X1: no chunk is longer than the budget, unless a line of the text
    is: every chunk has at most [bound] code units when the budget and
    every line of the text have. *)
Theorem chunks_within_bound (text : jsstring) (maxTokens bound : Z) :
  maxTokens <= bound ->
  Forall (fun l => Z.of_nat (length l) <= bound) (split_nl text) ->
  Forall (fun c => Z.of_nat (length c) <= bound)
    (chunkTextForProcessing text maxTokens).
Proof.
  intros Hb Hlines. unfold chunkTextForProcessing.
  destruct (Z.leb_spec (Z.of_nat (length text)) maxTokens).
  - apply Forall_singleton. lia.
  - pose proof (chunk_fold_bound maxTokens bound Hb (split_nl text) [] [] Hlines)
      as F.
    destruct (fold_left _ _ _) as [chunks cur].
    destruct F as [F Hcur]; [done|by left|].
    destruct (truthy (trim cur)) eqn:E; [|done].
    apply Forall_app. split; [done|]. apply Forall_singleton.
    destruct Hcur as [->|(body & -> & Hbody)]; [done|].
    pose proof (trim_line_feed_length body). lia.
Qed.

Lemma chunks_within_bound_witness :
  Forall (fun c => Z.of_nat (length c) <= 11)
    (chunkTextForProcessing (join_nl [js "alpha"; js "beta"; js "gamma"]) 11).
Proof.
  apply (chunks_within_bound (join_nl [js "alpha"; js "beta"; js "gamma"])
           11 11).
  - lia.
  - vm_compute. repeat constructor; discriminate.
Defined.

Lemma chunk_fold_trimmed (maxChars : Z) (lines : list jsstring)
    (chunks : list jsstring) (cur : jsstring) :
  Forall (fun c => trim c = c) chunks ->
  Forall (fun c => trim c = c)
    (fst (fold_left (chunk_step maxChars) lines (chunks, cur))).
Proof.
  revert chunks cur. induction lines as [|line lines IH];
    intros chunks cur Hc; [done|].
  cbn [fold_left]. rewrite chunk_step_eq.
  destruct (_ && _); apply IH; [|done].
  apply Forall_app. split; [done|]. apply Forall_singleton, trim_idemp.
Qed.

(** X2: the chunks of a text that is longer than the budget have no
    white space at either end. *)
Theorem chunks_are_trimmed (text : jsstring) (maxTokens : Z) :
  maxTokens < Z.of_nat (length text) ->
  Forall (fun c => trim c = c) (chunkTextForProcessing text maxTokens).
Proof.
  intros Hlen. unfold chunkTextForProcessing.
  destruct (Z.leb_spec (Z.of_nat (length text)) maxTokens); [lia|].
  pose proof (chunk_fold_trimmed maxTokens (split_nl text) [] []
                (Forall_nil_2 _)) as F.
  destruct (fold_left _ _ _) as [chunks cur]. cbn [fst] in F.
  destruct (truthy (trim cur)); [|done].
  apply Forall_app. split; [done|]. apply Forall_singleton, trim_idemp.
Qed.

Lemma chunks_are_trimmed_witness :
  Forall (fun c => trim c = c)
    (chunkTextForProcessing (join_nl [js " ab "; js "  cd"]) 3).
Proof.
  apply (chunks_are_trimmed (join_nl [js " ab "; js "  cd"]) 3).
  vm_compute. reflexivity.
Defined.

(** ** The retry/backoff controller, further *)

Section RetryFurther.

Context `{Env} {T : Type}.

Lemma delays_of_snoc (tr : list Event) (e : Event) :
  delays_of (tr ++ [e]) = delays_of tr ++ delays_of [e].
Proof. unfold delays_of. by rewrite flat_map_app. Qed.

(** The block before an attempt always returns; it waits once before a
    retry and not at all before the first attempt. *)
Lemma wait_before_delays (baseDelay : Z) (db : bool) (documentId : option Z)
    (stepName : option jsstring) (attempt : Z) (text : jsstring) (w : World) :
  exists w1,
    wait_before baseDelay db documentId stepName attempt text w
    = (Returned tt, w1)
    /\ requests w1 = requests w
    /\ delays_of (trace w1)
       = delays_of (trace w)
         ++ if attempt >? 0 then [delay_for baseDelay attempt text] else [].
Proof.
  unfold wait_before. destruct (attempt >? 0).
  - rewrite run_bind.
    assert (exists w0, report_wait db documentId stepName
                         (delay_for baseDelay attempt text) w
                       = (Returned tt, w0)
                       /\ requests w0 = requests w
                       /\ delays_of (trace w0) = delays_of (trace w))
      as (w0 & -> & Hreq & Hdel).
    { unfold report_wait.
      destruct db, documentId as [id|], stepName as [step|];
        try (by eexists).
      destruct (_ && _); [|by eexists].
      eexists. split; [reflexivity|]. split; [done|].
      cbn [updateDocumentStatus db_update snd trace].
      rewrite delays_of_snoc. apply app_nil_r. }
    eexists. split; [reflexivity|]. cbn [requests trace]. split; [done|].
    by rewrite delays_of_snoc, Hdel.
  - eexists. split; [reflexivity|]. split; [done|]. by rewrite app_nil_r.
Qed.

Variable script : nat -> Outcome T.
Variable errors : nat -> ErrorObj.
Variables maxRetries baseDelay : Z.
Variable db : bool.
Variable documentId : option Z.
Variable stepName : option jsstring.

(** The loop from attempt [attempt] on, when the next [j] calls hit the
    rate limit and the call after them ends the loop. *)
Lemma retry_loop_outcome (j : nat) :
  forall (attempt : Z) (lastError : Thrown) (lastErrorText : jsstring)
         (w : World),
    0 <= attempt -> attempt + Z.of_nat j <= maxRetries ->
    (forall i, (i < j)%nat ->
       script (requests w + i)%nat = Threw (Value (errors i))
       /\ is_rate_limit (errors i) = true) ->
    ends_retry maxRetries (attempt + Z.of_nat j) (script (requests w + j)%nat) ->
    exists w',
      retry_loop (scripted script) maxRetries baseDelay db documentId
        stepName (Z.to_nat (maxRetries + 1 - attempt)) attempt
        lastError lastErrorText w
      = (script (requests w + j)%nat, w')
      /\ requests w' = (requests w + j + 1)%nat
      /\ delays_of (trace w')
         = delays_of (trace w)
           ++ (if attempt >? 0
               then [delay_for baseDelay attempt lastErrorText] else [])
           ++ map (fun i => delay_for baseDelay (attempt + Z.of_nat i + 1)
                              (error_text_of (errors i)))
                (seq 0 j).
Proof.
  revert errors.
  induction j as [|j IH];
    intros errs attempt lastError lastErrorText w Ha Hj Hfail Hend.
  - replace (Z.to_nat (maxRetries + 1 - attempt))
      with (S (Z.to_nat (maxRetries - attempt))) by lia.
    cbn [retry_loop]. unfold try_catch. rewrite run_bind.
    destruct (wait_before_delays baseDelay db documentId stepName attempt
                lastErrorText w) as (w1 & -> & Hreq & Hdel).
    unfold scripted at 1. rewrite Hreq.
    rewrite Nat.add_0_r, Z.add_0_r in *.
    assert (forall w2 : World,
              requests w2 = S (requests w) ->
              delays_of (trace w2) = delays_of (trace w1) ->
              requests w2 = (requests w + 1)%nat
              /\ delays_of (trace w2)
                 = delays_of (trace w)
                   ++ (if attempt >? 0
                       then [delay_for baseDelay attempt lastErrorText]
                       else []) ++ map (fun i => delay_for baseDelay
                                          (attempt + Z.of_nat i + 1)
                                          (error_text_of (errs i))) (seq 0 0))
      as Hfinal.
    { intros w2 Hr Hd. rewrite Hd, Hdel. cbn [seq map].
      rewrite app_nil_r. split; [lia|done]. }
    destruct (script (requests w)) as [v|[| |e]] eqn:Hs; [|done|done|].
    + eexists. split; [reflexivity|]. apply Hfinal; [done|].
      cbn [trace]. rewrite delays_of_snoc. apply app_nil_r.
    + destruct Hend as [-> | Hnr].
      * rewrite Z.eqb_refl. eexists. split; [reflexivity|].
        apply Hfinal; [done|].
        cbn [trace]. rewrite delays_of_snoc. apply app_nil_r.
      * rewrite Hnr. destruct (_ =? _); (eexists; split; [reflexivity|]);
          (apply Hfinal; [done|]);
          cbn [trace]; rewrite delays_of_snoc; apply app_nil_r.
  - replace (Z.to_nat (maxRetries + 1 - attempt))
      with (S (Z.to_nat (maxRetries + 1 - (attempt + 1)))) by lia.
    cbn [retry_loop]. unfold try_catch. rewrite run_bind.
    destruct (wait_before_delays baseDelay db documentId stepName attempt
                lastErrorText w) as (w1 & -> & Hreq & Hdel).
    destruct (Hfail 0%nat) as (He & Hrate); [lia|].
    rewrite Nat.add_0_r in He.
    unfold scripted at 1. rewrite Hreq, He.
    destruct (Z.eqb_spec attempt maxRetries) as [|_]; [lia|].
    rewrite Hrate.
    match goal with
    | |- context [retry_loop _ _ _ _ _ _ _ _ ?le ?lt ?w2] =>
        destruct (IH (fun i => errs (S i)) (attempt + 1) le lt w2)
          as (w' & E & Hreq' & Hdel')
    end.
    + lia.
    + lia.
    + intros i Hi. destruct (Hfail (S i)) as (He' & Hrate'); [lia|].
      split; [|done]. rewrite <- He'. cbn [requests]. f_equal. lia.
    + cbn [requests].
      replace (S (requests w) + j)%nat with (requests w + S j)%nat by lia.
      by replace (attempt + 1 + Z.of_nat j) with (attempt + Z.of_nat (S j))
        by lia.
    + cbn [requests] in E, Hreq'.
      replace (S (requests w) + j)%nat with (requests w + S j)%nat in E by lia.
      exists w'. split; [exact E|]. split; [lia|].
      rewrite Hdel'. cbn [trace]. rewrite delays_of_snoc, Hdel.
      destruct (Z.gtb_spec (attempt + 1) 0); [|lia].
      rewrite app_nil_r, <- !app_assoc. f_equal. f_equal.
      cbn [seq map app]. rewrite Z.add_0_r. f_equal.
      rewrite <- seq_shift, map_map. apply map_ext. intros i.
      f_equal. lia.
Qed.

End RetryFurther.

(** X3: a value returned by the first call is returned at once, with
    the world that the call left: there is no wait and no status
    update on the way to a success. *)
Theorem retry_returns_first_success `{Env} {T : Type} (fn : M T)
    (maxRetries baseDelay : Z) (db : bool) (documentId : option Z)
    (stepName : option jsstring) (w w' : World) (v : T) :
  0 <= maxRetries ->
  fn w = (Returned v, w') ->
  retryWithBackoff fn maxRetries baseDelay db documentId stepName w
  = (Returned v, w').
Proof.
  intros Hmax Hfn. unfold retryWithBackoff.
  replace (Z.to_nat (maxRetries + 1)) with (S (Z.to_nat maxRetries)) by lia.
  cbn [retry_loop]. unfold try_catch, wait_before.
  change (0 >? 0) with false. cbv iota. by rewrite run_bind, run_ret, Hfn.
Qed.

Lemma retry_returns_first_success_witness :
  retryWithBackoff (H := simple_env [] (fun _ => []))
    (scripted always_seven) 3 1000 true (Some 1)
    (Some (js "generating_summaries"))
    (world_with 1 (uploaded (js "paper.pdf")))
  = scripted always_seven (world_with 1 (uploaded (js "paper.pdf"))).
Proof.
  apply (@retry_returns_first_success (simple_env [] (fun _ => [])) Z
           (scripted always_seven) 3 1000 true (Some 1)
           (Some (js "generating_summaries"))
           (world_with 1 (uploaded (js "paper.pdf")))).
  - lia.
  - reflexivity.
Defined.

(** X4: when every call hits the rate limit, the loop gives up after
    maxRetries + 1 calls and maxRetries waits, and throws the error of
    the last call. *)
Theorem retry_gives_up_after_max `{Env} {T : Type}
    (script : nat -> Outcome T) (errors : nat -> ErrorObj)
    (maxRetries baseDelay : Z) (db : bool) (documentId : option Z)
    (stepName : option jsstring) (w : World) :
  0 <= maxRetries ->
  (forall i, (i <= Z.to_nat maxRetries)%nat ->
     script (requests w + i)%nat = Threw (Value (errors i))
     /\ is_rate_limit (errors i) = true) ->
  let rw := retryWithBackoff (scripted script) maxRetries baseDelay db
              documentId stepName w in
  fst rw = Threw (Value (errors (Z.to_nat maxRetries)))
  /\ requests (snd rw) = (requests w + Z.to_nat maxRetries + 1)%nat
  /\ length (delays_of (trace (snd rw)))
     = (length (delays_of (trace w)) + Z.to_nat maxRetries)%nat.
Proof.
  intros Hmax Hfail. unfold retryWithBackoff.
  destruct (retry_loop_outcome script errors maxRetries baseDelay db
              documentId stepName (Z.to_nat maxRetries) 0 Undefined [] w)
    as (w' & E & Hreq & Hdel).
  - lia.
  - lia.
  - intros i Hi. apply Hfail. lia.
  - destruct (Hfail (Z.to_nat maxRetries)) as [-> _]; [lia|].
    left. lia.
  - rewrite Z.sub_0_r in E. cbv zeta. rewrite E. cbn [fst snd].
    destruct (Hfail (Z.to_nat maxRetries)) as [-> _]; [lia|].
    split; [done|]. split; [done|].
    rewrite Hdel. change (0 >? 0) with false. cbv iota.
    by rewrite !length_app, length_map, length_seq.
Qed.

Lemma retry_gives_up_after_max_witness :
  let rw := retryWithBackoff (H := simple_env [] (fun _ => []))
              (scripted always_limited) 3 1000
              true (Some 1) (Some (js "generating_summaries"))
              (world_with 1 (uploaded (js "paper.pdf"))) in
  fst rw = Threw (Value rate_limit_error)
  /\ requests (snd rw) = 4%nat
  /\ length (delays_of (trace (snd rw))) = 3%nat.
Proof.
  apply (@retry_gives_up_after_max (simple_env [] (fun _ => [])) Z
           always_limited
           (fun _ => rate_limit_error) 3 1000 true (Some 1)
           (Some (js "generating_summaries"))
           (world_with 1 (uploaded (js "paper.pdf")))).
  - lia.
  - intros i _. split; reflexivity.
Defined.

(** X5: the waits double.  When the texts of the rate-limit errors are
    not JSON, the waits before the retries are baseDelay, 2 baseDelay,
    4 baseDelay and so on, whatever ends the loop. *)
Theorem retry_waits_double `{Env} {T : Type}
    (script : nat -> Outcome T) (errors : nat -> ErrorObj)
    (maxRetries baseDelay : Z) (db : bool) (documentId : option Z)
    (stepName : option jsstring) (k : nat) (w : World) :
  Z.of_nat k <= maxRetries ->
  (forall i, (i < k)%nat ->
     script (requests w + i)%nat = Threw (Value (errors i))
     /\ is_rate_limit (errors i) = true
     /\ JSON_parse (error_text_of (errors i)) = None) ->
  ends_retry maxRetries (Z.of_nat k) (script (requests w + k)%nat) ->
  let rw := retryWithBackoff (scripted script) maxRetries baseDelay db
              documentId stepName w in
  fst rw = script (requests w + k)%nat
  /\ delays_of (trace (snd rw))
     = delays_of (trace w)
       ++ map (fun i => baseDelay * 2 ^ Z.of_nat i) (seq 0 k).
Proof.
  intros Hk Hfail Hend. unfold retryWithBackoff.
  destruct (retry_loop_outcome script errors maxRetries baseDelay db
              documentId stepName k 0 Undefined [] w)
    as (w' & E & Hreq & Hdel).
  - lia.
  - lia.
  - intros i Hi. destruct (Hfail i Hi) as (? & ? & _). done.
  - done.
  - rewrite Z.sub_0_r in E. cbv zeta. rewrite E. cbn [fst snd].
    split; [done|]. rewrite Hdel. change (0 >? 0) with false. cbv iota.
    cbn [app]. f_equal. apply map_ext_in. intros i Hi%in_seq.
    destruct (Hfail i) as (_ & _ & Hjson); [lia|].
    unfold delay_for, parseRetryDelay. rewrite Hjson.
    change (0 >? 0) with false. cbv iota. f_equal. f_equal. lia.
Qed.

Lemma retry_waits_double_witness :
  let rw := retryWithBackoff (H := simple_env [] (fun _ => []))
              (scripted twice_limited) 3 1000 true (Some 1)
              (Some (js "generating_summaries"))
              (world_with 1 (uploaded (js "paper.pdf"))) in
  fst rw = Returned 7
  /\ delays_of (trace (snd rw)) = [1000; 2000].
Proof.
  apply (@retry_waits_double (simple_env [] (fun _ => [])) Z twice_limited
           (fun _ => rate_limit_error) 3 1000 true (Some 1)
           (Some (js "generating_summaries")) 2
           (world_with 1 (uploaded (js "paper.pdf")))).
  - lia.
  - intros [|[|i]] Hi; [| |lia]; repeat split; reflexivity.
  - exact I.
Defined.

(** X6: the interval that the service suggests replaces the backoff.
    The text that is read is the one the failed call left on its
    error: the errorText property when it is a non-empty string, the
    responseText property otherwise.  When the text of each rate-limit
    error carries a positive retry delay, the wait after that error is
    that delay. *)
Theorem retry_waits_as_suggested `{Env} {T : Type}
    (script : nat -> Outcome T) (errors : nat -> ErrorObj)
    (texts : nat -> jsstring) (suggested : nat -> Z)
    (maxRetries baseDelay : Z) (db : bool) (documentId : option Z)
    (stepName : option jsstring) (k : nat) (w : World) :
  Z.of_nat k <= maxRetries ->
  (forall i, (i < k)%nat ->
     script (requests w + i)%nat = Threw (Value (errors i))
     /\ is_rate_limit (errors i) = true
     /\ texts i <> []
     /\ (errorText (errors i) = Some (texts i)
         \/ (errorText (errors i) = None \/ errorText (errors i) = Some [])
            /\ responseText (errors i) = Some (texts i))
     /\ parseRetryDelay (texts i) = Some (suggested i)
     /\ 0 < suggested i) ->
  ends_retry maxRetries (Z.of_nat k) (script (requests w + k)%nat) ->
  let rw := retryWithBackoff (scripted script) maxRetries baseDelay db
              documentId stepName w in
  fst rw = script (requests w + k)%nat
  /\ delays_of (trace (snd rw))
     = delays_of (trace w) ++ map suggested (seq 0 k).
Proof.
  intros Hk Hfail Hend. unfold retryWithBackoff.
  destruct (retry_loop_outcome script errors maxRetries baseDelay db
              documentId stepName k 0 Undefined [] w)
    as (w' & E & Hreq & Hdel).
  - lia.
  - lia.
  - intros i Hi. destruct (Hfail i Hi) as (? & ? & _). done.
  - done.
  - rewrite Z.sub_0_r in E. cbv zeta. rewrite E. cbn [fst snd].
    split; [done|]. rewrite Hdel. change (0 >? 0) with false. cbv iota.
    cbn [app]. f_equal. apply map_ext_in. intros i Hi%in_seq.
    destruct (Hfail i) as (_ & _ & Hne & Htext & Hsug & Hpos); [lia|].
    assert (error_text_of (errors i) = texts i) as ->.
    { unfold error_text_of.
      destruct Htext as [-> | [[-> | ->] ->]];
        by destruct (texts i). }
    by apply delay_for_suggested.
Qed.

Lemma retry_waits_as_suggested_witness :
  let rw := retryWithBackoff (H := retry_after_env)
              (scripted limited_7_then_3) 3 1000 true (Some 1)
              (Some (js "generating_summaries"))
              (world_with 1 (uploaded (js "paper.pdf"))) in
  fst rw = Returned 7
  /\ delays_of (trace (snd rw)) = [7000; 3000].
Proof.
  apply (@retry_waits_as_suggested retry_after_env Z limited_7_then_3
           (fun i => limited_error
                       (retry_text (match i with O => js "7s" | _ => js "3s" end)))
           (fun i => retry_text (match i with O => js "7s" | _ => js "3s" end))
           (fun i => match i with O => 7000 | _ => 3000 end)
           3 1000 true (Some 1)
           (Some (js "generating_summaries")) 2
           (world_with 1 (uploaded (js "paper.pdf")))).
  - lia.
  - intros [|[|i]] Hi; [| |lia];
      (split; [reflexivity|]); (split; [reflexivity|]);
      (split; [discriminate|]); (split; [left; reflexivity|]);
      (split; [vm_compute; reflexivity|lia]).
  - exact I.
Defined.

(** X7: with a positive base delay every wait is positive, whatever
    the error text holds: a missing, malformed, zero or negative
    suggestion falls back to the exponential backoff. *)
Theorem wait_is_positive `{Env} (baseDelay attempt : Z) (text : jsstring) :
  0 < baseDelay -> 1 <= attempt ->
  0 < delay_for baseDelay attempt text.
Proof.
  intros Hbase Hattempt. unfold delay_for.
  assert (0 < baseDelay * 2 ^ (attempt - 1)) as Hpow.
  { apply Z.mul_pos_pos; [done|]. apply Z.pow_pos_nonneg; lia. }
  destruct (parseRetryDelay text) as [d|]; [|done].
  by destruct (Z.gtb_spec d 0).
Qed.

Lemma wait_is_positive_witness :
  0 < delay_for (H := retry_info_env) 1000 2 (js "{...}").
Proof. apply (@wait_is_positive retry_info_env 1000 2 (js "{...}")); lia. Defined.

Section RecordsFacts.

Lemma record_of_status_message (d : Document) (step message : jsstring) :
  record_of (fold_left set_field
               [SetCurrentStep step; SetStatusMessage message] d)
  = record_of d.
Proof. by destruct d. Qed.

Lemma same_records_refl (w : World) : same_records w w.
Proof. by split. Qed.

Lemma same_records_trans (w1 w2 w3 : World) :
  same_records w1 w2 -> same_records w2 w3 -> same_records w1 w3.
Proof.
  intros [S1 D1] [S2 D2]. split; [congruence|].
  intros id. by rewrite D2, D1.
Qed.

Lemma same_records_status id step message :
  frames same_records (updateDocumentStatus id step message None).
Proof.
  intros w. split; [done|]. intros id'.
  cbn [updateDocumentStatus db_update snd documents app].
  rewrite lookup_alter. case_decide as E; [subst id'|done].
  destruct (documents w !! id) as [d|]; [|done].
  cbn [fmap option_fmap option_map]. f_equal. apply record_of_status_message.
Qed.

Lemma same_records_delay ms : frames same_records (delay ms).
Proof. intros w. by split. Qed.

End RecordsFacts.

(** X8: the retry controller writes status messages only.  When the
    function leaves the sections table and the records of the documents
    (every column but currentStep and statusMessage) as they are, so
    does retryWithBackoff around it. *)
Theorem retry_keeps_records `{Env} {T : Type} (fn : M T)
    (maxRetries baseDelay : Z) (db : bool) (documentId : option Z)
    (stepName : option jsstring) :
  frames same_records fn ->
  frames same_records
    (retryWithBackoff fn maxRetries baseDelay db documentId stepName).
Proof.
  intros Hfn. apply frames_retryWithBackoff; [| | | |done].
  - apply same_records_refl.
  - apply same_records_trans.
  - apply same_records_status.
  - apply same_records_delay.
Qed.

Lemma retry_keeps_records_witness :
  same_records (world_with 1 (uploaded (js "paper.pdf")))
    (snd (retryWithBackoff (H := simple_env [] (fun _ => []))
            (scripted twice_limited) 3 1000 true (Some 1)
            (Some (js "generating_summaries"))
            (world_with 1 (uploaded (js "paper.pdf"))))).
Proof.
  apply (@retry_keeps_records (simple_env [] (fun _ => [])) Z
           (scripted twice_limited) 3 1000 true (Some 1)
           (Some (js "generating_summaries"))).
  intros w. split; [reflexivity|]. intros id. reflexivity.
Defined.

(** ** The section-content extractor, further *)

(** X9: the content returned has no white space at either end. *)
Theorem extract_is_trimmed (lower : jsstring -> jsstring)
    (documentText : jsstring) (section : Section)
    (nextSection : option Section) :
  trim (extractSectionContent lower documentText section nextSection)
  = extractSectionContent lower documentText section nextSection.
Proof. unfold extractSectionContent. cbv zeta. apply trim_idemp. Qed.

Section ExtractOrigin.

Lemma paged_origin (lines : list jsstring) (page : Z) :
  Forall (fun pl => (snd pl ∈ lines) /\ pageMatch (snd pl) = None)
    (paged lines page).
Proof.
  apply Forall_and. split; [apply paged_lines|apply paged_no_marker].
Qed.

Lemma trim_unlines_origin (lines ls : list jsstring) :
  Forall (fun l => (l ∈ lines) /\ pageMatch l = None) ls ->
  Forall (fun l => l = [] \/ piece_of_text lines l)
    (split_nl (trim (unlines ls))).
Proof.
  intros Hls. apply Forall_forall. intros l Hl.
  apply split_from_infix in Hl as [Hnl (a & b & E)]; [|apply not_elem_of_nil].
  destruct l as [|c l]; [by left|]. right.
  destruct (trim_infix (unlines ls)) as (a' & b' & E').
  rewrite app_nil_l in E. rewrite E in E'.
  destruct (infix_unlines ls (a' ++ a) (c :: l) (b ++ b'))
    as (l0 & x & y & Hin & ->); [done|done|by rewrite E', <- !app_assoc|].
  rewrite Forall_forall in Hls. destruct (Hls _ Hin) as [Hmem Hplain].
  by exists (x ++ (c :: l) ++ y), x, y.
Qed.

End ExtractOrigin.

(** X10: the extractor invents nothing.  Every line of the content is
    empty or a piece of a line of the document text that is not a page
    marker. *)
Theorem extract_lines_come_from_text (lower : jsstring -> jsstring)
    (documentText : jsstring) (section : Section)
    (nextSection : option Section) :
  Forall (fun l => l = [] \/ piece_of_text (split_nl documentText) l)
    (split_nl (extractSectionContent lower documentText section nextSection)).
Proof.
  rewrite extract_lines. cbv zeta.
  destruct (_ =? _)%nat; apply trim_unlines_origin.
  - unfold page_lines. apply Forall_fmap, Forall_take_while,
      Forall_drop_while, paged_origin.
  - unfold anchor_lines. apply Forall_fmap, Forall_take_while,
      Forall_drop_while, paged_origin.
Qed.

(** X11: a section that starts after the last page of the text has no
    content: when every line of the text is on a page before
    start_page, both passes capture nothing.  The page of a line is
    the number that parseInt reads from the last marker before it, a
    double: a marker written above 2^53 counts as the nearest double. *)
Theorem extract_beyond_last_page (lower : jsstring -> jsstring)
    (documentText : jsstring) (section : Section)
    (nextSection : option Section) :
  Forall (fun pl => fst pl < start_page section)
    (paged (split_nl documentText) 1) ->
  extractSectionContent lower documentText section nextSection = [].
Proof.
  intros Hpages. rewrite extract_lines. cbv zeta.
  assert (anchor_lines lower section nextSection false
            (paged (split_nl documentText) 1) = []) as ->.
  { unfold anchor_lines.
    rewrite <- (app_nil_r (paged _ _)), drop_while_all; [done|].
    eapply Forall_impl; [exact Hpages|]. intros pl Hpl. simpl in Hpl.
    unfold starts_section. rewrite Z.geb_leb.
    by destruct (Z.leb_spec (start_page section) (fst pl)); [lia|]. }
  assert (page_lines section false (paged (split_nl documentText) 1) = [])
    as ->; [|done].
  unfold page_lines.
  rewrite <- (app_nil_r (paged _ _)), drop_while_all; [done|].
  eapply Forall_impl; [exact Hpages|]. intros pl Hpl. simpl in Hpl.
  rewrite Z.geb_leb.
  by destruct (Z.leb_spec (start_page section) (fst pl)); [lia|].
Qed.

Lemma extract_beyond_last_page_witness :
  extractSectionContent (map lower_ascii) doc5
    {| title := js "X"; start_page := 6; end_page := 9;
       start_text := None; end_text := None |} None
  = [].
Proof.
  apply (extract_beyond_last_page (map lower_ascii) doc5
           {| title := js "X"; start_page := 6; end_page := 9;
              start_text := None; end_text := None |} None).
  vm_compute. repeat constructor.
Defined.

Lemma includes_nil (s : jsstring) : includes s [] = true.
Proof. by destruct s. Qed.

Lemma take_while_head_false {A} (p : A -> bool) (l : list A) :
  Forall (fun x => p x = false) l -> take_while p l = [].
Proof. intros [|x l' Hx _]; [done|]. cbn. by rewrite Hx. Qed.

(** X12: a next descriptor with an empty title stops the anchor pass on
    its first line, since every line contains the empty text: the
    content is then what the page-number pass gives. *)
Theorem extract_with_empty_next_title (lower : jsstring -> jsstring)
    (documentText : jsstring) (section next : Section) :
  lower [] = [] ->
  title next = [] ->
  extractSectionContent lower documentText section (Some next)
  = trim (page_pass section (split_nl documentText) false 1 []).
Proof.
  intros Hlower Htitle. unfold extractSectionContent. cbv zeta.
  rewrite anchor_pass_lines.
  assert (anchor_lines lower section (Some next) false
            (paged (split_nl documentText) 1) = []) as ->; [|done].
  unfold anchor_lines. rewrite take_while_head_false; [done|].
  apply Forall_forall. intros pl _. unfold stays_in_section, next_match,
    anchor_match. rewrite Htitle, Hlower, includes_nil.
  cbn [orb negb]. apply andb_false_r.
Qed.

Lemma extract_with_empty_next_title_witness :
  extractSectionContent (map lower_ascii) doc5 secX
    (Some {| title := []; start_page := 5; end_page := 5;
             start_text := None; end_text := None |})
  = trim (page_pass secX (split_nl doc5) false 1 []).
Proof.
  apply (extract_with_empty_next_title (map lower_ascii) doc5 secX
           {| title := []; start_page := 5; end_page := 5;
              start_text := None; end_text := None |}).
  - reflexivity.
  - reflexivity.
Defined.

(** ** The routes, further *)

Section RunFacts.

Lemma bind_returned {A B} (m : M A) (k : A -> M B) (w w' : World) (b : B) :
  (m ≫= k) w = (Returned b, w') ->
  exists a w1, m w = (Returned a, w1) /\ k a w1 = (Returned b, w').
Proof.
  rewrite run_bind. destruct (m w) as [[a|t] w1]; [|done].
  intros E. by exists a, w1.
Qed.

Lemma bind_threw {A B} (m : M A) (k : A -> M B) (w w' : World) (t : Thrown) :
  (m ≫= k) w = (Threw t, w') ->
  m w = (Threw t, w')
  \/ exists a w1, m w = (Returned a, w1) /\ k a w1 = (Threw t, w').
Proof.
  rewrite run_bind. destruct (m w) as [[a|t'] w1]; intros E.
  - right. by exists a, w1.
  - injection E as -> ->. by left.
Qed.

Lemma run_db_update id fields (w : World) :
  db_update id fields w = (Returned tt, after_update id fields w).
Proof. reflexivity. Qed.

Lemma run_status id step message progress (w : World) :
  updateDocumentStatus id step message progress w
  = (Returned tt,
     after_update id
       ([SetCurrentStep step; SetStatusMessage message]
        ++ match progress with Some p => [SetProgress p] | None => [] end)
       w).
Proof. reflexivity. Qed.

Lemma after_update_documents id fields (w : World) :
  documents (after_update id fields w)
  = alter (fun d => fold_left set_field fields d) id (documents w).
Proof. reflexivity. Qed.

Lemma requests_after_update id fields (w : World) :
  requests (after_update id fields w) = requests w.
Proof. reflexivity. Qed.

Lemma after_update_lookup id fields (w : World) (d : Document) :
  documents w !! id = Some d ->
  documents (after_update id fields w) !! id
  = Some (fold_left set_field fields d).
Proof.
  intros Hd. rewrite after_update_documents, lookup_alter.
  rewrite decide_True by done. by rewrite Hd.
Qed.

(** What follows a computation and respects [R] relates the world in
    between with the world at the end. *)
Lemma frames_rest (R : World -> World -> Prop) {A B} (m : M A)
    (k : A -> M B) (w : World) :
  (forall w0, R w0 w0) -> (forall a, frames R (k a)) ->
  R (snd (m w)) (snd ((m ≫= k) w)).
Proof.
  intros Hrefl Hk. rewrite run_bind.
  destruct (m w) as [[a|t] w1]; [apply Hk|apply Hrefl].
Qed.

Lemma frames_run (R : World -> World -> Prop) {A} (m : M A) (w w1 : World)
    (o : Outcome A) :
  frames R m -> m w = (o, w1) -> R w w1.
Proof. intros F E. specialize (F w). by rewrite E in F. Qed.

End RunFacts.

Section PresenceFacts.

Context `{Env}.

Local Abbreviation D := same_documents_present.

Lemma present_same (w w' : World) : documents w' = documents w -> D w w'.
Proof. intros E id. by rewrite E. Qed.

Lemma present_refl (w : World) : D w w.
Proof. by apply present_same. Qed.

Lemma present_trans (w1 w2 w3 : World) : D w1 w2 -> D w2 w3 -> D w1 w3.
Proof. intros H1 H2 id. etransitivity; [apply H2|apply H1]. Qed.

Lemma present_db_update id fields : frames D (db_update id fields).
Proof.
  intros w id'. cbn [db_update snd documents]. rewrite lookup_alter.
  destruct (decide (id = id')) as [->|]; [by rewrite fmap_is_Some|tauto].
Qed.

Lemma present_status id step message progress :
  frames D (updateDocumentStatus id step message progress).
Proof. apply present_db_update. Qed.

Lemma present_delay ms : frames D (delay ms).
Proof. intros w. by apply present_same. Qed.

Lemma present_fetch : frames D fetch.
Proof.
  intros w. unfold fetch.
  destruct (fetch_generateContent _); by apply present_same.
Qed.

Lemma present_insert row : frames D (db_insert_section row).
Proof. intros w. by apply present_same. Qed.

Lemma present_new_Date : frames D new_Date.
Proof. intros w. apply present_refl. Qed.

Lemma present_summary sectionTitle content apiKey model id :
  frames D (Continue.createSectionSummary sectionTitle content apiKey model id).
Proof.
  apply frames_createSectionSummary.
  - apply present_refl.
  - apply present_trans.
  - intros. apply present_status.
  - apply present_delay.
  - apply present_fetch.
Qed.

Ltac present :=
  repeat first
    [ apply present_status | apply present_delay | apply present_new_Date
    | apply present_db_update | apply present_summary | apply present_insert
    | apply (frames_ret D present_refl) | apply (frames_throw D present_refl)
    | apply (frames_bind D present_trans); [|intros ?] ].

Lemma present_summarize_from text apiKey model id total (rest : list Section) :
  forall i valid,
    frames D (Continue.summarize_from text apiKey model id total i rest valid).
Proof.
  induction rest as [|section rest IH]; intros i valid.
  - apply (frames_ret D present_refl).
  - cbn [Continue.summarize_from]. cbv zeta. present.
    + destruct (i >? 0); present.
    + apply IH.
Qed.

End PresenceFacts.

Section ContinueStructure.

Context `{Env}.

Lemma after_update_facts id fields (w : World) :
  sections (after_update id fields w) = sections w
  /\ requests (after_update id fields w) = requests w
  /\ same_documents_present w (after_update id fields w).
Proof. repeat split; try done; apply (present_db_update id fields w). Qed.

Lemma present_after_update id fields (w : World) :
  same_documents_present w (after_update id fields w).
Proof. apply after_update_facts. Qed.

(** The gate of the continuation, and what is left of the inner [try]
    block behind it: two status writes, the summarization loop, and
    the three writes that complete the document. *)
Lemma resume_returned apiKey body (w w' : World) (reply : Reply) :
  Continue.resume apiKey body w = (Returned reply, w') ->
  (w' = w
   /\ (reply = json_error (js "Document not found") 404
       /\ documents w !! Continue.body_documentId body = None
       \/ reply = json_error (js "Document not awaiting approval") 400
          /\ exists d, documents w !! Continue.body_documentId body = Some d
                       /\ status d <> awaiting_outline_approval))
  \/ exists d w2 valid w3 w5 message time,
       documents w !! Continue.body_documentId body = Some d
       /\ status d = awaiting_outline_approval
       /\ sections w2 = sections w /\ requests w2 = requests w
       /\ same_documents_present w w2
       /\ Continue.summarize_from (Continue.documentText body) apiKey
            (Continue.selectedModel body) (Continue.body_documentId body)
            (Z.of_nat (length (Continue.sections_of body d))) 0
            (Continue.sections_of body d) [] w2
          = (Returned valid, w3)
       /\ sections w5 = sections w3 /\ requests w5 = requests w3
       /\ same_documents_present w3 w5
       /\ w' = after_update (Continue.body_documentId body)
                 [SetStatus completed; SetCurrentStep (js "completed");
                  SetProgress 100; SetStatusMessage message;
                  SetCompletedAt time] w5
       /\ reply = {| code := 200;
                     payload := ContinueDone (Z.of_nat (length valid)) |}.
Proof.
  intros Hrun. unfold Continue.resume in Hrun. cbv zeta in Hrun.
  rewrite run_bind in Hrun. unfold db_find_document in Hrun.
  destruct (documents w !! Continue.body_documentId body) as [d|] eqn:Hd.
  2:{ injection Hrun as <- <-. left. split; [done|]. by left. }
  destruct (bool_decide (status d = awaiting_outline_approval)) eqn:Hs.
  2:{ cbn [negb] in Hrun. injection Hrun as <- <-. left. split; [done|].
      right. split; [done|]. exists d. split; [done|].
      by apply bool_decide_eq_false in Hs. }
  apply bool_decide_eq_true in Hs. cbn [negb] in Hrun. right.
  apply bind_returned in Hrun as (t0 & w0 & E0 & Hrun).
  injection E0 as <- <-.
  apply bind_returned in Hrun as ([] & w1 & E1 & Hrun).
  rewrite run_db_update in E1. injection E1 as <-.
  apply bind_returned in Hrun as ([] & w2 & E2 & Hrun).
  rewrite run_status in E2. injection E2 as <-.
  apply bind_returned in Hrun as (valid & w3 & E3 & Hrun).
  apply bind_returned in Hrun as ([] & w4 & E4 & Hrun).
  rewrite run_status in E4. injection E4 as <-.
  apply bind_returned in Hrun as ([] & w5 & E5 & Hrun).
  rewrite run_status in E5. injection E5 as <-.
  apply bind_returned in Hrun as (t1 & w6 & E6 & Hrun).
  injection E6 as <- <-.
  apply bind_returned in Hrun as ([] & w7 & E7 & Hrun).
  rewrite run_db_update in E7. injection E7 as <-.
  injection Hrun as <- <-.
  eexists d, (after_update _ _ (after_update _ _ w)), valid, w3,
    (after_update _ _ (after_update _ _ w3)), _, _.
  split; [done|]. split; [done|].
  split; [reflexivity|]. split; [reflexivity|].
  split.
  { eapply present_trans; [|exact (present_after_update _ _ _)];
      exact (present_after_update _ _ _). }
  split; [exact E3|].
  split; [reflexivity|]. split; [reflexivity|].
  split.
  { eapply present_trans; [|exact (present_after_update _ _ _)];
      exact (present_after_update _ _ _). }
  split; reflexivity.
Qed.

(** The inner [try] block throws only from the summarization loop. *)
Lemma resume_threw apiKey body (w w' : World) (t : Thrown) :
  Continue.resume apiKey body w = (Threw t, w') ->
  exists d w2,
    documents w !! Continue.body_documentId body = Some d
    /\ status d = awaiting_outline_approval
    /\ sections w2 = sections w /\ requests w2 = requests w
    /\ same_documents_present w w2
    /\ Continue.summarize_from (Continue.documentText body) apiKey
         (Continue.selectedModel body) (Continue.body_documentId body)
         (Z.of_nat (length (Continue.sections_of body d))) 0
         (Continue.sections_of body d) [] w2
       = (Threw t, w').
Proof.
  intros Hrun. unfold Continue.resume in Hrun. cbv zeta in Hrun.
  rewrite run_bind in Hrun. unfold db_find_document in Hrun.
  destruct (documents w !! Continue.body_documentId body) as [d|] eqn:Hd;
    [|done].
  destruct (bool_decide (status d = awaiting_outline_approval)) eqn:Hs;
    [|done].
  apply bool_decide_eq_true in Hs. cbn [negb] in Hrun.
  rewrite run_bind in Hrun. unfold new_Date at 1 in Hrun.
  rewrite run_bind, run_db_update in Hrun.
  rewrite run_bind, run_status in Hrun.
  apply bind_threw in Hrun as [Hrun|(valid & w3 & E3 & Hrun)].
  - eexists d, (after_update _ _ (after_update _ _ w)).
    split; [done|]. split; [done|].
    split; [reflexivity|]. split; [reflexivity|].
    split; [|exact Hrun].
    eapply present_trans; [|exact (present_after_update _ _ _)];
      exact (present_after_update _ _ _).
  - exfalso. rewrite run_bind, run_status in Hrun.
    rewrite run_bind, run_status in Hrun.
    rewrite run_bind in Hrun. unfold new_Date at 1 in Hrun.
    by rewrite run_bind, run_db_update in Hrun.
Qed.

End ContinueStructure.

Section ContinueRoute.

Context `{Env}.

Lemma run_bind_returned {A B} (m : M A) (k : A -> M B) (w w1 : World) (a : A) :
  m w = (Returned a, w1) -> (m ≫= k) w = k a w1.
Proof. intros E. by rewrite run_bind, E. Qed.

Lemma run_bind_threw {A B} (m : M A) (k : A -> M B) (w w1 : World) t :
  m w = (Threw t, w1) -> (m ≫= k) w = (Threw t, w1).
Proof. intros E. by rewrite run_bind, E. Qed.

Lemma run_mark_failed id t (w : World) :
  mark_failed id t w
  = (Returned (failure_reply t),
     after_update id
       [SetStatus failed;
        SetErrorMessage (message_or (js "Unknown processing error") t)] w).
Proof. reflexivity. Qed.

(** A request that passes the checks runs the inner [try] block, whose
    catch block marks the document as failed. *)
Lemma continue_accepted request key body (w : World) :
  continue_accepts request key body ->
  Continue.action request w
  = match Continue.resume key body w with
    | (Returned reply, w') => (Returned reply, w')
    | (Threw t, w') =>
        (Returned (failure_reply t),
         after_update (Continue.body_documentId body)
           [SetStatus failed;
            SetErrorMessage (message_or (js "Unknown processing error") t)]
           w')
    end.
Proof.
  intros (Hkey & Hk & Hjson & Hid & Hm & Hf & Ht).
  unfold Continue.action, try_catch. rewrite Hkey, Hjson.
  destruct key as [|c key]; [done|].
  apply Z.eqb_neq in Hid. rewrite Hid, Hm, Hf, Ht. cbn [negb orb].
  destruct (Continue.resume (c :: key) body w) as [[reply|t] w'];
    reflexivity.
Qed.

Lemma set_completed (d : Document) message time :
  let d' := fold_left set_field
              [SetStatus completed; SetCurrentStep (js "completed");
               SetProgress 100; SetStatusMessage message;
               SetCompletedAt time] d in
  status d' = completed /\ progress d' = Some 100
  /\ currentStep d' = Some (js "completed") /\ completedAt d' = Some time.
Proof. by destruct d. Qed.

Lemma set_failed (d : Document) message :
  let d' := fold_left set_field [SetStatus failed; SetErrorMessage message] d in
  status d' = failed /\ errorMessage d' = Some message
  /\ progress d' = progress d /\ tableOfContents d' = tableOfContents d.
Proof. by destruct d. Qed.

End ContinueRoute.

(** X13: the continuation route never throws: every request, in every
    state of the store, is answered with status 200, 400, 404 or 500;
    and an answer 400 or 404 leaves the store and the service
    untouched. *)
Theorem continue_always_answers `{Env} (request : Continue.Request)
    (w : World) :
  exists reply w',
    Continue.action request w = (Returned reply, w')
    /\ known_code (code reply)
    /\ (code reply = 400 \/ code reply = 404 -> w' = w).
Proof.
  unfold known_code, Continue.action, try_catch at 1.
  destruct (Continue.apiKey request) as [[|c key]|].
  - eexists _, _. split; [reflexivity|]. cbn [code json_error]. tauto.
  - destruct (Continue.json request) as [body|e].
    + destruct (_ || _).
      { eexists _, _. split; [reflexivity|]. cbn [code json_error]. tauto. }
      unfold try_catch.
      destruct (Continue.resume (c :: key) body w) as [[reply|t] w'] eqn:E.
      * exists reply, w'. split; [done|].
        apply resume_returned in E
          as [[-> [[-> _]|[-> _]]]|(d & w2 & valid & w3 & w5 & message & time
                & _ & _ & _ & _ & _ & _ & _ & _ & _ & _ & ->)];
          cbn [code json_error]; try tauto.
        split; [tauto|]. intros [?|?]; discriminate.
      * rewrite run_mark_failed. eexists _, _. split; [reflexivity|].
        cbn [code failure_reply]. split; [tauto|]. intros [?|?]; discriminate.
    + eexists _, _. split; [reflexivity|]. cbn [code json_error].
      split; [tauto|]. intros [?|?]; discriminate.
  - eexists _, _. split; [reflexivity|]. cbn [code json_error]. tauto.
Qed.

Section ContinueFinal.

Context `{Env}.

(** The gate is closed for a document that does not await approval. *)
Lemma resume_rejected apiKey body (document : Document) (w : World) :
  documents w !! Continue.body_documentId body = Some document ->
  status document <> awaiting_outline_approval ->
  Continue.resume apiKey body w
  = (Returned (json_error (js "Document not awaiting approval") 400), w).
Proof.
  intros Hdoc Hstatus. unfold Continue.resume. cbv zeta.
  rewrite run_bind. unfold db_find_document. rewrite Hdoc.
  by rewrite bool_decide_eq_false_2.
Qed.

(** The state of the document after the inner [try] block, for a
    document that awaited approval. *)
Lemma resume_final apiKey body (document : Document) (w : World) :
  documents w !! Continue.body_documentId body = Some document ->
  status document = awaiting_outline_approval ->
  match Continue.resume apiKey body w with
  | (Returned reply, w') =>
      exists document',
        documents w' !! Continue.body_documentId body = Some document'
        /\ code reply = 200 /\ status document' = completed
        /\ progress document' = Some 100
        /\ is_Some (completedAt document')
  | (Threw t, w') => is_Some (documents w' !! Continue.body_documentId body)
  end.
Proof.
  intros Hdoc Hstatus.
  destruct (Continue.resume apiKey body w) as [[reply|t] w'] eqn:E.
  - apply resume_returned in E
      as [[_ [[_ E]|[_ (d & E & Hd)]]]|(d & w2 & valid & w3 & w5 & message
            & time & _ & _ & _ & _ & P2 & E3 & _ & _ & P5 & -> & ->)];
      [congruence|congruence|].
    pose proof (frames_run _ _ _ _ _
                  (present_summarize_from _ _ _ _ _ _ _ _) E3) as P3.
    destruct (proj2 (P5 _) (proj2 (P3 _) (proj2 (P2 _) (mk_is_Some _ _ Hdoc))))
      as [d5 Hd5].
    eexists. split; [by apply after_update_lookup|].
    destruct (set_completed d5 message time) as (-> & -> & _ & ->).
    by repeat split.
  - apply resume_threw in E as (d & w2 & _ & _ & _ & _ & P2 & E3).
    pose proof (frames_run _ _ _ _ _
                  (present_summarize_from _ _ _ _ _ _ _ _) E3) as P3.
    exact (proj2 (P3 _) (proj2 (P2 _) (mk_is_Some _ _ Hdoc))).
Qed.

End ContinueFinal.

(** X14: a continuation request that passes the checks, for a document
    that awaits approval, always leaves the document in a final state:
    either the answer is 200 and the document is completed, with
    progress 100 and a completion time, or the answer is 500 with the
    message of the error, and the document is failed with that error
    recorded. *)
Theorem continue_ends_completed_or_failed `{Env} (request : Continue.Request)
    (key : jsstring) (body : Continue.Body) (document : Document)
    (w : World) :
  continue_accepts request key body ->
  documents w !! Continue.body_documentId body = Some document ->
  status document = awaiting_outline_approval ->
  exists reply w' document',
    Continue.action request w = (Returned reply, w')
    /\ documents w' !! Continue.body_documentId body = Some document'
    /\ (code reply = 200
        /\ status document' = completed
        /\ progress document' = Some 100
        /\ is_Some (completedAt document')
        \/ exists t,
             reply = failure_reply t
             /\ status document' = failed
             /\ errorMessage document'
                = Some (message_or (js "Unknown processing error") t)).
Proof.
  intros Hacc Hdoc Hstatus. rewrite (continue_accepted _ _ _ _ Hacc).
  pose proof (resume_final key body document w Hdoc Hstatus) as Hfinal.
  destruct (Continue.resume key body w) as [[reply|t] w'].
  - destruct Hfinal as (d' & Hd' & Hfinal).
    exists reply, w', d'. split; [done|]. split; [done|]. by left.
  - destruct Hfinal as [d3 Hd3].
    eexists _, _, _. split; [reflexivity|].
    split; [by apply after_update_lookup|].
    right. exists t. destruct (set_failed d3
      (message_or (js "Unknown processing error") t)) as (-> & -> & _).
    by repeat split.
Qed.

Lemma continue_ends_completed_or_failed_witness :
  exists reply w' document',
    Continue.action (H := text_env) (continue_request doc5 None)
      (world_with 1 (awaiting (js "paper.pdf") [secX]))
    = (Returned reply, w')
    /\ documents w' !! 1 = Some document'
    /\ (status document' = completed \/ status document' = failed).
Proof.
  destruct (@continue_ends_completed_or_failed text_env
              (continue_request doc5 None) (js "key")
              (continue_body doc5 None) (awaiting (js "paper.pdf") [secX])
              (world_with 1 (awaiting (js "paper.pdf") [secX])))
    as (reply & w' & d & E & Hd & Hfinal).
  - repeat split; try reflexivity. simpl. lia.
  - reflexivity.
  - reflexivity.
  - exists reply, w', d. split; [exact E|]. split; [exact Hd|].
    destruct Hfinal as [(_ & Hs & _)|(t & _ & Hs & _)]; [by left|by right].
Defined.



(** *** What the stages leave untouched *)

Section Stable.

Context `{Env}.

(** [R] is a preorder on worlds that the waits respect, and the
    updates that write only progress values accepted by [ok]. *)
Variable R : World -> World -> Prop.
Variable ok : Z -> Prop.
Hypothesis R_refl : forall w, R w w.
Hypothesis R_trans : forall w1 w2 w3, R w1 w2 -> R w2 w3 -> R w1 w3.
Hypothesis R_update : forall id fields,
  Forall ok (progress_of_fields fields) -> frames R (db_update id fields).
Hypothesis R_delay : forall ms, frames R (delay ms).

Lemma stable_status_none id step message :
  frames R (updateDocumentStatus id step message None).
Proof. apply R_update. by constructor. Qed.

Lemma stable_status id step message p :
  ok p -> frames R (updateDocumentStatus id step message (Some p)).
Proof. intros Hp. apply R_update. by repeat constructor. Qed.

Ltac stable_step :=
  lazymatch goal with
  | |- frames _ (updateDocumentStatus _ _ _ None) => apply stable_status_none
  | |- frames _ (updateDocumentStatus _ _ _ (Some _)) =>
      apply stable_status; assumption
  | |- frames _ (delay _) => apply R_delay
  | |- frames _ (mret _) => apply (frames_ret R R_refl)
  | |- frames _ (throw _) => apply (frames_throw R R_refl)
  | |- frames _ (_ ≫= _) => apply (frames_bind R R_trans); [|intros ?]
  end.

Ltac stable := repeat stable_step.

Lemma stable_new_Date : frames R new_Date.
Proof. intros w. apply R_refl. Qed.

Lemma stable_mark_failed id t : frames R (mark_failed id t).
Proof. unfold mark_failed. stable. apply R_update. by constructor. Qed.

Lemma stable_metadata id pdfTitle pdfAuthor :
  frames R (Process.updatePDFMetadata id pdfTitle pdfAuthor).
Proof.
  unfold Process.updatePDFMetadata. cbv zeta.
  destruct pdfTitle as [[|c s]|], pdfAuthor as [[|c' s']|]; cbn [app];
    first [apply (frames_ret R R_refl)|apply R_update; by constructor].
Qed.

Lemma stable_models apiKey : frames R (Process.fetchAvailableModels apiKey).
Proof.
  unfold Process.fetchAvailableModels.
  destruct fetch_models as [e|response]; [stable|].
  destruct (negb _); [stable|].
  destruct (res_json response); stable.
Qed.

Hypothesis R_fetch : frames R fetch.

Lemma stable_summary sectionTitle content apiKey model id :
  frames R (Continue.createSectionSummary sectionTitle content apiKey model id).
Proof.
  exact (frames_createSectionSummary R R_refl R_trans stable_status_none
           R_delay R_fetch _ _ _ _ _).
Qed.

Lemma stable_generateContent model apiKey :
  frames R (Process.generateContent model apiKey).
Proof.
  unfold Process.generateContent.
  destruct (Process.getModelType model); [|stable].
  stable; [apply R_fetch|]. cbv zeta.
  destruct (negb _).
  - destruct (_ =? 404); [stable|]. destruct (_ || _); stable.
  - destruct (res_json _); stable.
Qed.

Lemma stable_request_structure apiKey model id chunkNumber totalChunks :
  frames R (Process.request_structure apiKey model id chunkNumber totalChunks).
Proof.
  unfold Process.request_structure. stable.
  - apply stable_generateContent.
  - cbv zeta. destruct (bool_decide _); stable. apply stable_generateContent.
  - destruct (negb _); [stable|]. cbv zeta.
    destruct (Process.match_json_array _); [|stable].
    destruct (JSON_parse_sections _); stable.
Qed.

Lemma stable_analyzeDocumentStructure text apiKey model id chunkNumber total :
  frames R (Process.analyzeDocumentStructure text apiKey model id chunkNumber
              total).
Proof.
  apply (frames_retryWithBackoff R R_refl R_trans stable_status_none R_delay).
  apply stable_request_structure.
Qed.

Lemma stable_analyze_from apiKey model id total (rest : list jsstring) :
  forall i allSections,
    frames R (Process.analyze_from apiKey model id total i rest allSections).
Proof.
  induction rest as [|chunk rest IH]; intros i allSections;
    cbn [Process.analyze_from].
  - stable.
  - stable.
    + apply stable_analyzeDocumentStructure.
    + apply IH.
Qed.

Lemma stable_update id fields :
  Forall ok (progress_of_fields fields) -> frames R (db_update id fields).
Proof. apply R_update. Qed.

Lemma stable_find id : frames R (db_find_document id).
Proof. intros w. apply R_refl. Qed.

Ltac route_step :=
  lazymatch goal with
  | |- frames _ (Process.updatePDFMetadata _ _ _) => apply stable_metadata
  | |- frames _ new_Date => apply stable_new_Date
  | |- frames _ (db_find_document _) => apply stable_find
  | |- frames _ (mark_failed _ _) => apply stable_mark_failed
  | |- frames _ (db_update _ _) =>
      apply stable_update; cbn [progress_of_fields];
      repeat (constructor; [assumption|]); constructor
  | |- frames _ (if ?b then _ else _) => destruct b
  | |- frames _ (try_catch _ _) =>
      apply (frames_try_catch R R_trans); [|intros ?]
  | |- _ => stable_step
  end.

Ltac route := repeat route_step.

(** The structure analysis of the process stage, given what its loop
    over the chunks respects. *)
Lemma stable_analyse_with apiKey body :
  (Process.customTableOfContents body = None ->
   forall total chunks,
     frames R (Process.analyze_from apiKey (Process.selectedModel body)
                 (Process.body_documentId body) total 0 chunks [])) ->
  ok 25 -> ok 30 -> ok 35 -> ok 45 -> ok 60 -> ok 65 ->
  frames R (Process.analyse apiKey body).
Proof.
  intros Hloop H25 H30 H35 H45 H60 H65. unfold Process.analyse. cbv zeta.
  route.
  - apply stable_models.
  - destruct (Process.customTableOfContents body); route. by apply Hloop.
Qed.

Lemma stable_process_action_with request :
  (forall apiKey body,
     Process.json request = Returned body ->
     Process.customTableOfContents body = None ->
     forall total chunks,
       frames R (Process.analyze_from apiKey (Process.selectedModel body)
                   (Process.body_documentId body) total 0 chunks [])) ->
  ok 25 -> ok 30 -> ok 35 -> ok 45 -> ok 60 -> ok 65 ->
  frames R (Process.action request).
Proof.
  intros Hloop H25 H30 H35 H45 H60 H65. unfold Process.action.
  apply (frames_try_catch R R_trans); [|intros ?; route].
  destruct (Process.apiKey request) as [[|c key]|]; [route| |route].
  destruct (Process.json request) as [body|e]; route.
  apply stable_analyse_with; auto.
Qed.

Hypothesis R_insert : forall row, frames R (db_insert_section row).

Lemma stable_summarize_from text apiKey model id total (rest : list Section) :
  loop_values_ok ok ->
  forall i valid,
    0 <= i -> i + Z.of_nat (length rest) = total ->
    frames R (Continue.summarize_from text apiKey model id total i rest valid).
Proof.
  intros Hok. induction rest as [|section rest IH]; intros i valid Hi Htotal;
    cbn [Continue.summarize_from].
  - route.
  - cbn [length] in Htotal.
    destruct (Hok total i ltac:(lia)) as (H1 & H2 & H3).
    cbv zeta. route.
    + apply stable_summary.
    + apply R_insert.
    + apply IH; lia.
Qed.

Lemma stable_resume apiKey body :
  loop_values_ok ok -> ok 75 -> ok 95 -> ok 98 -> ok 100 ->
  frames R (Continue.resume apiKey body).
Proof.
  intros Hloop H75 H95 H98 H100. unfold Continue.resume. cbv zeta.
  route. destruct a as [document|]; route.
  apply stable_summarize_from; [done|lia|lia].
Qed.

Lemma stable_continue_action request :
  loop_values_ok ok -> ok 75 -> ok 95 -> ok 98 -> ok 100 ->
  frames R (Continue.action request).
Proof.
  intros Hloop H75 H95 H98 H100. unfold Continue.action.
  apply (frames_try_catch R R_trans); [|intros ?; route].
  destruct (Continue.apiKey request) as [[|c key]|]; [route| |route].
  destruct (Continue.json request) as [body|e]; route.
  by apply stable_resume.
Qed.

End Stable.

Section ProgressRange.

Context `{Env}.
Variables lo hi id : Z.

Local Abbreviation W := (progress_within lo hi id).
Local Abbreviation in_range := (fun p : Z => lo <= p <= hi).

Lemma within_refl (w : World) : W w w.
Proof. exists []. split; [by rewrite app_nil_r|constructor]. Qed.

Lemma within_trans (w1 w2 w3 : World) : W w1 w2 -> W w2 w3 -> W w1 w3.
Proof.
  intros (l1 & E1 & F1) (l2 & E2 & F2). exists (l1 ++ l2).
  split; [by rewrite E2, E1, app_assoc|by apply Forall_app].
Qed.

Lemma within_quiet (w w' : World) (e : Event) :
  trace w' = trace w ++ [e] -> progress_writes id [e] = [] -> W w w'.
Proof.
  intros E He. exists []. rewrite E, progress_writes_snoc, He.
  split; [done|constructor].
Qed.

Lemma within_update id' fields :
  Forall in_range (progress_of_fields fields) ->
  frames W (db_update id' fields).
Proof.
  intros Hok w. cbn [db_update snd].
  exists (progress_writes id [Updated id' fields]).
  split; [apply progress_writes_snoc|].
  unfold progress_writes. cbn [flat_map]. rewrite app_nil_r.
  destruct (bool_decide _); [done|constructor].
Qed.

Lemma within_delay ms : frames W (delay ms).
Proof. intros w. by eapply within_quiet. Qed.

Lemma within_fetch : frames W fetch.
Proof.
  intros w. unfold fetch.
  destruct (fetch_generateContent _); by eapply within_quiet.
Qed.

Lemma within_insert row : frames W (db_insert_section row).
Proof. intros w. by eapply within_quiet. Qed.

End ProgressRange.

Lemma loop_values_in_range :
  loop_values_ok (fun p => 75 <= p <= 100).
Proof.
  intros total j Hj. unfold round_ratio.
  repeat split;
    first [ apply Z.div_le_lower_bound; lia
          | apply Z.lt_succ_r, Z.div_lt_upper_bound; lia ].
Qed.

(** X16: whatever the request, the state of the store and the answers
    of the service, every progress value that the continuation route
    writes is between 75 and 100. *)
Theorem continue_progress_in_range `{Env} (request : Continue.Request)
    (id : Z) (w : World) :
  exists l,
    progress_writes id (trace (snd (Continue.action request w)))
    = progress_writes id (trace w) ++ l
    /\ Forall (fun p => 75 <= p <= 100) l.
Proof.
  apply (stable_continue_action (progress_within 75 100 id)
           (fun p => 75 <= p <= 100)
           (within_refl 75 100 id) (within_trans 75 100 id)
           (within_update 75 100 id) (within_delay 75 100 id)
           (within_fetch 75 100 id) (within_insert 75 100 id)
           request loop_values_in_range); lia.
Qed.

(** *** Relations that the steps of a stage respect *)

Section SameFacts.

Context `{Env}.

Local Abbreviation any := (fun _ : Z => True).

Lemma sections_refl (w : World) : same_sections w w.
Proof. reflexivity. Qed.

Lemma sections_trans (w1 w2 w3 : World) :
  same_sections w1 w2 -> same_sections w2 w3 -> same_sections w1 w3.
Proof. unfold same_sections. congruence. Qed.

Lemma sections_update id fields :
  Forall any (progress_of_fields fields) ->
  frames same_sections (db_update id fields).
Proof. by intros _ w. Qed.

Lemma sections_delay ms : frames same_sections (delay ms).
Proof. by intros w. Qed.

Lemma sections_fetch : frames same_sections fetch.
Proof. intros w. unfold fetch. by destruct (fetch_generateContent _). Qed.

Lemma requests_refl (w : World) : same_requests w w.
Proof. reflexivity. Qed.

Lemma requests_trans (w1 w2 w3 : World) :
  same_requests w1 w2 -> same_requests w2 w3 -> same_requests w1 w3.
Proof. unfold same_requests. congruence. Qed.

Lemma requests_update id fields :
  Forall any (progress_of_fields fields) ->
  frames same_requests (db_update id fields).
Proof. by intros _ w. Qed.

Lemma later_refl (w : World) : later w w.
Proof. unfold later. lia. Qed.

Lemma later_trans (w1 w2 w3 : World) : later w1 w2 -> later w2 w3 -> later w1 w3.
Proof. unfold later. lia. Qed.

Lemma later_update id fields :
  Forall any (progress_of_fields fields) -> frames later (db_update id fields).
Proof. intros _ w. unfold later. cbn [db_update snd requests]. lia. Qed.

Lemma later_status id step message progress :
  frames later (updateDocumentStatus id step message progress).
Proof. unfold updateDocumentStatus. by apply later_update, Forall_true. Qed.

Lemma later_delay ms : frames later (delay ms).
Proof. intros w. unfold later. cbn [delay snd requests]. lia. Qed.

Lemma later_fetch : frames later fetch.
Proof.
  intros w. unfold fetch, later.
  destruct (fetch_generateContent _); cbn [snd requests]; lia.
Qed.

Lemma later_request_structure apiKey model id chunkNumber totalChunks :
  frames later
    (Process.request_structure apiKey model id chunkNumber totalChunks).
Proof.
  apply (stable_request_structure later any later_refl later_trans
           later_update later_fetch).
Qed.

Lemma later_wait_before baseDelay db documentId stepName attempt text :
  frames later (wait_before baseDelay db documentId stepName attempt text).
Proof.
  apply (frames_wait_before later later_refl later_trans).
  - intros. apply later_status.
  - apply later_delay.
Qed.

Lemma later_metadata (b : bool) id pdfTitle pdfAuthor :
  frames later
    (if b then Process.updatePDFMetadata id pdfTitle pdfAuthor else mret tt).
Proof.
  destruct b; [|intros w; apply later_refl].
  apply (stable_metadata later any later_refl later_update).
Qed.

End SameFacts.

(** *** The process stage *)

Section ProcessStructure.

Context `{Env}.

Lemma metadata_returns id pdfTitle pdfAuthor (w : World) :
  fst (Process.updatePDFMetadata id pdfTitle pdfAuthor w) = Returned tt.
Proof.
  unfold Process.updatePDFMetadata. cbv zeta.
  by destruct pdfTitle as [[|c s]|], pdfAuthor as [[|c' s']|].
Qed.

(** The lookup of the model never throws and leaves the world as it
    is: a failure of the listing is caught. *)
Lemma model_lookup_returns apiKey model (w : World) :
  try_catch
    (availableModels ← Process.fetchAvailableModels apiKey;
     mret (List.find (fun m => bool_decide (Process.name m = model))
             availableModels))
    (fun _ => mret None) w
  = (Returned (listed_model model), w).
Proof.
  unfold try_catch, listed_model. rewrite run_bind.
  unfold Process.fetchAvailableModels.
  destruct fetch_models as [e|response]; [done|].
  destruct (res_ok response); cbn [negb]; [|done].
  by destruct (res_json response).
Qed.

Lemma process_accepted request key body (w : World) :
  process_accepts request key body ->
  Process.action request w
  = match Process.analyse key body w with
    | (Returned reply, w') => (Returned reply, w')
    | (Threw t, w') =>
        (Returned (failure_reply t),
         after_update (Process.body_documentId body)
           [SetStatus failed;
            SetErrorMessage (message_or (js "Unknown processing error") t)]
           w')
    end.
Proof.
  intros (Hkey & Hk & Hjson & Hid & Hm & Hf).
  unfold Process.action, try_catch. rewrite Hkey, Hjson.
  destruct key as [|c key]; [done|].
  apply Z.eqb_neq in Hid. rewrite Hid, Hm, Hf. cbn [negb orb].
  destruct (Process.analyse (c :: key) body w) as [[reply|t] w'];
    reflexivity.
Qed.

(** An analysis that returns has stored an outline and stopped at the
    approval gate; the outline is the custom one, if the request has
    one, and else what the loop over the chunks of the text returned,
    which sent all the requests of the stage. *)
Lemma analyse_returned apiKey body (w w' : World) (reply : Reply) :
  Process.analyse apiKey body w = (Returned reply, w') ->
  exists toc w1 time message message',
    (forall custom,
       Process.customTableOfContents body = Some custom -> toc = custom)
    /\ (Process.customTableOfContents body = None ->
        exists w0 w0',
          let chunks :=
            chunkTextForProcessing (Process.documentText body)
              (chunk_budget (Process.selectedModel body)) in
          Process.analyze_from apiKey (Process.selectedModel body)
            (Process.body_documentId body) (Z.of_nat (length chunks)) 0
            chunks [] w0
          = (Returned toc, w0')
          /\ later w w0 /\ later w0' w')
    /\ w' = after_update (Process.body_documentId body)
              [SetStatus awaiting_outline_approval;
               SetCurrentStep (js "awaiting_outline_approval");
               SetProgress 65; SetStatusMessage message';
               SetProcessingData
                 {| pd_documentId := Process.body_documentId body;
                    pd_selectedModel := Process.selectedModel body;
                    pd_fileName := Process.fileName body |}]
              (after_update (Process.body_documentId body)
                 [SetTableOfContents toc; SetTocGeneratedAt time;
                  SetProgress 65; SetStatusMessage message] w1)
    /\ reply = {| code := 200;
                  payload := ProcessPaused
                    {| pd_documentId := Process.body_documentId body;
                       pd_selectedModel := Process.selectedModel body;
                       pd_fileName := Process.fileName body |} |}.
Proof.
  intros Hrun. unfold Process.analyse in Hrun. cbv zeta in Hrun.
  apply bind_returned in Hrun as ([] & w1 & E1 & Hrun).
  apply (frames_run later _ _ _ _ (later_status _ _ _ _)) in E1.
  apply bind_returned in Hrun as ([] & w2 & E2 & Hrun).
  apply (frames_run later _ _ _ _ (later_metadata _ _ _ _)) in E2.
  destruct (negb (truthy (Process.documentText body))); [done|].
  apply bind_returned in Hrun as ([] & w3 & E3 & Hrun).
  apply (frames_run later _ _ _ _ (later_status _ _ _ _)) in E3.
  apply bind_returned in Hrun as ([] & w4 & E4 & Hrun).
  apply (frames_run later _ _ _ _ (later_status _ _ _ _)) in E4.
  apply bind_returned in Hrun as (modelInfo & w5 & E5 & Hrun).
  rewrite model_lookup_returns in E5. injection E5 as <- <-.
  apply bind_returned in Hrun as ([] & w6 & E6 & Hrun).
  apply (frames_run later _ _ _ _ (later_status _ _ _ _)) in E6.
  apply bind_returned in Hrun as (toc & w7 & Etoc & Hrun).
  apply bind_returned in Hrun as ([] & w8 & E8 & Hrun).
  apply (frames_run later _ _ _ _ (later_status _ _ _ _)) in E8.
  apply bind_returned in Hrun as ([] & w9 & E9 & Hrun).
  apply (frames_run later _ _ _ _ (later_status _ _ _ _)) in E9.
  apply bind_returned in Hrun as ([] & w10 & E10 & Hrun).
  apply (frames_run later _ _ _ _ (later_status _ _ _ _)) in E10.
  apply bind_returned in Hrun as (time & w11 & E11 & Hrun).
  injection E11 as _ <-.
  apply bind_returned in Hrun as ([] & w12 & E12 & Hrun).
  rewrite run_db_update in E12. injection E12 as <-.
  apply bind_returned in Hrun as ([] & w13 & E13 & Hrun).
  rewrite run_db_update in E13. injection E13 as <-.
  injection Hrun as <- <-.
  eexists toc, w10, _, _, _. split; [|split; [|split; reflexivity]].
  - intros custom Hc. rewrite Hc in Etoc.
    apply bind_returned in Etoc as ([] & w' & _ & Etoc).
    by injection Etoc as ->.
  - intros Hc. rewrite Hc in Etoc.
    apply bind_returned in Etoc as ([] & w0 & E0 & Etoc).
    apply (frames_run later _ _ _ _ (later_status _ _ _ _)) in E0.
    exists w0, w7. split; [exact Etoc|].
    unfold later in *. cbn [requests after_update db_update snd]. lia.
Qed.

(** An analysis throws only when the text is empty or when the loop
    over the chunks throws. *)
Lemma analyse_threw apiKey body (w w' : World) (t : Thrown) :
  Process.analyse apiKey body w = (Threw t, w') ->
  Process.documentText body = []
  \/ Process.customTableOfContents body = None
     /\ exists total chunks w0,
          Process.analyze_from apiKey (Process.selectedModel body)
            (Process.body_documentId body) total 0 chunks [] w0
          = (Threw t, w').
Proof.
  intros Hrun. unfold Process.analyse in Hrun. cbv zeta in Hrun.
  apply bind_threw in Hrun as [E|([] & w1 & _ & Hrun)]; [done|].
  apply bind_threw in Hrun as [E|([] & w2 & _ & Hrun)].
  { destruct (_ || _); [|done].
    pose proof (metadata_returns (Process.body_documentId body)
                  (Process.body_pdfTitle body) (Process.body_pdfAuthor body)
                  w1) as Hm.
    by rewrite E in Hm. }
  destruct (Process.documentText body) as [|c text] eqn:Htext; [by left|].
  right. cbn [truthy negb] in Hrun.
  apply bind_threw in Hrun as [E|([] & w3 & _ & Hrun)]; [done|].
  apply bind_threw in Hrun as [E|([] & w4 & _ & Hrun)]; [done|].
  apply bind_threw in Hrun as [E|(modelInfo & w5 & _ & Hrun)].
  { by rewrite model_lookup_returns in E. }
  apply bind_threw in Hrun as [E|([] & w6 & _ & Hrun)]; [done|].
  apply bind_threw in Hrun as [E|(toc & w7 & _ & Hrun)].
  - destruct (Process.customTableOfContents body) as [custom|].
    + apply bind_threw in E as [E|([] & w7 & _ & E)]; done.
    + split; [done|].
      apply bind_threw in E as [E|([] & w7 & _ & E)]; [done|].
      by eexists _, _, _.
  - exfalso.
    apply bind_threw in Hrun as [E|([] & w8 & _ & Hrun)]; [done|].
    apply bind_threw in Hrun as [E|([] & w9 & _ & Hrun)]; [done|].
    apply bind_threw in Hrun as [E|([] & w10 & _ & Hrun)]; [done|].
    apply bind_threw in Hrun as [E|(time & w11 & _ & Hrun)]; [done|].
    apply bind_threw in Hrun as [E|([] & w12 & _ & Hrun)]; [done|].
    apply bind_threw in Hrun as [E|([] & w13 & _ & Hrun)]; done.
Qed.

End ProcessStructure.

Section ProcessRoute.

Context `{Env}.

Local Abbreviation any := (fun _ : Z => True).

Lemma present_update id fields :
  Forall any (progress_of_fields fields) ->
  frames same_documents_present (db_update id fields).
Proof. intros _. apply present_db_update. Qed.

Lemma present_analyse apiKey body :
  frames same_documents_present (Process.analyse apiKey body).
Proof.
  apply (stable_analyse_with same_documents_present any present_refl
           present_trans present_update); try done.
  intros _ total chunks.
  apply (stable_analyze_from same_documents_present any present_refl
           present_trans present_update present_delay present_fetch).
Qed.

Lemma set_awaiting (d : Document) toc time message message' data :
  let d' := fold_left set_field
              [SetStatus awaiting_outline_approval;
               SetCurrentStep (js "awaiting_outline_approval");
               SetProgress 65; SetStatusMessage message';
               SetProcessingData data]
              (fold_left set_field
                 [SetTableOfContents toc; SetTocGeneratedAt time;
                  SetProgress 65; SetStatusMessage message] d) in
  status d' = awaiting_outline_approval /\ progress d' = Some 65
  /\ tableOfContents d' = Some toc /\ processingData d' = Some data.
Proof. by destruct d. Qed.

(** The state of the document after an analysis that returned. *)
Lemma analyse_final apiKey body (document : Document) (w w' : World)
    (reply : Reply) :
  documents w !! Process.body_documentId body = Some document ->
  Process.analyse apiKey body w = (Returned reply, w') ->
  exists document' toc,
    documents w' !! Process.body_documentId body = Some document'
    /\ code reply = 200
    /\ status document' = awaiting_outline_approval
    /\ progress document' = Some 65
    /\ tableOfContents document' = Some toc
    /\ (forall custom,
          Process.customTableOfContents body = Some custom -> toc = custom)
    /\ (Process.customTableOfContents body = None ->
        exists w0 w0',
          let chunks :=
            chunkTextForProcessing (Process.documentText body)
              (chunk_budget (Process.selectedModel body)) in
          Process.analyze_from apiKey (Process.selectedModel body)
            (Process.body_documentId body) (Z.of_nat (length chunks)) 0
            chunks [] w0
          = (Returned toc, w0')
          /\ later w w0 /\ later w0' w').
Proof.
  intros Hdoc E.
  pose proof (frames_run _ _ _ _ _ (present_analyse apiKey body) E) as P.
  apply analyse_returned in E
    as (toc & w1 & time & message & message' & Hcustom & Hnone & -> & ->).
  match type of P with
  | _ _ (after_update ?i2 ?f2 (after_update ?i1 ?f1 _)) =>
      pose proof (present_trans _ _ _ (present_after_update i1 f1 w1)
                    (present_after_update i2 f2 (after_update i1 f1 w1)))
        as P1
  end.
  destruct (proj1 (P1 _) (proj2 (P _) (mk_is_Some _ _ Hdoc))) as [d1 Hd1].
  eexists _, toc. split.
  { apply after_update_lookup. by apply after_update_lookup. }
  destruct (set_awaiting d1 toc time message message'
              {| pd_documentId := Process.body_documentId body;
                 pd_selectedModel := Process.selectedModel body;
                 pd_fileName := Process.fileName body |})
    as (-> & -> & -> & _).
  by repeat split.
Qed.

End ProcessRoute.

(** X17: the process route never throws: every request is answered
    with status 200, 400 or 500, and an answer 400 leaves the store and
    the service untouched. *)
Theorem process_always_answers `{Env} (request : Process.Request)
    (w : World) :
  exists reply w',
    Process.action request w = (Returned reply, w')
    /\ (code reply = 200 \/ code reply = 400 \/ code reply = 500)
    /\ (code reply = 400 -> w' = w).
Proof.
  unfold Process.action, try_catch at 1.
  destruct (Process.apiKey request) as [[|c key]|].
  - eexists _, _. split; [reflexivity|]. cbn [code json_error]. tauto.
  - destruct (Process.json request) as [body|e].
    + destruct (_ || _).
      { eexists _, _. split; [reflexivity|]. cbn [code json_error]. tauto. }
      unfold try_catch.
      destruct (Process.analyse (c :: key) body w) as [[reply|t] w'] eqn:E.
      * exists reply, w'. split; [done|].
        apply analyse_returned in E
          as (toc & w1 & time & message & message' & _ & _ & _ & ->).
        cbn [code]. split; [tauto|discriminate].
      * rewrite run_mark_failed. eexists _, _. split; [reflexivity|].
        cbn [code failure_reply]. split; [tauto|discriminate].
    + eexists _, _. split; [reflexivity|]. cbn [code json_error].
      split; [tauto|discriminate].
  - eexists _, _. split; [reflexivity|]. cbn [code json_error]. tauto.
Qed.

(** X18: the process route never writes to the sections table,
    whatever the request and the answers of the service. *)
Theorem process_writes_no_section `{Env} (request : Process.Request)
    (w : World) :
  sections (snd (Process.action request w)) = sections w.
Proof.
  apply (stable_process_action_with same_sections (fun _ => True)
           sections_refl sections_trans sections_update);
    try done.
  intros apiKey body _ _ total chunks.
  apply (stable_analyze_from same_sections (fun _ => True) sections_refl
           sections_trans sections_update sections_delay sections_fetch).
Qed.

(** X19: a process request that passes the checks, for a document of
    the store, always leaves the document at the approval gate or
    failed: either the answer is 200 and the document awaits the
    approval of its outline, with progress 65 and an outline stored
    (the custom one, if the request has one), or the answer is 500 and
    the document is failed with the error recorded. *)
Theorem process_ends_awaiting_or_failed `{Env} (request : Process.Request)
    (key : jsstring) (body : Process.Body) (document : Document)
    (w : World) :
  process_accepts request key body ->
  documents w !! Process.body_documentId body = Some document ->
  exists reply w' document',
    Process.action request w = (Returned reply, w')
    /\ documents w' !! Process.body_documentId body = Some document'
    /\ (code reply = 200
        /\ status document' = awaiting_outline_approval
        /\ progress document' = Some 65
        /\ (exists toc,
              tableOfContents document' = Some toc
              /\ forall custom,
                   Process.customTableOfContents body = Some custom ->
                   toc = custom)
        \/ exists t,
             reply = failure_reply t
             /\ status document' = failed
             /\ errorMessage document'
                = Some (message_or (js "Unknown processing error") t)).
Proof.
  intros Hacc Hdoc. rewrite (process_accepted _ _ _ _ Hacc).
  destruct (Process.analyse key body w) as [[reply|t] w'] eqn:E.
  - destruct (analyse_final _ _ _ _ _ _ Hdoc E)
      as (d' & toc & Hd' & Hcode & Hs & Hp & Htoc & Hcustom & _).
    exists reply, w', d'. split; [done|]. split; [done|]. left.
    repeat split; try done. by exists toc.
  - pose proof (frames_run _ _ _ _ _ (present_analyse key body) E) as P.
    destruct (proj2 (P _) (mk_is_Some _ _ Hdoc)) as [d3 Hd3].
    eexists _, _, _. split; [reflexivity|].
    split; [by apply after_update_lookup|].
    right. exists t. destruct (set_failed d3
      (message_or (js "Unknown processing error") t)) as (-> & -> & _).
    by repeat split.
Qed.

Lemma process_ends_awaiting_or_failed_witness :
  exists reply w' document',
    Process.action (H := one_section_env) (process_request doc5)
      (world_with 1 (uploaded (js "paper.pdf")))
    = (Returned reply, w')
    /\ documents w' !! 1 = Some document'
    /\ (status document' = awaiting_outline_approval
        \/ status document' = failed).
Proof.
  destruct (@process_ends_awaiting_or_failed one_section_env
              (process_request doc5) (js "key") (process_body doc5 None)
              (uploaded (js "paper.pdf"))
              (world_with 1 (uploaded (js "paper.pdf"))))
    as (reply & w' & d & E & Hd & Hfinal).
  - repeat split; try reflexivity. simpl. lia.
  - reflexivity.
  - exists reply, w', d. split; [exact E|]. split; [exact Hd|].
    destruct Hfinal as [(_ & Hs & _)|(t & _ & Hs & _)]; [by left|by right].
Defined.

(** X20: with a custom table of contents and a text that is not empty,
    the process route sends no request to the generation service and
    cannot fail: the answer is 200. *)
Theorem custom_outline_needs_no_model `{Env} (request : Process.Request)
    (key : jsstring) (body : Process.Body) (custom : list Section)
    (w : World) :
  process_accepts request key body ->
  Process.customTableOfContents body = Some custom ->
  truthy (Process.documentText body) = true ->
  exists reply w',
    Process.action request w = (Returned reply, w')
    /\ code reply = 200
    /\ requests w' = requests w.
Proof.
  intros Hacc Hcustom Htext.
  assert (frames same_requests (Process.action request)) as Hframe.
  { apply (stable_process_action_with same_requests (fun _ => True)
             requests_refl requests_trans requests_update);
      try done.
    intros apiKey body' Hjson Hnone.
    destruct Hacc as (_ & _ & Hjson' & _). congruence. }
  specialize (Hframe w). revert Hframe.
  rewrite (process_accepted _ _ _ _ Hacc).
  destruct (Process.analyse key body w) as [[reply|t] w'] eqn:E.
  - intros Hframe. exists reply, w'. split; [done|]. split; [|done].
    by apply analyse_returned in E as (? & ? & ? & ? & ? & _ & _ & _ & ->).
  - apply analyse_threw in E as [E|[E _]]; [|congruence].
    by rewrite E in Htext.
Qed.

Lemma custom_outline_needs_no_model_witness :
  exists reply w',
    Process.action (H := text_env) (custom_request doc5 [secX])
      (world_with 1 (uploaded (js "paper.pdf")))
    = (Returned reply, w')
    /\ code reply = 200
    /\ requests w' = 0%nat.
Proof.
  apply (@custom_outline_needs_no_model text_env (custom_request doc5 [secX])
           (js "key") (process_body doc5 (Some [secX])) [secX]
           (world_with 1 (uploaded (js "paper.pdf")))).
  - repeat split; try reflexivity. simpl. lia.
  - reflexivity.
  - reflexivity.
Defined.

(** *** The rows of the continuation, one by one *)

Section ContinueRowsExact.

Context `{Env}.

Lemma sections_summary sectionTitle content apiKey model id :
  frames same_sections
    (Continue.createSectionSummary sectionTitle content apiKey model id).
Proof.
  apply (stable_summary same_sections (fun _ => True) sections_refl
           sections_trans sections_update sections_delay sections_fetch).
Qed.

Lemma sections_after_update id fields (w : World) :
  sections (after_update id fields w) = sections w.
Proof. reflexivity. Qed.

Ltac same_rows :=
  repeat first [rewrite sections_after_update | progress cbn [sections]].

(** The loop inserts one row per section that it summarized, in the
    order of the outline, numbered from [i + 1] on; it returns all the
    descriptors when it has summarized them all, and throws at the
    first section whose summary fails. *)
Lemma summarize_from_rows text apiKey model id total (rest : list Section) :
  forall i valid (w : World),
    exists summaries,
      sections (snd (Continue.summarize_from text apiKey model id total i
                       rest valid w))
      = sections w ++ rows_of id i rest summaries
      /\ match fst (Continue.summarize_from text apiKey model id total i
                      rest valid w) with
         | Returned v => v = valid ++ rest /\ length summaries = length rest
         | Threw _ => (length summaries < length rest)%nat
         end.
Proof.
  induction rest as [|section rest IH]; intros i valid w.
  { exists []. cbn. by rewrite !app_nil_r. }
  destruct (Continue.summarize_from text apiKey model id total i
              (section :: rest) valid w) as [[v|t] w'] eqn:E;
    cbn [Continue.summarize_from] in E; cbv zeta in E; cbn [fst snd].
  - apply bind_returned in E as ([] & w1 & E1 & E).
    rewrite run_status in E1. injection E1 as <-.
    apply bind_returned in E as ([] & w2 & E2 & E).
    assert (sections w2 = sections w) as S2
      by (destruct (i >? 0); by injection E2 as <-).
    apply bind_returned in E as ([] & w3 & E3 & E).
    rewrite run_status in E3. injection E3 as <-.
    apply bind_returned in E as (summary & w4 & E4 & E).
    pose proof (frames_run _ _ _ _ _ (sections_summary _ _ _ _ _) E4) as S4.
    apply bind_returned in E as ([] & w5 & E5 & E).
    rewrite run_status in E5. injection E5 as <-.
    apply bind_returned in E as ([] & w6 & E6 & E). injection E6 as <-.
    apply bind_returned in E as ([] & w7 & E7 & E).
    rewrite run_status in E7. injection E7 as <-.
    match type of E with
    | Continue.summarize_from _ _ _ _ _ ?i' _ ?valid' ?w7 = _ =>
        destruct (IH i' valid' w7) as (summaries & Es & Hm)
    end.
    rewrite E in Es, Hm. cbn [fst snd] in Es, Hm. destruct Hm as [-> Hlen].
    exists (summary :: summaries). cbn [rows_of length]. split.
    + rewrite Es. same_rows. unfold same_sections in S4. rewrite S4.
      same_rows. by rewrite S2, <- app_assoc.
    + split; [by rewrite <- app_assoc|by rewrite Hlen].
  - apply bind_threw in E as [E|([] & w1 & E1 & E)]; [done|].
    rewrite run_status in E1. injection E1 as <-.
    apply bind_threw in E as [E|([] & w2 & E2 & E)];
      [by destruct (i >? 0)|].
    assert (sections w2 = sections w) as S2
      by (destruct (i >? 0); by injection E2 as <-).
    apply bind_threw in E as [E|([] & w3 & E3 & E)]; [done|].
    rewrite run_status in E3. injection E3 as <-.
    apply bind_threw in E as [E4|(summary & w4 & E4 & E)].
    { pose proof (frames_run _ _ _ _ _ (sections_summary _ _ _ _ _) E4) as S4.
      exists []. cbn [rows_of length]. rewrite app_nil_r. split; [|lia].
      unfold same_sections in S4. rewrite S4. same_rows. by rewrite S2. }
    pose proof (frames_run _ _ _ _ _ (sections_summary _ _ _ _ _) E4) as S4.
    apply bind_threw in E as [E|([] & w5 & E5 & E)]; [done|].
    rewrite run_status in E5. injection E5 as <-.
    apply bind_threw in E as [E|([] & w6 & E6 & E)]; [done|].
    injection E6 as <-.
    apply bind_threw in E as [E|([] & w7 & E7 & E)]; [done|].
    rewrite run_status in E7. injection E7 as <-.
    match type of E with
    | Continue.summarize_from _ _ _ _ _ ?i' _ ?valid' ?w7 = _ =>
        destruct (IH i' valid' w7) as (summaries & Es & Hm)
    end.
    rewrite E in Es, Hm. cbn [fst snd] in Es, Hm.
    exists (summary :: summaries). cbn [rows_of length]. split; [|lia].
    rewrite Es. same_rows. unfold same_sections in S4. rewrite S4.
    same_rows. by rewrite S2, <- app_assoc.
Qed.

End ContinueRowsExact.

(** X21: a continuation request that passes the checks, for a document
    that awaits approval, appends to the sections table one row per
    summarized section and nothing else: the rows follow the order of
    the outline, are numbered from 1, and copy the title and the pages
    of their descriptors.  On answer 200 there is a row for every
    section of the outline and the answer counts them; on answer 500
    the rows are those of the sections before the one that failed. *)
Theorem continue_inserts_rows_of_outline `{Env} (request : Continue.Request)
    (key : jsstring) (body : Continue.Body) (document : Document)
    (w : World) :
  continue_accepts request key body ->
  documents w !! Continue.body_documentId body = Some document ->
  status document = awaiting_outline_approval ->
  let outline := Continue.sections_of body document in
  exists reply w' summaries,
    Continue.action request w = (Returned reply, w')
    /\ sections w'
       = sections w
         ++ rows_of (Continue.body_documentId body) 0 outline summaries
    /\ (reply = {| code := 200;
                   payload := ContinueDone (Z.of_nat (length outline)) |}
        /\ length summaries = length outline
        \/ code reply = 500
           /\ (length summaries < length outline)%nat).
Proof.
  intros Hacc Hdoc Hstatus outline. subst outline.
  rewrite (continue_accepted _ _ _ _ Hacc).
  destruct (Continue.resume key body w) as [[reply|t] w'] eqn:E.
  - apply resume_returned in E
      as [[_ [[_ E]|[_ (d & E & Hd)]]]|(d & w2 & valid & w3 & w5 & message
            & time & Hd & _ & S2 & _ & _ & E3 & S5 & _ & _ & -> & ->)];
      [congruence|congruence|].
    assert (d = document) as -> by congruence.
    destruct (summarize_from_rows (Continue.documentText body) key
                (Continue.selectedModel body) (Continue.body_documentId body)
                (Z.of_nat (length (Continue.sections_of body document)))
                (Continue.sections_of body document) 0 [] w2)
      as (summaries & Es & Hm).
    rewrite E3 in Es, Hm. cbn [fst snd] in Es, Hm. destruct Hm as [-> Hlen].
    eexists _, _, summaries. split; [reflexivity|]. split.
    + by rewrite sections_after_update, S5, Es, S2.
    + left. by split.
  - apply resume_threw in E as (d & w2 & Hd & _ & S2 & _ & _ & E3).
    assert (d = document) as -> by congruence.
    destruct (summarize_from_rows (Continue.documentText body) key
                (Continue.selectedModel body) (Continue.body_documentId body)
                (Z.of_nat (length (Continue.sections_of body document)))
                (Continue.sections_of body document) 0 [] w2)
      as (summaries & Es & Hm).
    rewrite E3 in Es, Hm. cbn [fst snd] in Es, Hm.
    eexists _, _, summaries. split; [reflexivity|]. split.
    + by rewrite sections_after_update, Es, S2.
    + right. by split.
Qed.

Lemma continue_inserts_rows_of_outline_witness :
  exists reply w' summaries,
    Continue.action (H := text_env) (continue_request doc5 None)
      (world_with 1 (awaiting (js "paper.pdf") [secX]))
    = (Returned reply, w')
    /\ sections w' = [] ++ rows_of 1 0 [secX] summaries.
Proof.
  destruct (@continue_inserts_rows_of_outline text_env
              (continue_request doc5 None) (js "key")
              (continue_body doc5 None) (awaiting (js "paper.pdf") [secX])
              (world_with 1 (awaiting (js "paper.pdf") [secX])))
    as (reply & w' & summaries & E & Hrows & _).
  - repeat split; try reflexivity. simpl. lia.
  - reflexivity.
  - reflexivity.
  - exists reply, w', summaries. exact (conj E Hrows).
Defined.

(** *** What a retried call gives *)

Section RetryResult.

Context `{Env} {T : Type}.
Variable fn : M T.
Variables maxRetries baseDelay : Z.
Variable db : bool.
Variable documentId : option Z.
Variable stepName : option jsstring.

(** [R] is a preorder on worlds that the retried function and the
    waits respect; [ws] is the world in which the loop was entered. *)
Variable R : World -> World -> Prop.
Hypothesis R_refl : forall w, R w w.
Hypothesis R_trans : forall w1 w2 w3, R w1 w2 -> R w2 w3 -> R w1 w3.
Hypothesis R_fn : frames R fn.
Hypothesis R_wait : forall attempt text,
  frames R (wait_before baseDelay db documentId stepName attempt text).
Variable ws : World.

(** The loop ends as a call of [fn] ended, in the world that this call
    left; a thrown [undefined] or [null] is replaced by the type error
    of reading its [errorText]. *)
Lemma retry_loop_result (n : nat) :
  forall attempt lastError text (w w' : World) (o : Outcome T),
    R ws w ->
    (n = O -> exists w0, R ws w0 /\ fn w0 = (Threw lastError, w)) ->
    retry_loop fn maxRetries baseDelay db documentId stepName n attempt
      lastError text w = (o, w') ->
    (exists w0, R ws w0 /\ fn w0 = (o, w'))
    \/ (exists w0, R ws w0 /\ fn w0 = (Threw Undefined, w')
                   /\ o = Threw (Value type_error_undefined))
    \/ (exists w0, R ws w0 /\ fn w0 = (Threw Null, w')
                   /\ o = Threw (Value type_error_null)).
Proof.
  induction n as [|n IH]; intros attempt lastError text w w' o Hw Hlast Hrun.
  - destruct (Hlast eq_refl) as (w0 & Hw0 & E). left. exists w0.
    cbn [retry_loop] in Hrun. by injection Hrun as <- <-.
  - cbn [retry_loop] in Hrun. unfold try_catch in Hrun.
    rewrite run_bind in Hrun.
    destruct (wait_before_delays baseDelay db documentId stepName attempt
                text w) as (w1 & E1 & _).
    pose proof (R_trans _ _ _ Hw (frames_run R _ _ _ _ (R_wait _ _) E1))
      as Hw1.
    rewrite E1 in Hrun.
    destruct (fn w1) as [[v|[| |e]] w2] eqn:Efn.
    + injection Hrun as <- <-. left. by exists w1.
    + injection Hrun as <- <-. right. left. by exists w1.
    + injection Hrun as <- <-. right. right. by exists w1.
    + destruct (attempt =? maxRetries).
      { injection Hrun as <- <-. left. by exists w1. }
      destruct (is_rate_limit e).
      * apply IH in Hrun; [done| |].
        -- exact (R_trans _ _ _ Hw1 (frames_run R _ _ _ _ R_fn Efn)).
        -- intros _. by exists w1.
      * injection Hrun as <- <-. left. by exists w1.
Qed.

End RetryResult.

(** X22: a retried call never invents its result.  With a number of
    retries that is not negative, [retryWithBackoff] ends as one call
    of [fn] ended (the same value or the same thrown value) and in the
    world that this call left, with one exception: when a call of
    [fn] throws [undefined] or [null], the catch block fails to read
    its [errorText], and the type error of that reading is thrown, in
    the world that this call left. *)
Theorem retry_result_is_of_fn `{Env} {T} (fn : M T) (maxRetries baseDelay : Z)
    (db : bool) (documentId : option Z) (stepName : option jsstring)
    (w w' : World) (o : Outcome T) :
  0 <= maxRetries ->
  retryWithBackoff fn maxRetries baseDelay db documentId stepName w
  = (o, w') ->
  (exists w0, fn w0 = (o, w'))
  \/ (exists w0, fn w0 = (Threw Undefined, w')
                 /\ o = Threw (Value type_error_undefined))
  \/ (exists w0, fn w0 = (Threw Null, w')
                 /\ o = Threw (Value type_error_null)).
Proof.
  intros Hmax Hrun. unfold retryWithBackoff in Hrun.
  apply (retry_loop_result fn maxRetries baseDelay db documentId stepName
           (fun _ _ => True)) with (ws := w) in Hrun; try done.
  - destruct Hrun as [(w0 & _ & E)|[(w0 & _ & E)|(w0 & _ & E)]];
      [left|right; left|right; right]; by exists w0.
  - lia.
Qed.

Lemma retry_result_is_of_fn_witness :
  let rw := retryWithBackoff (H := simple_env [] (fun _ => []))
              (scripted twice_limited) 3 1000 true (Some 1)
              (Some (js "generating_summaries"))
              (world_with 1 (uploaded (js "paper.pdf"))) in
  (exists w0, scripted twice_limited w0 = (fst rw, snd rw))
  \/ (exists w0, scripted twice_limited w0 = (Threw Undefined, snd rw)
                 /\ fst rw = Threw (Value type_error_undefined))
  \/ (exists w0, scripted twice_limited w0 = (Threw Null, snd rw)
                 /\ fst rw = Threw (Value type_error_null)).
Proof.
  apply (@retry_result_is_of_fn (simple_env [] (fun _ => [])) Z
           (scripted twice_limited) 3 1000 true (Some 1)
           (Some (js "generating_summaries"))
           (world_with 1 (uploaded (js "paper.pdf")))).
  - lia.
  - reflexivity.
Defined.

(** *** The outline of the process stage *)

Section OutlineFacts.

Context `{Env}.

(** A model request that returns has sent one request to the service
    and returns the body of its answer. *)
Lemma generateContent_returned model apiKey (w w' : World) result :
  Process.generateContent model apiKey w = (Returned result, w') ->
  usable_answer (requests w) = Some result /\ requests w' = S (requests w).
Proof.
  unfold Process.generateContent, usable_answer.
  destruct (Process.getModelType model); [|done]. rewrite run_bind.
  unfold fetch.
  destruct (fetch_generateContent (requests w)) as [e|response]; [done|].
  cbv zeta. destruct (res_ok response); cbn [negb].
  - destruct (res_json response); [|done]. by intros [= <- <-].
  - destruct (_ =? 404); [done|]. by destruct (_ || _).
Qed.

(** The retried function returns the outline that the host parsed from
    the answers to its own requests, the first of which is the next
    request of the world it starts in. *)
Lemma request_structure_returned apiKey model id chunkNumber totalChunks
    (w w' : World) (outline : list Section) :
  Process.request_structure apiKey model id chunkNumber totalChunks w
  = (Returned outline, w') ->
  outline_of_request (requests w) = Some outline
  /\ (requests w < requests w')%nat.
Proof.
  intros Hrun. unfold Process.request_structure in Hrun. cbv zeta in Hrun.
  apply bind_returned in Hrun as ([] & w1 & E1 & Hrun).
  rewrite run_status in E1. injection E1 as <-.
  apply bind_returned in Hrun as (result & w2 & E2 & Hrun).
  apply generateContent_returned in E2 as [Hu R2].
  rewrite requests_after_update in Hu, R2.
  apply bind_returned in Hrun as (text & w3 & E3 & Hrun).
  assert (analysis_text (requests w) = Some text
          /\ (requests w < requests w3)%nat) as [Ht R3].
  { unfold analysis_text. rewrite Hu. cbn [mbind option_bind].
    destruct (bool_decide _).
    - apply bind_returned in E3 as ([] & w4 & E4 & E3).
      rewrite run_status in E4. injection E4 as <-.
      apply bind_returned in E3 as (continuation & w5 & E5 & E3).
      apply generateContent_returned in E5 as [Hu' R5].
      rewrite requests_after_update, R2 in Hu', R5.
      injection E3 as <- <-. rewrite Hu'. split; [done|]. lia.
    - injection E3 as <- <-. split; [done|]. lia. }
  destruct text as [|c text]; [done|]. cbn [truthy negb] in Hrun.
  destruct (Process.match_json_array _) as [jsonMatch|] eqn:Ematch; [|done].
  destruct (JSON_parse_sections jsonMatch) as [parsed|] eqn:Eparse; [|done].
  apply bind_returned in Hrun as ([] & w4 & E4 & Hrun).
  rewrite run_status in E4. injection E4 as <-.
  injection Hrun as <- <-. split.
  - unfold outline_of_request. rewrite Ht. cbn [mbind option_bind truthy].
    by rewrite Ematch.
  - by rewrite requests_after_update.
Qed.

Lemma analyzeDocumentStructure_returned text apiKey model id chunkNumber
    totalChunks (w w' : World) (outline : list Section) :
  Process.analyzeDocumentStructure text apiKey model id chunkNumber
    totalChunks w = (Returned outline, w') ->
  exists n, (requests w <= n < requests w')%nat
            /\ outline_of_request n = Some outline.
Proof.
  intros Hrun. unfold Process.analyzeDocumentStructure, retryWithBackoff in Hrun.
  apply (retry_loop_result _ _ _ _ _ _ later later_trans
           (later_request_structure _ _ _ _ _)
           (later_wait_before _ _ _ _) w) in Hrun
    as [(w0 & Hw0 & Hfn)|[(w0 & _ & _ & ?)|(w0 & _ & _ & ?)]];
    [|done|done|apply later_refl|done].
  apply request_structure_returned in Hfn as [Hout Hlt].
  exists (requests w0). split; [|done]. unfold later in Hw0. lia.
Qed.

(** The loop over the chunks returns the outlines of as many requests
    as there are chunks, in the order in which they were sent, after
    the sections it started with. *)
Lemma analyze_from_returned apiKey model id total (chunks : list jsstring) :
  forall i allSections (w w' : World) (toc : list Section),
    Process.analyze_from apiKey model id total i chunks allSections w
    = (Returned toc, w') ->
    exists ns outlines,
      length ns = length chunks
      /\ increasing ns
      /\ Forall (fun n => (requests w <= n < requests w')%nat) ns
      /\ Forall2 (fun n o => outline_of_request n = Some o) ns outlines
      /\ toc = allSections ++ concat outlines
      /\ later w w'.
Proof.
  induction chunks as [|chunk chunks IH]; intros i allSections w w' toc Hrun;
    cbn [Process.analyze_from] in Hrun.
  - injection Hrun as <- <-. exists [], [].
    rewrite app_nil_r. split; [done|]. split; [done|].
    split; [constructor|]. split; [constructor|].
    split; [done|apply later_refl].
  - apply bind_returned in Hrun as ([] & w1 & E1 & Hrun).
    rewrite run_status in E1. injection E1 as <-.
    apply bind_returned in Hrun as (outline & w2 & Hone & Hrun).
    apply analyzeDocumentStructure_returned in Hone as (n & Hn & Hout).
    rewrite requests_after_update in Hn.
    apply IH in Hrun as (ns & outlines & Hlen & Hinc & Hns & Hall & -> & Hw).
    unfold later in Hw |- *.
    exists (n :: ns), (outline :: outlines). cbn [length concat].
    split; [by rewrite Hlen|]. split.
    { destruct ns as [|m ns]; [done|]. split; [|done].
      apply Forall_cons in Hns as [Hm _]. lia. }
    split.
    { constructor; [lia|]. eapply Forall_impl; [exact Hns|].
      intros m Hm. cbn beta in Hm |- *. lia. }
    split; [by constructor|]. split; [by rewrite app_assoc|lia].
Qed.

End OutlineFacts.

(** X23: when the process route answers 200 to a request without a
    custom table of contents, the outline that it stored is the
    concatenation of the outlines read from the answers to requests
    of this run, one request for every chunk of the text (cut with the
    budget of the model, 15000 when the listing does not give one),
    in the order in which the requests were sent: nothing is merged,
    sorted or dropped. *)
Theorem stored_outline_is_concatenation `{Env} (request : Process.Request)
    (key : jsstring) (body : Process.Body) (document : Document)
    (w w' : World) (reply : Reply) :
  process_accepts request key body ->
  documents w !! Process.body_documentId body = Some document ->
  Process.customTableOfContents body = None ->
  Process.action request w = (Returned reply, w') ->
  code reply = 200 ->
  exists ns outlines,
    length ns
    = length (chunkTextForProcessing (Process.documentText body)
                (chunk_budget (Process.selectedModel body)))
    /\ increasing ns
    /\ Forall (fun n => (requests w <= n < requests w')%nat) ns
    /\ Forall2 (fun n o => outline_of_request n = Some o) ns outlines
    /\ tableOfContents <$> documents w' !! Process.body_documentId body
       = Some (Some (concat outlines)).
Proof.
  intros Hacc Hdoc Hnone Hrun Hcode.
  rewrite (process_accepted _ _ _ _ Hacc) in Hrun.
  destruct (Process.analyse key body w) as [[reply'|t] w1] eqn:E.
  - injection Hrun as -> ->.
    destruct (analyse_final _ _ _ _ _ _ Hdoc E)
      as (d' & toc & Hd' & _ & _ & _ & Htoc & _ & Hloop).
    destruct (Hloop Hnone) as (w0 & w0' & Hfrom & L0 & L1).
    apply analyze_from_returned in Hfrom
      as (ns & outlines & Hlen & Hinc & Hns & Hall & -> & _).
    exists ns, outlines. split; [exact Hlen|]. split; [exact Hinc|].
    split.
    { eapply Forall_impl; [exact Hns|]. unfold later in L0, L1.
      intros n Hn. cbn beta in Hn |- *. lia. }
    split; [exact Hall|].
    rewrite Hd'. cbn [fmap option_fmap option_map]. by rewrite Htoc.
  - injection Hrun as <- _. discriminate Hcode.
Qed.

Lemma stored_outline_is_concatenation_witness :
  let w := world_with 1 (uploaded (js "paper.pdf")) in
  let w' := snd (Process.action (H := two_outlines_env)
                   (process_request doc5) w) in
  length (chunkTextForProcessing doc5
            (chunk_budget (H := two_outlines_env)
               (js "models/gemini-2.0-flash"))) = 2%nat
  /\ outline_of_request (H := two_outlines_env) 0 = Some [secA]
  /\ outline_of_request (H := two_outlines_env) 1 = Some [secB]
  /\ tableOfContents <$> documents w' !! 1 = Some (Some [secA; secB]).
Proof.
  cbv zeta. split; [reflexivity|]. split; [reflexivity|].
  split; [reflexivity|].
  destruct (@stored_outline_is_concatenation two_outlines_env
              (process_request doc5) (js "key") (process_body doc5 None)
              (uploaded (js "paper.pdf"))
              (world_with 1 (uploaded (js "paper.pdf")))
              (snd (Process.action (H := two_outlines_env)
                      (process_request doc5)
                      (world_with 1 (uploaded (js "paper.pdf")))))
              {| code := 200;
                 payload := ProcessPaused
                   {| pd_documentId := 1;
                      pd_selectedModel := js "models/gemini-2.0-flash";
                      pd_fileName := js "paper.pdf" |} |})
    as (ns & outlines & Hlen & Hinc & Hrange & Hall & Htoc).
  - repeat split; try reflexivity. simpl. lia.
  - reflexivity.
  - reflexivity.
  - vm_compute. reflexivity.
  - reflexivity.
  - change (Process.body_documentId (process_body doc5 None)) with 1 in Htoc.
    rewrite Htoc. do 2 f_equal.
    change (length ns = 2%nat) in Hlen.
    change (Forall (fun n => (0 <= n < 2)%nat) ns) in Hrange.
    destruct ns as [|a [|b [|c ns]]]; try discriminate Hlen.
    destruct Hinc as [Hab _].
    apply Forall_cons in Hrange as [Ha Hrange].
    apply Forall_cons in Hrange as [Hb _].
    assert (a = 0%nat) as -> by lia. assert (b = 1%nat) as -> by lia.
    apply Forall2_cons_inv_l in Hall as (o1 & os & H1 & Hall & ->).
    apply Forall2_cons_inv_l in Hall as (o2 & os' & H2 & Hall & ->).
    apply Forall2_nil_inv_l in Hall as ->.
    injection H1 as <-. injection H2 as <-. reflexivity.
Defined.

(** *** The progress of the process stage *)

Section ProcessProgress.

Context `{Env}.
Variables id documentId : Z.
Variable chain : list Z.
Variable w0 : World.

Local Abbreviation Q := (same_progress id).
Local Abbreviation reached := (at_step id documentId chain w0).

Lemma progress_after_update id' fields (w : World) :
  progress_writes id (trace (after_update id' fields w))
  = progress_writes id (trace w)
    ++ (if bool_decide (id' = id) then progress_of_fields fields else []).
Proof.
  unfold after_update. cbn [db_update snd trace].
  rewrite progress_writes_snoc. f_equal.
  unfold progress_writes. cbn [flat_map]. apply app_nil_r.
Qed.

Lemma quiet_refl (w : World) : Q w w.
Proof. reflexivity. Qed.

Lemma quiet_update id' fields :
  Forall (fun _ => False) (progress_of_fields fields) ->
  frames Q (db_update id' fields).
Proof.
  intros Hq w. unfold same_progress.
  change (snd (db_update id' fields w)) with (after_update id' fields w).
  rewrite progress_after_update.
  destruct (progress_of_fields fields); [|by inversion Hq].
  destruct (bool_decide _); apply app_nil_r.
Qed.

Lemma quiet_analyze_from apiKey model id' total chunks i allSections :
  frames Q (Process.analyze_from apiKey model id' total i chunks allSections).
Proof.
  apply (stable_analyze_from Q (fun _ => False) quiet_refl
           (progress_trans id) quiet_update (progress_delay id)
           (progress_fetch id)).
Qed.

Lemma quiet_metadata id' pdfTitle pdfAuthor :
  frames Q (Process.updatePDFMetadata id' pdfTitle pdfAuthor).
Proof.
  apply (stable_metadata Q (fun _ => False) quiet_refl quiet_update).
Qed.

(** A step that writes no progress value, and may throw. *)
Lemma reached_quiet {A B} (m : M A) (k : A -> M B) (n : nat) (w : World) :
  frames Q m -> reached n w ->
  (forall a w1, reached n w1 -> exists n', reached n' (snd (k a w1))) ->
  exists n', reached n' (snd ((m ≫= k) w)).
Proof.
  intros Hm Hn Hk. rewrite run_bind.
  pose proof (Hm w) as Hq. unfold same_progress in Hq.
  destruct (m w) as [[a|t] w1]; cbn [snd] in Hq.
  - apply Hk. unfold at_step. by rewrite Hq.
  - exists n. unfold at_step. cbn [snd]. by rewrite Hq.
Qed.

(** A step that writes the next value of the chain. *)
Lemma reached_update {B} fields (p : Z) (k : unit -> M B) (n : nat)
    (w : World) :
  progress_of_fields fields = [p] ->
  take (S n) chain = take n chain ++ [p] ->
  reached n w ->
  (forall w1, reached (S n) w1 -> exists n', reached n' (snd (k tt w1))) ->
  exists n', reached n' (snd ((db_update documentId fields ≫= k) w)).
Proof.
  intros Hp Htake Hn Hk.
  rewrite (run_bind_returned _ _ _ _ _ (run_db_update _ _ _)).
  apply Hk. unfold at_step. rewrite progress_after_update, Hn, Hp.
  destruct (bool_decide _); [|by rewrite app_nil_r].
  by rewrite Htake, app_assoc.
Qed.

Lemma reached_status {B} step message (p : Z) (k : unit -> M B) (n : nat)
    (w : World) :
  take (S n) chain = take n chain ++ [p] ->
  reached n w ->
  (forall w1, reached (S n) w1 -> exists n', reached n' (snd (k tt w1))) ->
  exists n',
    reached n'
      (snd ((updateDocumentStatus documentId step message (Some p) ≫= k) w)).
Proof. by apply reached_update. Qed.

Lemma reached_status_none {B} step message (k : unit -> M B) (n : nat)
    (w : World) :
  reached n w ->
  (forall w1, reached n w1 -> exists n', reached n' (snd (k tt w1))) ->
  exists n',
    reached n'
      (snd ((updateDocumentStatus documentId step message None ≫= k) w)).
Proof.
  intros Hn Hk. apply (reached_quiet _ _ n); [|done|by intros []].
  apply quiet_update. constructor.
Qed.

End ProcessProgress.

Section ProcessProgressRun.

Context `{Env}.

Lemma run_bind_assoc {A B C} (m : M A) (k1 : A -> M B) (k2 : B -> M C)
    (w : World) :
  ((m ≫= k1) ≫= k2) w = (m ≫= fun a => k1 a ≫= k2) w.
Proof. rewrite !run_bind. by destruct (m w) as [[a|t] w1]. Qed.

Lemma quiet_model_lookup id apiKey model :
  frames (same_progress id)
    (try_catch
       (availableModels ← Process.fetchAvailableModels apiKey;
        mret (List.find (fun m => bool_decide (Process.name m = model))
                availableModels))
       (fun _ => mret None)).
Proof.
  intros w. by rewrite model_lookup_returns.
Qed.

Ltac loud p n :=
  eapply (reached_status _ _ _ _ _ _ p _ n);
    [reflexivity|eassumption|intros ? ?].

Ltac loud_update p n :=
  eapply (reached_update _ _ _ _ _ p _ n);
    [reflexivity|reflexivity|eassumption|intros ? ?].

Ltac quiet n :=
  eapply (reached_quiet _ _ _ _ _ _ n); [|eassumption|intros ? ? ?].

Ltac quiet_status n :=
  eapply (reached_status_none _ _ _ _ _ _ _ n); [eassumption|intros ? ?].

(** The analysis writes the progress values of its chain in order, and
    stops early only by throwing. *)
Lemma analyse_progress id apiKey body (w : World) :
  exists n,
    at_step id (Process.body_documentId body)
      (process_steps
         (match Process.customTableOfContents body with
          | Some _ => true
          | None => false
          end))
      w n (snd (Process.analyse apiKey body w)).
Proof.
  assert (forall chain,
            at_step id (Process.body_documentId body) chain w 0 w) as H0.
  { intros chain. unfold at_step. cbn [take].
    destruct (bool_decide _); by rewrite app_nil_r. }
  unfold Process.analyse. cbv zeta.
  destruct (Process.customTableOfContents body) as [custom|].
  - specialize (H0 (process_steps true)). loud 25 0%nat.
    quiet 1%nat.
    { destruct (_ || _); [apply quiet_metadata|by intros ?]. }
    destruct (negb _); [by exists 1%nat|].
    loud 30 1%nat. loud 35 2%nat.
    quiet 3%nat; [apply quiet_model_lookup|].
    quiet_status 3%nat.
    rewrite run_bind_assoc. quiet_status 3%nat.
    rewrite run_bind_returned with (a := custom) (w1 := w6) by reflexivity.
    quiet_status 3%nat.
    loud 60 3%nat. loud 65 4%nat.
    quiet 5%nat; [by intros ?|].
    loud_update 65 5%nat. loud_update 65 6%nat.
    by exists 7%nat.
  - specialize (H0 (process_steps false)). loud 25 0%nat.
    quiet 1%nat.
    { destruct (_ || _); [apply quiet_metadata|by intros ?]. }
    destruct (negb _); [by exists 1%nat|].
    loud 30 1%nat. loud 35 2%nat.
    quiet 3%nat; [apply quiet_model_lookup|].
    quiet_status 3%nat.
    rewrite run_bind_assoc. loud 45 3%nat.
    quiet 4%nat; [apply quiet_analyze_from|].
    quiet_status 4%nat.
    loud 60 4%nat. loud 65 5%nat.
    quiet 6%nat; [by intros ?|].
    loud_update 65 6%nat. loud_update 65 7%nat.
    by exists 8%nat.
Qed.

End ProcessProgressRun.

Lemma process_steps_in_order (custom : bool) (n : nat) :
  non_decreasing (take n (process_steps custom)) = true.
Proof.
  destruct custom; do 9 (destruct n as [|n]; [reflexivity|]); reflexivity.
Qed.


(** *** The summary of a section under rate limits *)

Section SummaryRetry.

Context `{Env}.

Lemma request_summary_scripted (w : World) :
  Continue.request_summary w = scripted summary_outcome w.
Proof.
  unfold Continue.request_summary, scripted, summary_outcome.
  rewrite run_bind. unfold fetch.
  destruct (fetch_generateContent (requests w)) as [e|response]; [done|].
  destruct (negb (res_ok response)); [done|].
  destruct (res_json response) as [result|]; [|done].
  by destruct (Continue.first_text result) as [[|c s]|].
Qed.

Lemma retry_loop_ext {T} (fn fn' : M T) maxRetries baseDelay db documentId
    stepName (n : nat) :
  (forall w, fn w = fn' w) ->
  forall attempt lastError text (w : World),
    retry_loop fn maxRetries baseDelay db documentId stepName n attempt
      lastError text w
    = retry_loop fn' maxRetries baseDelay db documentId stepName n attempt
        lastError text w.
Proof.
  intros Hext. induction n as [|n IH]; intros attempt lastError text w;
    [done|].
  cbn [retry_loop]. unfold try_catch. rewrite !run_bind.
  destruct (wait_before_delays baseDelay db documentId stepName attempt
              text w) as (w1 & -> & _).
  rewrite Hext. destruct (fn' w1) as [[v|[| |e]] w2]; [done|done|done|].
  destruct (_ =? _); [done|]. destruct (is_rate_limit e); [apply IH|done].
Qed.

Lemma createSectionSummary_scripted sectionTitle content apiKey model id
    (w : World) :
  Continue.createSectionSummary sectionTitle content apiKey model id w
  = retryWithBackoff (scripted summary_outcome) 3 1000 true (Some id)
      (Some (js "generating_summaries")) w.
Proof. apply retry_loop_ext, request_summary_scripted. Qed.

Lemma rate_limited_outcome (n : nat) :
  rate_limited n ->
  exists e, summary_outcome n = Threw (Value e) /\ is_rate_limit e = true.
Proof.
  intros (response & E & Hok & Htext). exists (summary_error response).
  unfold summary_outcome. rewrite E, Hok. split; [done|].
  unfold is_rate_limit, summary_error. cbn [is_Error message].
  rewrite Htext. reflexivity.
Qed.

End SummaryRetry.

(** X25: the summary of a section survives up to three rate limits.
    When the service answers Too Many Requests to the next j <= 3
    requests and then answers a text that is not empty, the summary is
    this text, trimmed; j + 1 requests were sent, with j waits in
    between. *)
Theorem summary_survives_rate_limits `{Env}
    (sectionTitle content apiKey model : jsstring) (id : Z) (j : nat)
    (answer : jsstring) (w : World) :
  (j <= 3)%nat ->
  (forall i, (i < j)%nat -> rate_limited (requests w + i)) ->
  answers_text (requests w + j) answer ->
  answer <> [] ->
  exists w',
    Continue.createSectionSummary sectionTitle content apiKey model id w
    = (Returned (trim answer), w')
    /\ requests w' = (requests w + j + 1)%nat
    /\ length (delays_of (trace w')) = (length (delays_of (trace w)) + j)%nat.
Proof.
  intros Hj Hlimited (response & result & E & Hok & Hjson & Htext) Hanswer.
  rewrite createSectionSummary_scripted. unfold retryWithBackoff.
  assert (summary_outcome (requests w + j) = Returned (trim answer)) as Hlast.
  { unfold summary_outcome. rewrite E, Hok, Hjson, Htext.
    by destruct answer. }
  destruct (retry_loop_outcome summary_outcome
              (fun i => match summary_outcome (requests w + i) with
                        | Threw (Value e) => e
                        | _ => rate_limit_error
                        end)
              3 1000 true (Some id) (Some (js "generating_summaries"))
              j 0 Undefined [] w)
    as (w' & Erun & Hreq & Hdel).
  - lia.
  - lia.
  - intros i Hi.
    destruct (rate_limited_outcome _ (Hlimited i Hi)) as (e & -> & He).
    by split.
  - by rewrite Hlast.
  - rewrite Z.sub_0_r in Erun. exists w'. rewrite Erun, Hlast.
    split; [done|]. split; [done|].
    rewrite Hdel. change (0 >? 0) with false. cbv iota.
    by rewrite !length_app, length_map, length_seq.
Qed.

Lemma summary_survives_rate_limits_witness :
  exists w',
    Continue.createSectionSummary (H := limited_env 2) (js "X")
      (js "body 2") (js "key") (js "models/gemini-2.0-flash") 1
      (world_with 1 (awaiting (js "paper.pdf") [secX]))
    = (Returned (trim (js "* a summary")), w')
    /\ requests w' = 3%nat
    /\ length (delays_of (trace w')) = 2%nat.
Proof.
  apply (@summary_survives_rate_limits (limited_env 2) (js "X")
           (js "body 2") (js "key") (js "models/gemini-2.0-flash") 1 2
           (js "* a summary")
           (world_with 1 (awaiting (js "paper.pdf") [secX]))).
  - lia.
  - intros [|[|i]] Hi; [| |lia]; exists too_many_requests;
      repeat split; reflexivity.
  - eexists _, _. repeat split; reflexivity.
  - discriminate.
Defined.

(** X26: the summary of a section gives up at the fourth rate limit.
    When the service answers Too Many Requests to the next four
    requests, the summary throws a rate-limit error after exactly four
    requests: a fifth one is not sent. *)
Theorem summary_gives_up_after_four `{Env}
    (sectionTitle content apiKey model : jsstring) (id : Z) (w : World) :
  (forall i, (i < 4)%nat -> rate_limited (requests w + i)) ->
  exists e w',
    Continue.createSectionSummary sectionTitle content apiKey model id w
    = (Threw (Value e), w')
    /\ is_rate_limit e = true
    /\ requests w' = (requests w + 4)%nat.
Proof.
  intros Hlimited.
  rewrite createSectionSummary_scripted. unfold retryWithBackoff.
  destruct (rate_limited_outcome _ (Hlimited 3%nat ltac:(lia)))
    as (e & Hlast & He).
  destruct (retry_loop_outcome summary_outcome
              (fun i => match summary_outcome (requests w + i) with
                        | Threw (Value e) => e
                        | _ => rate_limit_error
                        end)
              3 1000 true (Some id) (Some (js "generating_summaries"))
              3 0 Undefined [] w)
    as (w' & Erun & Hreq & _).
  - lia.
  - lia.
  - intros i Hi.
    destruct (rate_limited_outcome _ (Hlimited i ltac:(lia))) as (e' & -> & He').
    by split.
  - rewrite Hlast. by left.
  - rewrite Z.sub_0_r in Erun. exists e, w'. rewrite Erun, Hlast.
    split; [done|]. split; [done|]. lia.
Qed.

Lemma summary_gives_up_after_four_witness :
  exists e w',
    Continue.createSectionSummary (H := limited_env 4) (js "X")
      (js "body 2") (js "key") (js "models/gemini-2.0-flash") 1
      (world_with 1 (awaiting (js "paper.pdf") [secX]))
    = (Threw (Value e), w')
    /\ is_rate_limit e = true
    /\ requests w' = 4%nat.
Proof.
  apply (@summary_gives_up_after_four (limited_env 4) (js "X")
           (js "body 2") (js "key") (js "models/gemini-2.0-flash") 1
           (world_with 1 (awaiting (js "paper.pdf") [secX]))).
  intros [|[|[|[|i]]]] Hi; [| | | |lia]; exists too_many_requests;
    repeat split; reflexivity.
Defined.

(** *** A continuation that the service answers *)

Section ContinueSucceeds.

Context `{Env}.

(** An answer with a text ends the summary at the first request. *)
Lemma createSectionSummary_answer sectionTitle content apiKey model id
    (answer : jsstring) (w : World) :
  answers_text (requests w) answer -> answer <> [] ->
  exists w',
    Continue.createSectionSummary sectionTitle content apiKey model id w
    = (Returned (trim answer), w')
    /\ requests w' = S (requests w).
Proof.
  intros (response & result & E & Hok & Hjson & Htext) Hanswer.
  unfold Continue.createSectionSummary, retryWithBackoff.
  change (Z.to_nat (3 + 1)) with 4%nat. cbn [retry_loop].
  unfold try_catch, wait_before. change (0 >? 0) with false. cbv iota.
  rewrite run_bind, run_ret, request_summary_scripted.
  unfold scripted, summary_outcome. rewrite E, Hok, Hjson, Htext.
  destruct answer as [|c answer]; [done|]. by eexists.
Qed.

Lemma summarize_from_returns text apiKey model id total
    (rest : list Section) :
  forall i valid (w : World),
    service_answers (requests w) ->
    exists w',
      Continue.summarize_from text apiKey model id total i rest valid w
      = (Returned (valid ++ rest), w')
      /\ requests w' = (requests w + length rest)%nat.
Proof.
  induction rest as [|section rest IH]; intros i valid w Hservice;
    cbn [Continue.summarize_from].
  { exists w. rewrite app_nil_r. split; [done|]. cbn [length]. lia. }
  cbv zeta.
  rewrite (run_bind_returned _ _ _ _ _ (run_status _ _ _ _ _)).
  match goal with
  | |- context [((if i >? 0 then delay 2000 else mret ()) ≫= _) ?w1] =>
      assert (exists w2, (if i >? 0 then delay 2000 else mret ()) w1
                         = (Returned (), w2)
                         /\ requests w2 = requests w) as (w2 & E2 & R2)
        by (destruct (i >? 0); by eexists)
  end.
  rewrite (run_bind_returned _ _ _ _ _ E2).
  rewrite (run_bind_returned _ _ _ _ _ (run_status _ _ _ _ _)).
  destruct (Hservice (requests w) ltac:(lia)) as (answer & Ha & Hne).
  match goal with
  | |- context [(Continue.createSectionSummary ?a ?b ?c ?d ?e ≫= _) ?w3] =>
      destruct (createSectionSummary_answer a b c d e answer w3)
        as (w4 & E4 & R4);
        [by rewrite requests_after_update, R2|done|]
  end.
  rewrite (run_bind_returned _ _ _ _ _ E4).
  rewrite (run_bind_returned _ _ _ _ _ (run_status _ _ _ _ _)).
  match goal with
  | |- context [(db_insert_section ?row ≫= _) ?w5] =>
      rewrite (run_bind_returned _ _ _ _ _
                 (eq_refl : db_insert_section row w5 = (Returned tt, _)))
  end.
  rewrite (run_bind_returned _ _ _ _ _ (run_status _ _ _ _ _)).
  rewrite requests_after_update, R2 in R4.
  match goal with
  | |- context [Continue.summarize_from _ _ _ _ _ ?i' _ ?valid' ?w7] =>
      destruct (IH i' valid' w7) as (w' & E & R)
  end.
  { intros n Hn. apply Hservice.
    rewrite requests_after_update in Hn. cbn [requests] in Hn.
    rewrite requests_after_update, R4 in Hn. lia. }
  exists w'. rewrite E, <- app_assoc. split; [done|].
  rewrite R, requests_after_update. cbn [requests length].
  rewrite requests_after_update, R4. lia.
Qed.

End ContinueSucceeds.

(** X27: when the service answers every request with a text, a
    continuation request that passes the checks, for a document that
    awaits approval, succeeds: the answer is 200 and counts all the
    sections of the outline, and exactly one request per section was
    sent to the service. *)
Theorem continue_succeeds_when_service_answers `{Env}
    (request : Continue.Request) (key : jsstring) (body : Continue.Body)
    (document : Document) (w : World) :
  continue_accepts request key body ->
  documents w !! Continue.body_documentId body = Some document ->
  status document = awaiting_outline_approval ->
  service_answers (requests w) ->
  let outline := Continue.sections_of body document in
  exists w',
    Continue.action request w
    = (Returned {| code := 200;
                   payload := ContinueDone (Z.of_nat (length outline)) |}, w')
    /\ requests w' = (requests w + length outline)%nat.
Proof.
  intros Hacc Hdoc Hstatus Hservice outline. subst outline.
  rewrite (continue_accepted _ _ _ _ Hacc).
  destruct (Continue.resume key body w) as [[reply|t] w'] eqn:E.
  - apply resume_returned in E
      as [[_ [[_ E]|[_ (d & E & Hd)]]]|(d & w2 & valid & w3 & w5 & message
            & time & Hd & _ & _ & R2 & _ & E3 & _ & R5 & _ & -> & ->)];
      [congruence|congruence|].
    assert (d = document) as -> by congruence.
    destruct (summarize_from_returns (Continue.documentText body) key
                (Continue.selectedModel body) (Continue.body_documentId body)
                (Z.of_nat (length (Continue.sections_of body document)))
                (Continue.sections_of body document) 0 [] w2)
      as (w3' & E3' & R3); [by rewrite R2|].
    rewrite E3 in E3'. injection E3' as -> <-.
    eexists. split; [reflexivity|].
    by rewrite requests_after_update, R5, R3, R2.
  - apply resume_threw in E as (d & w2 & Hd & _ & _ & R2 & _ & E3).
    assert (d = document) as -> by congruence.
    destruct (summarize_from_returns (Continue.documentText body) key
                (Continue.selectedModel body) (Continue.body_documentId body)
                (Z.of_nat (length (Continue.sections_of body document)))
                (Continue.sections_of body document) 0 [] w2)
      as (w3' & E3' & R3); [by rewrite R2|].
    rewrite E3 in E3'. discriminate E3'.
Qed.

Lemma continue_succeeds_when_service_answers_witness :
  exists w',
    Continue.action (H := text_env) (continue_request doc5 None)
      (world_with 1 (awaiting (js "paper.pdf") [secX]))
    = (Returned {| code := 200; payload := ContinueDone 1 |}, w')
    /\ requests w' = 1%nat.
Proof.
  apply (@continue_succeeds_when_service_answers text_env
           (continue_request doc5 None) (js "key") (continue_body doc5 None)
           (awaiting (js "paper.pdf") [secX])
           (world_with 1 (awaiting (js "paper.pdf") [secX]))).
  - repeat split; try reflexivity. simpl. lia.
  - reflexivity.
  - reflexivity.
  - intros n _. exists (js "* a summary"). split; [|discriminate].
    eexists _, _. repeat split; reflexivity.
Defined.

(** X28: the two stages compose through the approval gate.  After a
    process request that passed the checks for a document of the
    store, a continuation request for this document that passes the
    checks is run if the process answered 200, and then leaves the
    document completed (answer 200) or failed (answer 500); it is
    answered 400, and changes nothing, if the process answered 500. *)
Theorem continue_after_process `{Env} (request : Process.Request)
    (request' : Continue.Request) (key key' : jsstring)
    (body : Process.Body) (body' : Continue.Body) (document : Document)
    (w : World) :
  process_accepts request key body ->
  continue_accepts request' key' body' ->
  Continue.body_documentId body' = Process.body_documentId body ->
  documents w !! Process.body_documentId body = Some document ->
  exists reply w1,
    Process.action request w = (Returned reply, w1)
    /\ (code reply = 200
        /\ (exists reply' w2 document',
              Continue.action request' w1 = (Returned reply', w2)
              /\ documents w2 !! Process.body_documentId body
                 = Some document'
              /\ (code reply' = 200 /\ status document' = completed
                  \/ code reply' = 500 /\ status document' = failed))
        \/ code reply = 500
           /\ Continue.action request' w1
              = (Returned (json_error (js "Document not awaiting approval")
                             400), w1)).
Proof.
  intros Hacc Hacc' Hid Hdoc. rewrite (process_accepted _ _ _ _ Hacc).
  destruct (Process.analyse key body w) as [[reply|t] w1] eqn:E.
  - destruct (analyse_final _ _ _ _ _ _ Hdoc E)
      as (d1 & toc & Hd1 & Hcode & Hs1 & _).
    exists reply, w1. split; [done|]. left. split; [done|].
    rewrite <- Hid in Hd1 |- *.
    rewrite (continue_accepted _ _ _ _ Hacc').
    pose proof (resume_final key' body' d1 w1 Hd1 Hs1) as Hfinal.
    destruct (Continue.resume key' body' w1) as [[reply'|t] w2].
    + destruct Hfinal as (d2 & Hd2 & Hcode2 & Hs2 & _).
      exists reply', w2, d2. split; [done|]. split; [done|]. by left.
    + destruct Hfinal as [d2 Hd2]. eexists _, _, _. split; [reflexivity|].
      split; [by apply after_update_lookup|]. right. split; [done|].
      by destruct (set_failed d2
        (message_or (js "Unknown processing error") t)) as (-> & _).
  - pose proof (frames_run _ _ _ _ _ (present_analyse key body) E) as P.
    destruct (proj2 (P _) (mk_is_Some _ _ Hdoc)) as [d1 Hd1].
    eexists _, _. split; [reflexivity|]. right. split; [done|].
    rewrite (continue_accepted _ _ _ _ Hacc').
    erewrite resume_rejected; [done| |].
    + rewrite Hid. by apply after_update_lookup.
    + by destruct (set_failed d1
        (message_or (js "Unknown processing error") t)) as (-> & _).
Qed.

Lemma continue_after_process_witness :
  exists reply w1,
    Process.action (H := one_section_env) (process_request doc5)
      (world_with 1 (uploaded (js "paper.pdf")))
    = (Returned reply, w1)
    /\ (code reply = 200 \/ code reply = 500).
Proof.
  destruct (@continue_after_process one_section_env (process_request doc5)
              (continue_request doc5 None) (js "key") (js "key")
              (process_body doc5 None) (continue_body doc5 None)
              (uploaded (js "paper.pdf"))
              (world_with 1 (uploaded (js "paper.pdf"))))
    as (reply & w1 & E & Hcode).
  - repeat split; try reflexivity. simpl. lia.
  - repeat split; try reflexivity. simpl. lia.
  - reflexivity.
  - reflexivity.
  - exists reply, w1. split; [exact E|].
    destruct Hcode as [[Hcode _]|[Hcode _]]; [by left|by right].
Defined.

(** *** The bracketed part of an answer *)

Section JsonMatch.

Lemma upto_last_spec (close : N) (s : jsstring) :
  match Process.upto_last close s with
  | Some r => exists post, s = r ++ post /\ (close ∉ post)
                           /\ last r = Some close
  | None => close ∉ s
  end.
Proof.
  induction s as [|c s IH]; cbn [Process.upto_last].
  - apply not_elem_of_nil.
  - destruct (Process.upto_last close s) as [r|].
    + destruct IH as (post & -> & Hpost & Hlast). exists post.
      split; [done|]. split; [done|].
      destruct r as [|x r]; [done|]. exact Hlast.
    + destruct (N.eqb_spec c close) as [->|Hc].
      * exists s. by repeat split.
      * by apply not_elem_of_cons.
Qed.

End JsonMatch.

(** X29: the outline text that the process stage hands to the parser
    is the part of the answer from its first opening bracket to its
    last closing bracket, both included; there is none exactly when no
    opening bracket of the answer has a closing bracket after it. *)
Theorem json_match_spans_brackets (s : jsstring) :
  match Process.match_json_array s with
  | Some r =>
      exists pre post,
        s = pre ++ r ++ post /\ (91%N ∉ pre) /\ (93%N ∉ post)
        /\ head r = Some 91%N /\ last r = Some 93%N
  | None => forall pre mid post, s <> pre ++ 91%N :: mid ++ 93%N :: post
  end.
Proof.
  induction s as [|c s IH]; cbn [Process.match_json_array].
  - by intros [|x pre] mid post.
  - destruct (N.eqb_spec c 91) as [->|Hc].
    + pose proof (upto_last_spec 93 s) as Hlast.
      destruct (Process.upto_last 93 s) as [r|]; cbn [fmap option_fmap option_map].
      * destruct Hlast as (post & -> & Hpost & Hlast).
        exists [], post. split; [done|]. split; [apply not_elem_of_nil|].
        split; [done|]. split; [done|].
        destruct r as [|x r]; [done|]. exact Hlast.
      * intros pre mid post E. apply Hlast.
        assert (93%N ∈ s) as Hin; [|done].
        destruct pre as [|x pre]; [injection E as ->|injection E as _ ->];
          rewrite ?elem_of_app, !elem_of_cons, ?elem_of_app, ?elem_of_cons;
          tauto.
    + destruct (Process.match_json_array s) as [r|].
      * destruct IH as (pre & post & -> & Hpre & Hpost & Hhead & Hlast).
        exists (c :: pre), post. split; [done|].
        split; [by apply not_elem_of_cons|done].
      * intros [|x pre] mid post E; injection E as -> E; [done|].
        by apply IH in E.
Qed.

(** *** The metadata of a document *)

(** X30: updatePDFMetadata writes the title and the author of one
    document and nothing else: the sections table, the other
    documents and the other columns of the document are as before, a
    column is written only when its value is not empty, and nothing at
    all is written, not even an empty update, when both are missing
    or empty. *)
Theorem metadata_writes_title_and_author_only (id : Z)
    (title author : option jsstring) (w : World) :
  let w' := snd (Process.updatePDFMetadata id title author w) in
  sections w' = sections w
  /\ (forall id', id' <> id -> documents w' !! id' = documents w !! id')
  /\ without_metadata <$> documents w' !! id
     = without_metadata <$> documents w !! id
  /\ pdfTitle <$> documents w' !! id
     = (fun d => written_or title (pdfTitle d)) <$> documents w !! id
  /\ pdfAuthor <$> documents w' !! id
     = (fun d => written_or author (pdfAuthor d)) <$> documents w !! id
  /\ (default [] title = [] -> default [] author = [] -> w' = w).
Proof.
  cbv zeta. unfold Process.updatePDFMetadata.
  assert (forall fields,
            (forall d, without_metadata (fold_left set_field fields d)
                       = without_metadata d
                       /\ pdfTitle (fold_left set_field fields d)
                          = written_or title (pdfTitle d)
                       /\ pdfAuthor (fold_left set_field fields d)
                          = written_or author (pdfAuthor d)) ->
            let w' := snd (db_update id fields w) in
            sections w' = sections w
            /\ (forall id', id' <> id ->
                  documents w' !! id' = documents w !! id')
            /\ without_metadata <$> documents w' !! id
               = without_metadata <$> documents w !! id
            /\ pdfTitle <$> documents w' !! id
               = (fun d => written_or title (pdfTitle d))
                 <$> documents w !! id
            /\ pdfAuthor <$> documents w' !! id
               = (fun d => written_or author (pdfAuthor d))
                 <$> documents w !! id) as Hupdate.
  { intros fields Hfields. cbv zeta. cbn [db_update snd sections documents].
    split; [done|]. split.
    { intros id' Hid. by rewrite lookup_alter_ne. }
    rewrite lookup_alter, decide_True by done.
    destruct (documents w !! id) as [d|]; [|done]. cbn.
    destruct (Hfields d) as (-> & -> & ->). done. }
  assert (forall id' : Z,
            (fun d => written_or None (pdfTitle d)) <$> documents w !! id'
            = pdfTitle <$> documents w !! id') as Hnone
    by (intros id'; by destruct (documents w !! id')).
  destruct title as [[|c s]|], author as [[|c' s']|]; cbn [app];
    lazymatch goal with
    | |- context [db_update id ?fields w] =>
        destruct (Hupdate fields ltac:(intros d; by destruct d))
          as (H1 & H2 & H3 & H4 & H5);
        repeat split; done
    | |- _ =>
        change (snd ((mret tt : M unit) w)) with w;
        repeat split; try done; by destruct (documents w !! id)
    end.
Qed.
